(** * yupsh/base64: the streaming encode/decode engine

    A shallow embedding of the Go sources of the [base64] command
    (the context-aware engine with [encodeSource], [decodeSource],
    [wrapString], [removeNonBase64] and their cancellation-aware variants,
    and the line-transform [Executor] of [command.go]), together with the
    parts of the Go standard library they call ([unicode/utf8],
    [encoding/base64], [strings.TrimSpace], [bufio.Scanner]).

    Conventions.
    - A Go [string] and a Go [[]byte] are both sequences of bytes:
      [list byte].
    - Go's [int], [uint] and [rune] are [Z]; every index and length that
      occurs is far below 2^63, so no wrap-around is written for them.
      Conversions to [byte] truncate ([byte_of_Z]).
    - Effects (the cancellation signal, the reader, the two sinks) are
      threaded through a small state-and-error monad [M]. *)

From Stdlib Require Import ZArith List Lia Bool Arith Strings.Byte.
From Stdlib Require Strings.String DecimalString.
Import ListNotations String.StringSyntax.
Local Open Scope string_scope.
Local Open Scope Z_scope.

Set Implicit Arguments.

(* ================================================================= *)
(** ** Bytes and strings *)

Definition gostring := list byte.

(** A string literal, as a sequence of bytes. *)
Definition str (s : String.string) : gostring := String.list_byte_of_string s.

Definition Z_of_byte (b : byte) : Z := Z.of_N (Byte.to_N b).

(** Go's conversion [byte(x)]: the low eight bits. *)
Definition byte_of_Z (x : Z) : byte :=
  match Byte.of_N (Z.to_N (x mod 256)) with
  | Some b => b
  | None => x00
  end.

Definition byte_eqb (a b : byte) : bool := Byte.eqb a b.

Definition NL : byte := byte_of_Z 10.   (* '\n' *)
Definition CR : byte := byte_of_Z 13.   (* '\r' *)

(** [s[i]] for a string; the callers below only index inside the string. *)
Definition at_ (s : gostring) (i : nat) : Z := Z_of_byte (nth i s x00).

(* ================================================================= *)
(** ** unicode/utf8 *)

Module utf8.

Definition RuneError : Z := 0xFFFD.
Definition RuneSelf : Z := 0x80.
Definition MaxRune : Z := 0x10FFFF.
Definition UTFMax : nat := 4.

Definition surrogateMin : Z := 0xD800.
Definition surrogateMax : Z := 0xDFFF.

Definition tx : Z := 0x80.
Definition t2 : Z := 0xC0.
Definition t3 : Z := 0xE0.
Definition t4 : Z := 0xF0.

Definition maskx : Z := 0x3F.
Definition mask2 : Z := 0x1F.
Definition mask3 : Z := 0x0F.
Definition mask4 : Z := 0x07.

Definition rune1Max : Z := 0x7F.
Definition rune2Max : Z := 0x7FF.
Definition rune3Max : Z := 0xFFFF.

Definition locb : Z := 0x80.
Definition hicb : Z := 0xBF.

(** The entries of the table [first]: the low three bits are the length of
    the sequence, the high four bits index [acceptRanges]. *)
Definition xx : Z := 0xF1.   (* invalid: size 1 *)
Definition as_ : Z := 0xF0.  (* ASCII: size 1 *)
Definition s1 : Z := 0x02.
Definition s2 : Z := 0x13.
Definition s3 : Z := 0x03.
Definition s4 : Z := 0x23.
Definition s5 : Z := 0x34.
Definition s6 : Z := 0x04.
Definition s7 : Z := 0x44.

(** [first[b]], the information about the first byte of a sequence. *)
Definition first (b : Z) : Z :=
  if b <? 0x80 then as_
  else if b <? 0xC2 then xx
  else if b <? 0xE0 then s1
  else if b =? 0xE0 then s2
  else if b <? 0xED then s3
  else if b =? 0xED then s4
  else if b <? 0xF0 then s3
  else if b =? 0xF0 then s5
  else if b <? 0xF4 then s6
  else if b =? 0xF4 then s7
  else xx.

Record acceptRange := { lo : Z; hi : Z }.

Definition acceptRanges (k : Z) : acceptRange :=
  if k =? 0 then {| lo := locb; hi := hicb |}
  else if k =? 1 then {| lo := 0xA0; hi := hicb |}
  else if k =? 2 then {| lo := locb; hi := 0x9F |}
  else if k =? 3 then {| lo := 0x90; hi := hicb |}
  else if k =? 4 then {| lo := locb; hi := 0x8F |}
  else {| lo := 0; hi := 0 |}.

(** [DecodeRuneInString]: the first rune of [s] and its width in bytes;
    [(RuneError, 0)] on the empty string, [(RuneError, 1)] on an invalid
    encoding. *)
Definition DecodeRuneInString (s : gostring) : Z * nat :=
  let n := length s in
  match s with
  | [] => (RuneError, 0%nat)
  | b0 :: _ =>
    let s0 := Z_of_byte b0 in
    let x := first s0 in
    if as_ <=? x then
      (* the mask-and-or of the source: [s0] for ASCII, [RuneError] for xx *)
      ((if x =? xx then RuneError else s0), 1%nat)
    else
      let sz := Z.to_nat (Z.land x 7) in
      let accept := acceptRanges (Z.shiftr x 4) in
      if (n <? sz)%nat then (RuneError, 1%nat)
      else
        let c1 := at_ s 1 in
        if (c1 <? lo accept) || (hi accept <? c1) then (RuneError, 1%nat)
        else if (sz <=? 2)%nat then
          (Z.lor (Z.shiftl (Z.land s0 mask2) 6) (Z.land c1 maskx), 2%nat)
        else
          let c2 := at_ s 2 in
          if (c2 <? locb) || (hicb <? c2) then (RuneError, 1%nat)
          else if (sz <=? 3)%nat then
            (Z.lor (Z.lor (Z.shiftl (Z.land s0 mask3) 12)
                          (Z.shiftl (Z.land c1 maskx) 6))
                   (Z.land c2 maskx), 3%nat)
          else
            let c3 := at_ s 3 in
            if (c3 <? locb) || (hicb <? c3) then (RuneError, 1%nat)
            else
              (Z.lor (Z.lor (Z.lor (Z.shiftl (Z.land s0 mask4) 18)
                                   (Z.shiftl (Z.land c1 maskx) 12))
                            (Z.shiftl (Z.land c2 maskx) 6))
                     (Z.land c3 maskx), 4%nat)
  end.

(** [RuneStart]: is [b] not a continuation byte? *)
Definition RuneStart (b : Z) : bool := negb (Z.land b 0xC0 =? 0x80).

(** The loop of [DecodeLastRuneInString] that looks for the start of the
    last rune, [for start--; start >= lim; start-- { if RuneStart(s[start])
    { break } }]: it is entered with [start] already decremented, and at
    most [UTFMax] bytes are looked at. *)
Fixpoint backToStart (s : gostring) (lim : Z) (k : nat) (start : Z) : Z :=
  match k with
  | O => start
  | S k' =>
    if start <? lim then start
    else if RuneStart (at_ s (Z.to_nat start)) then start
    else backToStart s lim k' (start - 1)
  end.

(** [DecodeLastRuneInString]: the last rune of [s] and its width. *)
Definition DecodeLastRuneInString (s : gostring) : Z * nat :=
  let end_ := length s in
  if (end_ =? 0)%nat then (RuneError, 0%nat)
  else
    let r := at_ s (end_ - 1) in
    if r <? RuneSelf then (r, 1%nat)
    else
      (* guard against O(n^2) behavior when traversing backwards through
         strings with long sequences of invalid UTF-8 *)
      let lim := Z.of_nat end_ - Z.of_nat UTFMax in
      let lim := if lim <? 0 then 0 else lim in
      let start := backToStart s lim UTFMax (Z.of_nat end_ - 2) in
      let start := Z.to_nat (if start <? 0 then 0 else start) in
      let '(r', size) := DecodeRuneInString (firstn (end_ - start) (skipn start s)) in
      if negb (start + size =? end_)%nat then (RuneError, 1%nat)
      else (r', size).

(** [AppendRune]: the UTF-8 encoding of [r] ([RuneError] for a rune that
    is out of range or a surrogate). *)
Definition AppendRune (p : list byte) (r : Z) : list byte :=
  if (0 <=? r) && (r <=? rune1Max) then p ++ [byte_of_Z r]
  else if (0 <=? r) && (r <=? rune2Max) then
    p ++ [byte_of_Z (Z.lor t2 (Z.shiftr r 6));
          byte_of_Z (Z.lor tx (Z.land r maskx))]
  else
    let r' := if (r <? 0) || (MaxRune <? r)
                 || ((surrogateMin <=? r) && (r <=? surrogateMax))
              then RuneError else r in
    if r' <=? rune3Max then
      p ++ [byte_of_Z (Z.lor t3 (Z.shiftr r' 12));
            byte_of_Z (Z.lor tx (Z.land (Z.shiftr r' 6) maskx));
            byte_of_Z (Z.lor tx (Z.land r' maskx))]
    else
      p ++ [byte_of_Z (Z.lor t4 (Z.shiftr r' 18));
            byte_of_Z (Z.lor tx (Z.land (Z.shiftr r' 12) maskx));
            byte_of_Z (Z.lor tx (Z.land (Z.shiftr r' 6) maskx));
            byte_of_Z (Z.lor tx (Z.land r' maskx))].

End utf8.

(* ================================================================= *)
(** ** The [for i, char := range s] loop and [strings.Builder] *)

(** The builder is its content; [WriteRune] and [WriteString] append. *)
Definition Builder := list byte.
Definition WriteRune (b : Builder) (r : Z) : Builder := utf8.AppendRune b r.
Definition WriteString (b : Builder) (s : gostring) : Builder := b ++ s.

(** [for i, char := range s { acc = body i char acc }]: [i] is the byte
    offset at which the rune [char] starts; an invalid byte is the rune
    [RuneError] and the loop advances by one byte.  Every iteration
    consumes at least one byte, so [length s] iterations are enough. *)
Fixpoint range_from (A : Type) (fuel : nat) (body : Z -> Z -> A -> A)
         (i : Z) (s : gostring) (acc : A) : A :=
  match fuel with
  | O => acc
  | S fuel' =>
    match s with
    | [] => acc
    | _ :: _ =>
      let '(r, size) := utf8.DecodeRuneInString s in
      range_from fuel' body (i + Z.of_nat size) (skipn size s) (body i r acc)
    end
  end.

Definition range (A : Type) (body : Z -> Z -> A -> A) (s : gostring) (acc : A) : A :=
  range_from (length s) body 0 s acc.

(** The characters kept by the alphabet filter:
    [A-Z], [a-z], [0-9], [+], [/], [=]. *)
Definition isBase64Rune (char : Z) : bool :=
  ((65 <=? char) && (char <=? 90))
  || ((97 <=? char) && (char <=? 122))
  || ((48 <=? char) && (char <=? 57))
  || (char =? 43) || (char =? 47) || (char =? 61).

(* ================================================================= *)
(** ** The pure line wrapper and alphabet filter *)

(** [wrapString]: Go's [%] is the truncated remainder [Z.rem]. *)
Definition wrapString (s : gostring) (width : Z) : gostring :=
  if width <=? 0 then s
  else
    range (fun i char result =>
             let result := if (0 <? i) && (Z.rem i width =? 0)
                           then WriteRune result 10 else result in
             WriteRune result char)
          s [].

Definition removeNonBase64 (s : gostring) : gostring :=
  range (fun _ char result =>
           if isBase64Rune char then WriteRune result char else result)
        s [].


(* ================================================================= *)
(** ** encoding/base64: [StdEncoding] *)

Module base64.

(** The standard alphabet of RFC 4648. *)
Definition encodeStd : gostring :=
  str "ABCDEFGHIJKLMNOPQRSTUVWXYZabcdefghijklmnopqrstuvwxyz0123456789+/".

Definition StdPadding : byte := byte_of_Z 61.   (* '=' *)

(** [enc.encode[v]] *)
Definition encode (v : Z) : byte := nth (Z.to_nat v) encodeStd x00.

(** [enc.decodeMap]: 0xFF everywhere, then [decodeMap[encoder[i]] = i]. *)
Fixpoint index_of (c : byte) (l : list byte) (i : Z) : option Z :=
  match l with
  | [] => None
  | x :: l' => if byte_eqb x c then Some i else index_of c l' (i + 1)
  end.

Definition decodeMap (c : byte) : Z :=
  match index_of c encodeStd 0 with
  | Some i => i
  | None => 0xFF
  end.

(** [Encode], on the whole source: three bytes become four characters,
    and the one or two bytes that remain are padded with ['=']. *)
Fixpoint EncodeToString (src : list byte) : gostring :=
  match src with
  | [] => []
  | b0 :: b1 :: b2 :: rest =>
    let val := Z.lor (Z.lor (Z.shiftl (Z_of_byte b0) 16) (Z.shiftl (Z_of_byte b1) 8))
                     (Z_of_byte b2) in
    encode (Z.land (Z.shiftr val 18) 0x3F)
    :: encode (Z.land (Z.shiftr val 12) 0x3F)
    :: encode (Z.land (Z.shiftr val 6) 0x3F)
    :: encode (Z.land val 0x3F)
    :: EncodeToString rest
  | [b0; b1] =>
    let val := Z.lor (Z.shiftl (Z_of_byte b0) 16) (Z.shiftl (Z_of_byte b1) 8) in
    [encode (Z.land (Z.shiftr val 18) 0x3F);
     encode (Z.land (Z.shiftr val 12) 0x3F);
     encode (Z.land (Z.shiftr val 6) 0x3F);
     StdPadding]
  | [b0] =>
    let val := Z.shiftl (Z_of_byte b0) 16 in
    [encode (Z.land (Z.shiftr val 18) 0x3F);
     encode (Z.land (Z.shiftr val 12) 0x3F);
     StdPadding; StdPadding]
  end.

(** [CorruptInputError(n)]: illegal base64 data at input byte [n]. *)
Definition CorruptInputError := Z.

Definition isNewline (c : byte) : bool := byte_eqb c NL || byte_eqb c CR.

(** [for si < len(src) && (src[si] == '\n' || src[si] == '\r') { si++ }],
    on the rest of the source from [si] on. *)
Fixpoint skipNewlines (rest : list byte) (si : Z) : list byte * Z :=
  match rest with
  | c :: rest' => if isNewline c then skipNewlines rest' (si + 1) else (rest, si)
  | [] => (rest, si)
  end.

(** What [decodeQuantum] returns: the rest of the source and its index
    [nsi], the bytes written to [dst] (there are [n] of them) and the
    error. *)
Record quantum := {
  q_rest : list byte;
  q_nsi : Z;
  q_out : list byte;
  q_err : option CorruptInputError }.

(** The end of [decodeQuantum]: the [dlen] six-bit values of [dbuf]
    (the others are zero) become [dlen - 1] bytes.  [StdEncoding] is not
    strict, so the bits that are left over are not checked. *)
Definition assemble (dbuf : list Z) (dlen : nat) : list byte :=
  let val := Z.lor (Z.lor (Z.lor (Z.shiftl (nth 0 dbuf 0) 18)
                                 (Z.shiftl (nth 1 dbuf 0) 12))
                          (Z.shiftl (nth 2 dbuf 0) 6))
                   (nth 3 dbuf 0) in
  firstn (dlen - 1)
         [byte_of_Z (Z.shiftr val 16); byte_of_Z (Z.shiftr val 8); byte_of_Z val].

(** [decodeQuantum]: [rest] is [src[si:]], [len] is [len(src)], [dbuf]
    holds the [j] values read so far.  The loop
    [for j := 0; j < len(dbuf); j++] reads one character per iteration
    ([j--; continue] on a newline), so it is a recursion on [rest]. *)
Fixpoint decodeQuantum_from (len : Z) (rest : list byte) (si : Z)
         (j : nat) (dbuf : list Z) : quantum :=
  if (4 <=? j)%nat then
    {| q_rest := rest; q_nsi := si; q_out := assemble dbuf 4; q_err := None |}
  else
    match rest with
    | [] =>
      (* len(src) == si *)
      if (j =? 0)%nat then
        {| q_rest := rest; q_nsi := si; q_out := []; q_err := None |}
      else
        (* case j == 1, enc.padChar != NoPadding *)
        {| q_rest := rest; q_nsi := si; q_out := [];
           q_err := Some (si - Z.of_nat j) |}
    | in_ :: rest' =>
      let si := si + 1 in
      let out := decodeMap in_ in
      if negb (out =? 0xFF) then
        decodeQuantum_from len rest' si (S j) (dbuf ++ [out])
      else if isNewline in_ then
        decodeQuantum_from len rest' si j dbuf
      else if negb (byte_eqb in_ StdPadding) then
        {| q_rest := rest'; q_nsi := si; q_out := []; q_err := Some (si - 1) |}
      else
        (* We've reached the end and there's padding *)
        match j with
        | 0%nat | 1%nat =>
          (* incorrect padding *)
          {| q_rest := rest'; q_nsi := si; q_out := []; q_err := Some (si - 1) |}
        | _ =>
          let after (rest2 : list byte) (si2 : Z) : quantum :=
            (* skip over newlines; anything left is trailing garbage *)
            let '(rest3, si3) := skipNewlines rest2 si2 in
            {| q_rest := rest3; q_nsi := si3; q_out := assemble dbuf j;
               q_err := if si3 <? len then Some si3 else None |} in
          if (j =? 2)%nat then
            (* "==" is expected, the first "=" is already consumed *)
            let '(rest1, si1) := skipNewlines rest' si in
            match rest1 with
            | [] =>
              (* not enough padding *)
              {| q_rest := rest1; q_nsi := si1; q_out := []; q_err := Some len |}
            | c :: rest2 =>
              if negb (byte_eqb c StdPadding) then
                (* incorrect padding *)
                {| q_rest := rest1; q_nsi := si1; q_out := [];
                   q_err := Some (si1 - 1) |}
              else after rest2 (si1 + 1)
            end
          else after rest' si
        end
    end.

Definition decodeQuantum (len : Z) (rest : list byte) (si : Z) : quantum :=
  decodeQuantum_from len rest si 0 [].

(** [Decode]: [for si < len(src) { decodeQuantum ... }], stopping at the
    first error with the bytes decoded so far.  (The source first runs
    two loops that decode eight and four alphabet characters at a time
    with [assemble64] and [assemble32]; on such characters they write the
    bytes that [decodeQuantum] writes, and they hand every other group to
    [decodeQuantum].)  A call of [decodeQuantum] on a source that is not
    exhausted consumes at least one character, so [length src] iterations
    are enough. *)
Fixpoint Decode_from (fuel : nat) (len : Z) (rest : list byte) (si : Z)
         (dst : list byte) : list byte * option CorruptInputError :=
  match fuel with
  | O => (dst, None)
  | S fuel' =>
    match rest with
    | [] => (dst, None)
    | _ :: _ =>
      let q := decodeQuantum len rest si in
      let dst := dst ++ q_out q in
      match q_err q with
      | Some e => (dst, Some e)
      | None => Decode_from fuel' len (q_rest q) (q_nsi q) dst
      end
    end
  end.

(** [DecodeString]: the decoded bytes (partial on an error) and the error. *)
Definition DecodeString (s : gostring) : list byte * option CorruptInputError :=
  Decode_from (length s) (Z.of_nat (length s)) s 0 [].

End base64.


(* ================================================================= *)
(** ** unicode.IsSpace and strings.TrimSpace *)

Module unicode.

Definition MaxLatin1 : Z := 0xFF.

(** [IsSpace]: in Latin-1 the characters tab, line feed, vertical tab,
    form feed, carriage return, space, U+0085 and U+00A0; beyond it the
    code points of the property White_Space. *)
Definition IsSpace (r : Z) : bool :=
  if (0 <=? r) && (r <=? MaxLatin1) then
    (r =? 9) || (r =? 10) || (r =? 11) || (r =? 12) || (r =? 13)
    || (r =? 32) || (r =? 0x85) || (r =? 0xA0)
  else
    (r =? 0x1680) || ((0x2000 <=? r) && (r <=? 0x200A))
    || (r =? 0x2028) || (r =? 0x2029) || (r =? 0x202F)
    || (r =? 0x205F) || (r =? 0x3000).

End unicode.

Module strings.

(** [asciiSpace[c] == 1] *)
Definition asciiSpace (c : Z) : bool :=
  (c =? 9) || (c =? 10) || (c =? 11) || (c =? 12) || (c =? 13) || (c =? 32).

(** [indexFunc]: the offset of the first rune [r] with [f r = truth],
    or -1. *)
Fixpoint indexFunc_from (fuel : nat) (f : Z -> bool) (truth : bool)
         (i : Z) (s : gostring) : Z :=
  match fuel with
  | O => -1
  | S fuel' =>
    match s with
    | [] => -1
    | _ :: _ =>
      let '(r, size) := utf8.DecodeRuneInString s in
      if Bool.eqb (f r) truth then i
      else indexFunc_from fuel' f truth (i + Z.of_nat size) (skipn size s)
    end
  end.

Definition indexFunc (s : gostring) (f : Z -> bool) (truth : bool) : Z :=
  indexFunc_from (length s) f truth 0 s.

(** [lastIndexFunc]: [for i := len(s); i > 0; ] decoding the last rune of
    [s[0:i]]; the offset of the last rune [r] with [f r = truth], or -1. *)
Fixpoint lastIndexFunc_from (fuel : nat) (s : gostring) (f : Z -> bool)
         (truth : bool) (i : nat) : Z :=
  match fuel with
  | O => -1
  | S fuel' =>
    if (i =? 0)%nat then -1
    else
      let '(r, size) := utf8.DecodeLastRuneInString (firstn i s) in
      let i := (i - size)%nat in
      if Bool.eqb (f r) truth then Z.of_nat i
      else lastIndexFunc_from fuel' s f truth i
  end.

Definition lastIndexFunc (s : gostring) (f : Z -> bool) (truth : bool) : Z :=
  lastIndexFunc_from (length s) s f truth (length s).

Definition TrimLeftFunc (s : gostring) (f : Z -> bool) : gostring :=
  let i := indexFunc s f false in
  if i =? -1 then [] else skipn (Z.to_nat i) s.

Definition TrimRightFunc (s : gostring) (f : Z -> bool) : gostring :=
  let i := lastIndexFunc s f false in
  let i :=
    if (0 <=? i) && (utf8.RuneSelf <=? at_ s (Z.to_nat i)) then
      let '(_, wid) := utf8.DecodeRuneInString (skipn (Z.to_nat i) s) in
      i + Z.of_nat wid
    else i + 1 in
  firstn (Z.to_nat i) s.

Definition TrimFunc (s : gostring) (f : Z -> bool) : gostring :=
  TrimRightFunc (TrimLeftFunc s f) f.

(** The second loop of [TrimSpace], on [s[start:stop]] read from its end:
    [rs] is [s[start:stop]] reversed. *)
Fixpoint trimStop (rs : list byte) : gostring :=
  match rs with
  | [] => []
  | c :: rs' =>
    if utf8.RuneSelf <=? Z_of_byte c then
      TrimRightFunc (rev rs) unicode.IsSpace
    else if asciiSpace (Z_of_byte c) then trimStop rs'
    else rev rs
  end.

(** [TrimSpace]: the first loop walks over leading ASCII space and hands
    the string over to [TrimFunc] at the first byte that is not ASCII. *)
Fixpoint TrimSpace (s : gostring) : gostring :=
  match s with
  | [] => []
  | c :: s' =>
    if utf8.RuneSelf <=? Z_of_byte c then TrimFunc s unicode.IsSpace
    else if asciiSpace (Z_of_byte c) then TrimSpace s'
    else trimStop (rev s)
  end.

End strings.

(* ================================================================= *)
(** ** Errors, the cancellation signal and the effect monad *)

Inductive error : Type :=
| Canceled                       (* context.Canceled *)
| ReadError (msg : gostring)     (* an error of the input source, not io.EOF *)
| ErrNoProgress                  (* io.ErrNoProgress *)
| ErrTooLong                     (* bufio.ErrTooLong *)
| CorruptInput (n : Z)           (* base64.CorruptInputError *)
| WriteError (msg : gostring).   (* an error of the output sink *)

(** [strconv.FormatInt(n, 10)] *)
Definition FormatInt (n : Z) : gostring :=
  str (DecimalString.NilZero.string_of_int (Z.to_int n)).

(** [err.Error()] *)
Definition Error (e : error) : gostring :=
  match e with
  | Canceled => str "context canceled"
  | ReadError msg => msg
  | ErrNoProgress => str "multiple Read calls return no data or error"
  | ErrTooLong => str "bufio.Scanner: token too long"
  | CorruptInput n => str "illegal base64 data at input byte " ++ FormatInt n
  | WriteError msg => msg
  end.

(** The cancellation signal.  Time is counted in instants, one for every
    operation of the invocation that touches the outside (a poll of the
    signal, a read, a scan, a write).  [Background] is never cancelled;
    [WithCancel t] is cancelled from instant [t] on, and stays so. *)
Inductive Context : Type :=
| Background
| WithCancel (t : nat).

(** [ctx.Err()] at instant [now]. *)
Definition ctx_Err (ctx : Context) (now : nat) : option error :=
  match ctx with
  | Background => None
  | WithCancel t => if (t <=? now)%nat then Some Canceled else None
  end.

(** What an invocation does to the outside, one event per instant. *)
Inductive event : Type :=
| Poll                        (* the signal is inspected *)
| ReadCall                    (* reader.Read *)
| ScanCall                    (* scanner.Scan *)
| Stdout (p : list byte)      (* a write to the output sink *)
| Stderr (p : list byte).     (* a write to the error channel *)

(** The world of an invocation is the trace of its events so far, the
    oldest first; the instant of an event is its position. *)
Definition World := list event.

Definition start : World := [].

Definition now (w : World) : nat := length w.

(** All the bytes written to the output sink, and to the error channel. *)
Definition written (w : World) : list byte :=
  flat_map (fun e => match e with Stdout p => p | _ => [] end) w.

Definition diagnostics (w : World) : list byte :=
  flat_map (fun e => match e with Stderr p => p | _ => [] end) w.

Inductive result (A : Type) : Type :=
| Ok (a : A)
| Err (e : error).
Arguments Ok {A} a.
Arguments Err {A} e.

Definition M (A : Type) : Type := World -> result A * World.

Definition ret (A : Type) (a : A) : M A := fun w => (Ok a, w).
Definition fail (A : Type) (e : error) : M A := fun w => (Err e, w).
Definition bind (A B : Type) (m : M A) (k : A -> M B) : M B :=
  fun w => match m w with
           | (Ok a, w') => k a w'
           | (Err e, w') => (Err e, w')
           end.
Arguments fail {A} e.

Declare Scope monad_scope.
Delimit Scope monad_scope with monad.
Notation "x <- m ;; k" := (bind m (fun x => k))
  (at level 61, m at next level, right associativity) : monad_scope.
Notation "' pat <- m ;; k" := (bind m (fun x => match x with pat => k end))
  (at level 61, pat pattern, m at next level, right associativity) : monad_scope.
Local Open Scope monad_scope.

(** One event happens. *)
Definition emit (e : event) : M unit := fun w => (Ok tt, w ++ [e]).

(** Modelled from the spec: [yup.CheckContextCancellation] of the
    framework (section 4.3): inspect the signal; the cancellation error
    if it has been cancelled, no error and no effect otherwise. *)
Definition CheckContextCancellation (ctx : Context) : M (option error) :=
  fun w => (Ok (ctx_Err ctx (now w)), w ++ [Poll]).

(** [if err := yup.CheckContextCancellation(ctx); err != nil { return err }] *)
Definition check (ctx : Context) : M unit :=
  err <- CheckContextCancellation ctx ;;
  match err with
  | Some e => fail e
  | None => ret tt
  end.

(** [fmt.Fprintln(output, s)]: one write of [s] and a newline.  The
    callers drop what the sink returns. *)
Definition Fprintln (s : gostring) : M unit := emit (Stdout (s ++ [NL])).

(** [output.Write(p)] *)
Definition Write (p : list byte) : M unit := emit (Stdout p).

(** [fmt.Fprintf(stderr, "base64: %v\n", err)] *)
Definition Fprintf_stderr (err : error) : M unit :=
  emit (Stderr (str "base64: " ++ Error err ++ [NL])).

(* ================================================================= *)
(** ** io.Reader and bufio.Scanner *)

(** What a call of [Read] returns besides the bytes. *)
Inductive readerr : Type :=
| rnil                      (* nil *)
| EOF                       (* io.EOF *)
| rfail (msg : gostring).   (* any other error *)

(** An input source is given by what its successive [Read] calls return;
    once the list is exhausted, [Read] returns [0, io.EOF]. *)
Definition Reader := list (list byte * readerr).

(** A list cut into pieces of [size] elements; the last one may be
    shorter.  [length s] pieces are enough. *)
Fixpoint chunks (A : Type) (fuel : nat) (size : nat) (s : list A) : list (list A) :=
  match fuel with
  | O => []
  | S fuel' =>
    match s with
    | [] => []
    | _ :: _ => firstn size s :: chunks fuel' size (skipn size s)
    end
  end.

(** [strings.NewReader(s)] read with a buffer of [size] bytes. *)
Definition NewReader (size : nat) (s : gostring) : Reader :=
  map (fun c => (c, rnil)) (chunks (length s) size s).

Definition maxConsecutiveEmptyReads : nat := 100.
Definition MaxScanTokenSize : nat := 64 * 1024.

(** All that a scanner gets out of its reader: the bytes up to the end of
    the stream or the first error, and that error.  [loop] counts the
    reads in a row that brought neither data nor an error. *)
Fixpoint drain (r : Reader) (loop : nat) : list byte * option error :=
  match r with
  | [] => ([], None)
  | (data, rnil) :: r' =>
    match data with
    | [] =>
      if (maxConsecutiveEmptyReads <? S loop)%nat then ([], Some ErrNoProgress)
      else drain r' (S loop)
    | _ :: _ => let '(d, e) := drain r' 0 in (data ++ d, e)
    end
  | (data, EOF) :: _ => (data, None)
  | (data, rfail msg) :: _ => (data, Some (ReadError msg))
  end.

(** The scanner: the bytes not yet scanned, the error that ends them, the
    last token and the scanner's own error.  The buffer is not modelled:
    a line is too long when 64 KiB of it do not hold its line feed, as it
    is for a source that reports the end of its stream by a read of its
    own. *)
Record Scanner := {
  pending : list byte;
  src_err : option error;
  token : gostring;
  sc_err : option error }.

Definition NewScanner (r : Reader) : Scanner :=
  let '(d, e) := drain r 0 in
  {| pending := d; src_err := e; token := []; sc_err := None |}.

(** [dropCR]: drop one trailing carriage return. *)
Definition dropCR (data : list byte) : list byte :=
  match rev data with
  | c :: r => if byte_eqb c CR then rev r else data
  | [] => data
  end.

(** [bytes.IndexByte(data, '\n')] together with the two parts it cuts
    [data] into: the line and what follows the line feed. *)
Fixpoint cutLine (data : list byte) : option (list byte * list byte) :=
  match data with
  | [] => None
  | c :: data' =>
    if byte_eqb c NL then Some ([], data')
    else match cutLine data' with
         | Some (line, rest) => Some (c :: line, rest)
         | None => None
         end
  end.

(** [scanner.Scan()] with the split function [ScanLines]. *)
Definition Scan (s : Scanner) : bool * Scanner :=
  match sc_err s with
  | Some _ => (false, s)
  | None =>
    match pending s with
    | [] =>
      (false, {| pending := []; src_err := src_err s; token := [];
                 sc_err := src_err s |})
    | _ :: _ =>
      match cutLine (pending s) with
      | Some (line, rest) =>
        if (MaxScanTokenSize <=? length line)%nat then
          (false, {| pending := pending s; src_err := src_err s; token := [];
                     sc_err := Some ErrTooLong |})
        else
          (true, {| pending := rest; src_err := src_err s;
                    token := dropCR line; sc_err := None |})
      | None =>
        if (MaxScanTokenSize <=? length (pending s))%nat then
          (false, {| pending := pending s; src_err := src_err s; token := [];
                     sc_err := Some ErrTooLong |})
        else
          (true, {| pending := []; src_err := src_err s;
                    token := dropCR (pending s); sc_err := None |})
      end
    end
  end.

(** [scanner.Text()] and [scanner.Err()] *)
Definition Text (s : Scanner) : gostring := token s.
Definition Scanner_Err (s : Scanner) : option error := sc_err s.

(** Modelled from the spec: [yup.ScanWithContext] of the framework
    (section 4.2): before each line is consumed the signal is checked;
    nothing is scanned once it is cancelled. *)
Definition ScanWithContext (ctx : Context) (s : Scanner) : M (bool * Scanner) :=
  err <- CheckContextCancellation ctx ;;
  match err with
  | Some _ => ret (false, s)
  | None => _ <- emit ScanCall ;; ret (Scan s)
  end.

(* ================================================================= *)
(** ** The options and the command ([opt/opt.go]) *)

Record Flags := {
  Decode : bool;          (* Decode data (-d) *)
  IgnoreGarbage : bool;   (* Ignore non-alphabet characters when decoding (-i) *)
  Wrap : bool;            (* Wrap encoded lines *)
  WrapWidth : Z }.        (* Wrap width (-w) *)

(** The parameters of [Base64(parameters ...any)]: the four option types
    and the positional strings. *)
Inductive parameter : Type :=
| DecodeFlag (d : bool)
| IgnoreGarbageFlag (i : bool)
| WrapFlag (w : bool)
| WrapWidthOpt (w : Z)
| File (name : gostring).

(** The [Configure] methods. *)
Definition Configure (p : parameter) (flags : Flags) : Flags :=
  match p with
  | DecodeFlag d =>
    {| Decode := d; IgnoreGarbage := IgnoreGarbage flags;
       Wrap := Wrap flags; WrapWidth := WrapWidth flags |}
  | IgnoreGarbageFlag i =>
    {| Decode := Decode flags; IgnoreGarbage := i;
       Wrap := Wrap flags; WrapWidth := WrapWidth flags |}
  | WrapFlag w =>
    {| Decode := Decode flags; IgnoreGarbage := IgnoreGarbage flags;
       Wrap := w; WrapWidth := WrapWidth flags |}
  | WrapWidthOpt w =>
    {| Decode := Decode flags; IgnoreGarbage := IgnoreGarbage flags;
       Wrap := Wrap flags; WrapWidth := w |}
  | File _ => flags
  end.

(** The command; its field [Flags] is [flags] here, [Flags] being the
    type. *)
Record command := {
  Positional : list gostring;
  flags : Flags }.

(** Modelled from the spec: [opt.Args] of the framework (section 3: the
    configuration is created once from the parsed options): the options
    are applied in order to the zero value of [Flags], the strings are
    the positional arguments. *)
Definition Args (parameters : list parameter) : command :=
  fold_left
    (fun cmd p =>
       {| Positional := match p with
                        | File name => Positional cmd ++ [name]
                        | _ => Positional cmd
                        end;
          flags := Configure p (flags cmd) |})
    parameters
    {| Positional := [];
       flags := {| Decode := false; IgnoreGarbage := false;
                   Wrap := false; WrapWidth := 0 |} |}.

(** [Base64]: a wrap width of zero, set or not, becomes 76. *)
Definition Base64 (parameters : list parameter) : command :=
  let cmd := Args parameters in
  if WrapWidth (flags cmd) =? 0 then
    {| Positional := Positional cmd;
       flags := {| Decode := Decode (flags cmd);
                   IgnoreGarbage := IgnoreGarbage (flags cmd);
                   Wrap := Wrap (flags cmd);
                   WrapWidth := 76 |} |}
  else cmd.

(* ================================================================= *)
(** ** The cancellation-aware wrapper and filter *)

(** [for i, char := range s] with a body that may return an error. *)
Fixpoint rangeM_from (A : Type) (fuel : nat) (body : Z -> Z -> A -> M A)
         (i : Z) (s : gostring) (acc : A) : M A :=
  match fuel with
  | O => ret acc
  | S fuel' =>
    match s with
    | [] => ret acc
    | _ :: _ =>
      let '(r, size) := utf8.DecodeRuneInString s in
      acc' <- body i r acc ;;
      rangeM_from fuel' body (i + Z.of_nat size) (skipn size s) acc'
    end
  end.

Definition rangeM (A : Type) (body : Z -> Z -> A -> M A) (s : gostring) (acc : A) : M A :=
  rangeM_from (length s) body 0 s acc.

Definition wrapStringWithContext (ctx : Context) (s : gostring) (width : Z)
  : M gostring :=
  if width <=? 0 then ret s
  else
    rangeM (fun i char result =>
              (* Check for cancellation every 1000 characters *)
              _ <- (if Z.rem i 1000 =? 0 then check ctx else ret tt) ;;
              let result := if (0 <? i) && (Z.rem i width =? 0)
                            then WriteRune result 10 else result in
              ret (WriteRune result char))
           s [].

Definition removeNonBase64WithContext (ctx : Context) (s : gostring)
  : M gostring :=
  rangeM (fun i char result =>
            _ <- (if Z.rem i 1000 =? 0 then check ctx else ret tt) ;;
            ret (if isBase64Rune char then WriteRune result char else result))
         s [].

(* ================================================================= *)
(** ** The encoder and the decoder *)

(** [const chunkSize = 32 * 1024]: the size of the buffer that
    [encodeSource] reads into, so a read returns at most that many
    bytes. *)
Definition chunkSize : nat := 32 * 1024.

(** The read loop of [encodeSource]: the signal is checked before each
    read; the bytes of a read are kept before its error is looked at. *)
Fixpoint readAll (ctx : Context) (reader : Reader) (allData : list byte)
  : M (list byte) :=
  _ <- check ctx ;;
  _ <- emit ReadCall ;;   (* n, err := reader.Read(buf) *)
  match reader with
  | [] => ret allData
  | (data, err) :: reader' =>
    let allData := if (0 <? length data)%nat then allData ++ data else allData in
    match err with
    | EOF => ret allData
    | rfail msg => fail (ReadError msg)
    | rnil => readAll ctx reader' allData
    end
  end.

Definition encodeSource (c : command) (ctx : Context) (reader : Reader) : M unit :=
  (* Check for cancellation before starting *)
  _ <- check ctx ;;
  allData <- readAll ctx reader [] ;;
  let encoded := base64.EncodeToString allData in
  encoded <-
    (if (Wrap (flags c) || (0 <? WrapWidth (flags c))) && (0 <? WrapWidth (flags c))
     then wrapStringWithContext ctx encoded (WrapWidth (flags c))
     else ret encoded) ;;
  Fprintln encoded.

(** How [decodeSource] treats one line. *)
Definition cleanLine (c : command) (ctx : Context) (text : gostring) : M gostring :=
  let line := strings.TrimSpace text in
  if IgnoreGarbage (flags c) then removeNonBase64WithContext ctx line
  else ret line.

(** The scan loop of [decodeSource].  Every scan that succeeds takes at
    least one byte off the pending input, so one iteration more than
    there are pending bytes is enough. *)
Fixpoint scanLoop (c : command) (ctx : Context) (fuel : nat)
         (scanner : Scanner) (encodedData : Builder) : M (Scanner * Builder) :=
  match fuel with
  | O => ret (scanner, encodedData)
  | S fuel' =>
    '(ok, scanner) <- ScanWithContext ctx scanner ;;
    if ok : bool then
      line <- cleanLine c ctx (Text scanner) ;;
      scanLoop c ctx fuel' scanner (WriteString encodedData line)
    else ret (scanner, encodedData)
  end.

Definition decodeSource (c : command) (ctx : Context) (reader : Reader) : M unit :=
  (* Check for cancellation before starting *)
  _ <- check ctx ;;
  let scanner := NewScanner reader in
  '(scanner, encodedData) <-
    scanLoop c ctx (S (S (length (pending scanner)))) scanner [] ;;
  (* Check if context was cancelled *)
  _ <- check ctx ;;
  match Scanner_Err scanner with
  | Some err => _ <- Fprintf_stderr err ;; fail err
  | None =>
    let '(decoded, err) := base64.DecodeString encodedData in
    match err with
    | Some n => _ <- Fprintf_stderr (CorruptInput n) ;; fail (CorruptInput n)
    | None => Write decoded
    end
  end.

(** [Execute].  Modelled from the spec: the driver
    [yup.ProcessFilesWithContext] of the framework (section 2) calls the
    function once per input source; here it is called on standard
    input. *)
Definition Execute (c : command) (ctx : Context) (stdin : Reader) : M unit :=
  if Decode (flags c) then decodeSource c ctx stdin
  else encodeSource c ctx stdin.

(* ================================================================= *)
(** ** The line transform of [command.go] *)

(** The wrap loop of [Executor],
    [for i := 0; i < len(encoded); i += width]; [None] is the panic of a
    slice expression whose bounds are out of range. *)
Fixpoint wrapLoop (fuel : nat) (encoded : gostring) (width i : Z)
         (wrapped : Builder) : option Builder :=
  match fuel with
  | O => Some wrapped
  | S fuel' =>
    let len := Z.of_nat (length encoded) in
    if i <? len then
      let end_ := i + width in
      let end_ := if len <? end_ then len else end_ in
      if (i <? 0) || (end_ <? i) then None
      else
        let wrapped :=
          WriteString wrapped
            (firstn (Z.to_nat (end_ - i)) (skipn (Z.to_nat i) encoded)) in
        let wrapped := if end_ <? len then WriteString wrapped [NL] else wrapped in
        wrapLoop fuel' encoded width (i + width) wrapped
    else Some wrapped
  end.

(** The function that [Executor] hands to [gloo.LineTransform]: the line
    to put out, and whether there is one.  With a positive width the
    loop runs at most [len(encoded)] times, and with another width it
    stops at its first slice. *)
Definition Executor (p : command) (line : gostring) : option (gostring * bool) :=
  if Decode (flags p) then
    (* Decode mode *)
    let input := if negb (IgnoreGarbage (flags p))
                 then strings.TrimSpace line else line in
    let '(decoded, decodeErr) := base64.DecodeString input in
    match decodeErr with
    | Some _ => Some ([], false)
    | None => Some (decoded, true)
    end
  else
    (* Encode mode *)
    let encoded := base64.EncodeToString line in
    (* Handle wrapping *)
    if Wrap (flags p) then
      let width := WrapWidth (flags p) in
      let width := if width =? 0 then 76 else width in
      match wrapLoop (S (length encoded)) encoded width 0 [] with
      | Some wrapped => Some (wrapped, true)
      | None => None
      end
    else Some (encoded, true).


(* ================================================================= *)
(** * Notions of the specification *)

Unset Implicit Arguments.

(** A byte that the alphabet filter keeps: one of [A-Z], [a-z], [0-9],
    [+], [/], [=]. *)
Definition isBase64Byte (b : byte) : bool := isBase64Rune (Z_of_byte b).

(** Events that are all polls. *)
Definition polls (evs : list event) : Prop := Forall (fun e => e = Poll) evs.

(** Text in which every character is one byte. *)
Definition singleByte (s : gostring) : Prop :=
  Forall (fun b => Z_of_byte b < 0x80) s.

(** [strings.Join(lines, sep)] *)
Definition join (sep : gostring) (lines : list gostring) : gostring :=
  match lines with
  | [] => []
  | l :: ls => l ++ concat (map (fun x => sep ++ x) ls)
  end.

(** [s] cut into segments of [n] bytes; the last one may be shorter. *)
Definition segments (n : nat) (s : gostring) : list gostring :=
  chunks (length s) n s.

(** The characters of [s], each with its bytes: the bytes of the runes
    that [range] finds, one invalid byte being one character. *)
Fixpoint characters_from (fuel : nat) (s : gostring) : list gostring :=
  match fuel with
  | O => []
  | S fuel' =>
    match s with
    | [] => []
    | _ :: _ =>
      let '(_, size) := utf8.DecodeRuneInString s in
      firstn size s :: characters_from fuel' (skipn size s)
    end
  end.

Definition characters (s : gostring) : list gostring :=
  characters_from (length s) s.

(** The wrapper as the specification words it: a line feed after every
    [width] characters, none after the last segment. *)
Definition wrapByCharacters (s : gostring) (width : Z) : gostring :=
  if width <=? 0 then s
  else
    let cs := characters s in
    join [NL] (map (@concat byte) (chunks (length cs) (Z.to_nat width) cs)).

(** What the loop of [wrapString] appends for single-byte text read from
    offset [i] on. *)
Fixpoint breaks (width i : Z) (s : gostring) : gostring :=
  match s with
  | [] => []
  | b :: t =>
    (if (0 <? i) && (Z.rem i width =? 0) then [NL] else [])
      ++ b :: breaks width (i + 1) t
  end.

(** A character of the 64-character alphabet (not the padding). *)
Definition alphabetChar (c : byte) : bool := negb (base64.decodeMap c =? 0xFF).

Definition isNil {A : Type} (l : list A) : bool :=
  match l with [] => true | _ => false end.

(** Padded standard base64 as RFC 4648 has it: groups of four characters
    of the alphabet; the last group may end in one or two ['=']. *)
Fixpoint validPadded (t : gostring) : bool :=
  match t with
  | [] => true
  | a :: b :: c :: d :: rest =>
    alphabetChar a && alphabetChar b
    && ((alphabetChar c && alphabetChar d && validPadded rest)
        || (alphabetChar c && byte_eqb d base64.StdPadding && isNil rest)
        || (byte_eqb c base64.StdPadding && byte_eqb d base64.StdPadding
            && isNil rest))
  | _ => false
  end.

(** The text without its carriage returns and line feeds. *)
Definition stripNewlines (s : gostring) : gostring :=
  filter (fun c => negb (base64.isNewline c)) s.

(** A byte that the alphabet filter drops. *)
Definition junk (b : byte) : Prop := isBase64Byte b = false.

(** A visible ASCII character. *)
Definition visible (c : byte) : Prop :=
  Z_of_byte c < 0x80 /\ strings.asciiSpace (Z_of_byte c) = false.

(** Events that write nothing. *)
Definition quietEvent (e : event) : Prop :=
  match e with
  | Stdout _ | Stderr _ => False
  | _ => True
  end.

Definition quiet (evs : list event) : Prop := Forall quietEvent evs.

(** Some poll among the events [evs] that follow the world [w] finds the
    signal cancelled. *)
Definition observes (ctx : Context) (w : World) (evs : list event) : Prop :=
  exists n, nth_error evs n = Some Poll /\ ctx_Err ctx (now w + n) <> None.

(** A computation that writes nothing and fails with the cancellation
    error as soon as one of its polls finds the signal cancelled. *)
Definition strict (ctx : Context) {A : Type} (m : M A) : Prop :=
  forall w, exists evs,
    snd (m w) = w ++ evs /\ quiet evs
    /\ (observes ctx w evs -> fst (m w) = Err Canceled).




(** A computation that writes nothing and whose only error is the
    cancellation error. *)
Definition tame {A : Type} (m : M A) : Prop :=
  forall w, exists evs,
    snd (m w) = w ++ evs /\ quiet evs
    /\ (forall e, fst (m w) = Err e -> e = Canceled).

(** What the read loop of [encodeSource] gathers: the bytes up to the end
    of the stream or the first error, and that error. *)
Fixpoint slurp (r : Reader) : list byte * option gostring :=
  match r with
  | [] => ([], None)
  | (data, rnil) :: r' => let '(d, e) := slurp r' in (data ++ d, e)
  | (data, EOF) :: _ => (data, None)
  | (data, rfail msg) :: _ => (data, Some msg)
  end.

(** What a successful [encodeSource] writes for the bytes [data]. *)
Definition encoded (c : command) (data : list byte) : gostring :=
  (if 0 <? WrapWidth (flags c)
   then wrapString (base64.EncodeToString data) (WrapWidth (flags c))
   else base64.EncodeToString data) ++ [NL].

(** All the lines that a scanner delivers, and the scanner after that. *)
Fixpoint scanAll (fuel : nat) (s : Scanner) : list gostring * Scanner :=
  match fuel with
  | O => ([], s)
  | S fuel' =>
    let '(ok, s') := Scan s in
    if ok : bool then
      let '(lines, s'') := scanAll fuel' s' in (Text s' :: lines, s'')
    else ([], s')
  end.

(** What [decodeSource] makes of one line. *)
Definition cleaned (c : command) (text : gostring) : gostring :=
  if IgnoreGarbage (flags c) then removeNonBase64 (strings.TrimSpace text)
  else strings.TrimSpace text.

(** The lines of a source, the error of its scanner, and the text that
    [decodeSource] hands to the decoder. *)
Definition scanned (reader : Reader) : list gostring * Scanner :=
  let scanner := NewScanner reader in
  scanAll (S (S (length (pending scanner)))) scanner.

Definition scanError (reader : Reader) : option error :=
  Scanner_Err (snd (scanned reader)).

Definition processedText (c : command) (reader : Reader) : gostring :=
  concat (map (cleaned c) (fst (scanned reader))).

(** A character of encoded text: of the alphabet or the padding, hence
    visible ASCII and neither a line feed nor a carriage return. *)
Definition encodedChar (c : byte) : bool :=
  isBase64Byte c && (Z_of_byte c <? 0x80)
  && negb (strings.asciiSpace (Z_of_byte c))
  && negb (byte_eqb c NL) && negb (byte_eqb c CR).

(** A line of encoded text that the scanner can hold. *)
Definition scannable (l : gostring) : Prop :=
  Forall (fun c => encodedChar c = true) l /\ (length l < MaxScanTokenSize)%nat.

(** The lines of the encoder's output for the encoded text [e]. *)
Definition outputLines (width : Z) (e : gostring) : list gostring :=
  if 0 <? width then
    match segments (Z.to_nat width) e with
    | [] => [[]]
    | ls => ls
    end
  else [e].


(** The events [evs] that follow the world [w] end with the first poll
    that finds the signal cancelled. *)
Definition stoppedAt (ctx : Context) (w : World) (evs : list event) : Prop :=
  exists pre, evs = pre ++ [Poll] /\ ~ observes ctx w pre
              /\ ctx_Err ctx (now w + length pre) = Some Canceled.

(** A computation that writes nothing and either meets no poll that
    finds the signal cancelled, and then has the outcome [r], or stops
    with the cancellation error at the first poll that does. *)
Definition halts (ctx : Context) {A : Type} (m : M A) (r : result A) : Prop :=
  forall w, exists evs,
    snd (m w) = w ++ evs /\ quiet evs
    /\ ((fst (m w) = r /\ ~ observes ctx w evs)
        \/ (fst (m w) = Err Canceled /\ stoppedAt ctx w evs)).

(** ** Characters and white space *)





(** Does [s] begin, does it end, with a white-space character? *)
Definition leadingSpace (s : gostring) : bool :=
  unicode.IsSpace (fst (utf8.DecodeRuneInString s)).

Definition trailingSpace (s : gostring) : bool :=
  unicode.IsSpace (fst (utf8.DecodeLastRuneInString s)).


(* ================================================================= *)
(** * Proofs *)

(** ** Bytes *)

Lemma Z_of_byte_range (b : byte) : 0 <= Z_of_byte b < 256.
Proof.
  unfold Z_of_byte. pose proof (Byte.to_N_bounded b). lia.
Qed.

Lemma byte_of_Z_of_byte (b : byte) : byte_of_Z (Z_of_byte b) = b.
Proof.
  unfold byte_of_Z, Z_of_byte.
  pose proof (Byte.to_N_bounded b).
  rewrite Z.mod_small by lia.
  rewrite N2Z.id, Byte.of_to_N. reflexivity.
Qed.

Lemma Z_of_byte_of_Z (x : Z) : 0 <= x < 256 -> Z_of_byte (byte_of_Z x) = x.
Proof.
  intros Hx. unfold byte_of_Z, Z_of_byte.
  rewrite Z.mod_small by lia.
  destruct (Byte.of_N (Z.to_N x)) as [b|] eqn:E.
  - apply Byte.to_of_N in E. rewrite E. lia.
  - apply Byte.of_N_None_iff in E. lia.
Qed.


Lemma byte_eqb_eq (a b : byte) : byte_eqb a b = true <-> a = b.
Proof.
  unfold byte_eqb. split.
  - apply Byte.byte_dec_bl.
  - apply Byte.byte_dec_lb.
Qed.

Lemma byte_eqb_refl (a : byte) : byte_eqb a a = true.
Proof. now apply byte_eqb_eq. Qed.

Lemma byte_eqb_neq (a b : byte) : byte_eqb a b = false <-> a <> b.
Proof.
  rewrite <- byte_eqb_eq. destruct (byte_eqb a b); split; congruence.
Qed.

(** ** Bit operations as arithmetic *)

Lemma land_shiftl_low (hi lo k : Z) :
  0 <= k -> 0 <= lo < 2 ^ k -> Z.land (Z.shiftl hi k) lo = 0.
Proof.
  intros Hk Hlo. apply Z.bits_inj'. intros n Hn.
  rewrite Z.land_spec, Z.bits_0.
  destruct (Z.ltb_spec n k) as [Hlt|Hge].
  - rewrite Z.shiftl_spec_low by lia. reflexivity.
  - destruct (Z.eq_dec lo 0) as [->|Hnz].
    + rewrite Z.bits_0. apply andb_false_r.
    + rewrite (Z.bits_above_log2 lo n), andb_false_r; [reflexivity|lia|].
      assert (Z.log2 lo < k) by (apply Z.log2_lt_pow2; lia). lia.
Qed.

Lemma lor_shiftl_add (hi lo k : Z) :
  0 <= k -> 0 <= lo < 2 ^ k -> Z.lor (Z.shiftl hi k) lo = hi * 2 ^ k + lo.
Proof.
  intros Hk Hlo.
  rewrite <- Z.lxor_lor, <- Z.add_nocarry_lxor by (apply land_shiftl_low; lia).
  rewrite Z.shiftl_mul_pow2 by lia. reflexivity.
Qed.

Lemma land_mask (x k : Z) : 0 <= k -> Z.land x (2 ^ k - 1) = x mod 2 ^ k.
Proof.
  intros Hk. rewrite <- Z.land_ones by lia. f_equal.
  rewrite Z.ones_equiv. lia.
Qed.

Lemma land_0x3F x : Z.land x 0x3F = x mod 64.
Proof. exact (land_mask x 6 ltac:(lia)). Qed.
Lemma land_0x1F x : Z.land x 0x1F = x mod 32.
Proof. exact (land_mask x 5 ltac:(lia)). Qed.
Lemma land_0x0F x : Z.land x 0x0F = x mod 16.
Proof. exact (land_mask x 4 ltac:(lia)). Qed.
Lemma land_0x07 x : Z.land x 0x07 = x mod 8.
Proof. exact (land_mask x 3 ltac:(lia)). Qed.

Lemma lor_ge_shiftl (hi lo k : Z) :
  0 <= k -> 0 <= lo < 2 ^ k -> hi * 2 ^ k <= Z.lor (Z.shiftl hi k) lo.
Proof. intros. rewrite lor_shiftl_add by lia. lia. Qed.

(** ** Decoding a rune *)

Lemma isBase64Rune_ascii r : isBase64Rune r = true -> 0 <= r < 0x80.
Proof. unfold isBase64Rune. lia. Qed.

Lemma DecodeRune_ascii (b0 : byte) (t : gostring) :
  Z_of_byte b0 < 0x80 ->
  utf8.DecodeRuneInString (b0 :: t) = (Z_of_byte b0, 1%nat).
Proof.
  intros H. unfold utf8.DecodeRuneInString, utf8.first.
  pose proof (Z_of_byte_range b0).
  destruct (Z.ltb_spec (Z_of_byte b0) 128); [|lia].
  reflexivity.
Qed.

Lemma lor_ge_l (a b : Z) : 0 <= a -> 0 <= b -> a <= Z.lor a b.
Proof.
  intros Ha Hb.
  assert (E : Z.lor a b = a + Z.ldiff b a).
  { rewrite Z.add_nocarry_lxor.
    - apply Z.bits_inj'. intros n Hn.
      rewrite Z.lor_spec, Z.lxor_spec, Z.ldiff_spec.
      destruct (Z.testbit a n), (Z.testbit b n); reflexivity.
    - apply Z.bits_inj'. intros n Hn.
      rewrite Z.land_spec, Z.ldiff_spec, Z.bits_0.
      destruct (Z.testbit a n), (Z.testbit b n); reflexivity. }
  rewrite E. assert (0 <= Z.ldiff b a) by (apply Z.ldiff_nonneg; lia). lia.
Qed.

Lemma lor_ge_r (a b : Z) : 0 <= a -> 0 <= b -> b <= Z.lor a b.
Proof. intros. rewrite Z.lor_comm. now apply lor_ge_l. Qed.

Ltac fix_first x sz l h :=
  change (Z.to_nat (Z.land x 7)) with sz;
  change (utf8.acceptRanges (Z.shiftr x 4)) with {| utf8.lo := l; utf8.hi := h |};
  change (utf8.as_ <=? x) with false;
  cbn [utf8.lo utf8.hi Nat.leb Nat.ltb length at_ nth]; cbv iota.

Ltac mask_arith :=
  unfold utf8.locb, utf8.hicb, utf8.mask2, utf8.mask3, utf8.mask4, utf8.maskx,
         utf8.RuneError in *;
  rewrite ?land_0x1F, ?land_0x3F, ?land_0x0F, ?land_0x07;
  rewrite ?Z.shiftl_mul_pow2 by lia.

Lemma lor_ge_128 (a b : Z) :
  0 <= a -> 0 <= b -> 128 <= a \/ 128 <= b -> 128 <= Z.lor a b.
Proof.
  intros Ha Hb H.
  pose proof (lor_ge_l a b Ha Hb). pose proof (lor_ge_r a b Ha Hb). lia.
Qed.

(** A rune that does not start with an ASCII byte is [RuneError] of
    width one, or a rune beyond ASCII whose bytes are all beyond ASCII. *)
Lemma DecodeRune_high (b0 : byte) (t : gostring) :
  0x80 <= Z_of_byte b0 ->
  let '(r, size) := utf8.DecodeRuneInString (b0 :: t) in
  (1 <= size <= length (b0 :: t))%nat /\ 0x80 <= r /\
  Forall (fun b => 0x80 <= Z_of_byte b) (firstn size (b0 :: t)).
Proof.
  intros H.
  pose proof (Z_of_byte_range b0) as R0.
  unfold utf8.DecodeRuneInString.
  set (s0 := Z_of_byte b0) in *.
  assert (Hbad : (1 <= 1 <= length (b0 :: t))%nat /\ 128 <= utf8.RuneError /\
            Forall (fun b => 128 <= Z_of_byte b) (firstn 1 (b0 :: t))).
  { simpl. repeat split; try lia. unfold utf8.RuneError; lia. constructor; auto. }
  assert (Two : forall l h, 128 <= l ->
    194 <= s0 < 224 ->
    let '(r, size) :=
      match t with
      | [] => (utf8.RuneError, 1%nat)
      | b1 :: _ =>
        if (Z_of_byte b1 <? l) || (h <? Z_of_byte b1) then (utf8.RuneError, 1%nat)
        else (Z.lor (Z.shiftl (Z.land s0 utf8.mask2) 6)
                    (Z.land (Z_of_byte b1) utf8.maskx), 2%nat)
      end in
    (1 <= size <= length (b0 :: t))%nat /\ 128 <= r /\
    Forall (fun b => 128 <= Z_of_byte b) (firstn size (b0 :: t))).
  { intros l h Hl Hs. destruct t as [|b1 t']; [exact Hbad|].
    pose proof (Z_of_byte_range b1) as R1.
    destruct (Z.ltb_spec (Z_of_byte b1) l); [exact Hbad|].
    destruct (Z.ltb_spec h (Z_of_byte b1)); [exact Hbad|].
    cbn [orb firstn length]. repeat split; try lia.
    - mask_arith. apply lor_ge_128; Z.div_mod_to_equations; lia.
    - repeat constructor; fold s0; lia. }
  assert (Three : forall l h, 128 <= l -> h <= 191 ->
    (224 < s0 \/ 160 <= l) -> 224 <= s0 < 240 ->
    let '(r, size) :=
      match t with
      | b1 :: b2 :: _ =>
        if (Z_of_byte b1 <? l) || (h <? Z_of_byte b1) then (utf8.RuneError, 1%nat)
        else if (Z_of_byte b2 <? utf8.locb) || (utf8.hicb <? Z_of_byte b2)
             then (utf8.RuneError, 1%nat)
        else (Z.lor (Z.lor (Z.shiftl (Z.land s0 utf8.mask3) 12)
                           (Z.shiftl (Z.land (Z_of_byte b1) utf8.maskx) 6))
                    (Z.land (Z_of_byte b2) utf8.maskx), 3%nat)
      | _ => (utf8.RuneError, 1%nat)
      end in
    (1 <= size <= length (b0 :: t))%nat /\ 128 <= r /\
    Forall (fun b => 128 <= Z_of_byte b) (firstn size (b0 :: t))).
  { intros l h Hl Hh Hs Hs'. destruct t as [|b1 [|b2 t']]; try exact Hbad.
    pose proof (Z_of_byte_range b1) as R1.
    pose proof (Z_of_byte_range b2) as R2.
    destruct (Z.ltb_spec (Z_of_byte b1) l); [exact Hbad|].
    destruct (Z.ltb_spec h (Z_of_byte b1)); [exact Hbad|].
    destruct (Z.ltb_spec (Z_of_byte b2) utf8.locb); [exact Hbad|].
    destruct (Z.ltb_spec utf8.hicb (Z_of_byte b2)); [exact Hbad|].
    cbn [orb firstn length]. repeat split; try lia.
    - mask_arith.
      apply lor_ge_128; [apply Z.lor_nonneg| |left; apply lor_ge_128];
        Z.div_mod_to_equations; lia.
    - repeat constructor; fold s0; unfold utf8.locb in *; lia. }
  assert (Four : forall l h, 128 <= l -> h <= 191 ->
    (240 < s0 \/ 144 <= l) -> 240 <= s0 < 248 ->
    let '(r, size) :=
      match t with
      | b1 :: b2 :: b3 :: _ =>
        if (Z_of_byte b1 <? l) || (h <? Z_of_byte b1) then (utf8.RuneError, 1%nat)
        else if (Z_of_byte b2 <? utf8.locb) || (utf8.hicb <? Z_of_byte b2)
             then (utf8.RuneError, 1%nat)
        else if (Z_of_byte b3 <? utf8.locb) || (utf8.hicb <? Z_of_byte b3)
             then (utf8.RuneError, 1%nat)
        else (Z.lor (Z.lor (Z.lor (Z.shiftl (Z.land s0 utf8.mask4) 18)
                                  (Z.shiftl (Z.land (Z_of_byte b1) utf8.maskx) 12))
                           (Z.shiftl (Z.land (Z_of_byte b2) utf8.maskx) 6))
                    (Z.land (Z_of_byte b3) utf8.maskx), 4%nat)
      | _ => (utf8.RuneError, 1%nat)
      end in
    (1 <= size <= length (b0 :: t))%nat /\ 128 <= r /\
    Forall (fun b => 128 <= Z_of_byte b) (firstn size (b0 :: t))).
  { intros l h Hl Hh Hs Hs'. destruct t as [|b1 [|b2 [|b3 t']]]; try exact Hbad.
    pose proof (Z_of_byte_range b1) as R1.
    pose proof (Z_of_byte_range b2) as R2.
    pose proof (Z_of_byte_range b3) as R3.
    destruct (Z.ltb_spec (Z_of_byte b1) l); [exact Hbad|].
    destruct (Z.ltb_spec h (Z_of_byte b1)); [exact Hbad|].
    destruct (Z.ltb_spec (Z_of_byte b2) utf8.locb); [exact Hbad|].
    destruct (Z.ltb_spec utf8.hicb (Z_of_byte b2)); [exact Hbad|].
    destruct (Z.ltb_spec (Z_of_byte b3) utf8.locb); [exact Hbad|].
    destruct (Z.ltb_spec utf8.hicb (Z_of_byte b3)); [exact Hbad|].
    cbn [orb firstn length]. repeat split; try lia.
    - mask_arith.
      apply lor_ge_128;
        [apply Z.lor_nonneg; split; [apply Z.lor_nonneg|]| |
         left; apply lor_ge_128; [apply Z.lor_nonneg| |left; apply lor_ge_128]];
        Z.div_mod_to_equations; lia.
    - repeat constructor; fold s0; unfold utf8.locb in *; lia. }
  unfold utf8.first.
  destruct (Z.ltb_spec s0 128); [lia|].
  destruct (Z.ltb_spec s0 194). { cbn. exact Hbad. }
  destruct (Z.ltb_spec s0 224).
  { fix_first utf8.s1 2%nat utf8.locb utf8.hicb.
    specialize (Two utf8.locb utf8.hicb).
    destruct t as [|b1 t']; fix_first utf8.s1 2%nat utf8.locb utf8.hicb;
      apply Two; unfold utf8.locb; lia. }
  destruct (Z.eqb_spec s0 224).
  { fix_first utf8.s2 3%nat 0xA0 utf8.hicb.
    specialize (Three 0xA0 utf8.hicb).
    destruct t as [|b1 [|b2 t']]; fix_first utf8.s2 3%nat 0xA0 utf8.hicb;
      apply Three; unfold utf8.hicb; lia. }
  destruct (Z.ltb_spec s0 237).
  { fix_first utf8.s3 3%nat utf8.locb utf8.hicb.
    specialize (Three utf8.locb utf8.hicb).
    destruct t as [|b1 [|b2 t']]; fix_first utf8.s3 3%nat utf8.locb utf8.hicb;
      apply Three; unfold utf8.locb, utf8.hicb; lia. }
  destruct (Z.eqb_spec s0 237).
  { fix_first utf8.s4 3%nat utf8.locb 0x9F.
    specialize (Three utf8.locb 0x9F).
    destruct t as [|b1 [|b2 t']]; fix_first utf8.s4 3%nat utf8.locb 0x9F;
      apply Three; unfold utf8.locb, utf8.hicb; lia. }
  destruct (Z.ltb_spec s0 240).
  { fix_first utf8.s3 3%nat utf8.locb utf8.hicb.
    specialize (Three utf8.locb utf8.hicb).
    destruct t as [|b1 [|b2 t']]; fix_first utf8.s3 3%nat utf8.locb utf8.hicb;
      apply Three; unfold utf8.locb, utf8.hicb; lia. }
  destruct (Z.eqb_spec s0 240).
  { fix_first utf8.s5 4%nat 0x90 utf8.hicb.
    specialize (Four 0x90 utf8.hicb).
    destruct t as [|b1 [|b2 [|b3 t']]]; fix_first utf8.s5 4%nat 0x90 utf8.hicb;
      apply Four; unfold utf8.hicb; lia. }
  destruct (Z.ltb_spec s0 244).
  { fix_first utf8.s6 4%nat utf8.locb utf8.hicb.
    specialize (Four utf8.locb utf8.hicb).
    destruct t as [|b1 [|b2 [|b3 t']]]; fix_first utf8.s6 4%nat utf8.locb utf8.hicb;
      apply Four; unfold utf8.locb, utf8.hicb; lia. }
  destruct (Z.eqb_spec s0 244).
  { fix_first utf8.s7 4%nat utf8.locb 0x8F.
    specialize (Four utf8.locb 0x8F).
    destruct t as [|b1 [|b2 [|b3 t']]]; fix_first utf8.s7 4%nat utf8.locb 0x8F;
      apply Four; unfold utf8.locb, utf8.hicb; lia. }
  cbn. exact Hbad.
Qed.

Lemma DecodeRune_size (b0 : byte) (t : gostring) :
  (1 <= snd (utf8.DecodeRuneInString (b0 :: t)) <= length (b0 :: t))%nat.
Proof.
  destruct (Z.lt_ge_cases (Z_of_byte b0) 0x80) as [Hlo|Hhi].
  - rewrite DecodeRune_ascii by assumption. simpl. lia.
  - pose proof (DecodeRune_high b0 t Hhi) as H.
    destruct (utf8.DecodeRuneInString (b0 :: t)) as [r size].
    destruct H as (Hs & _). cbn [snd]. exact Hs.
Qed.

Lemma WriteRune_ascii (acc : Builder) (r : Z) :
  0 <= r < 0x80 -> WriteRune acc r = acc ++ [byte_of_Z r].
Proof.
  intros H. unfold WriteRune, utf8.AppendRune, utf8.rune1Max.
  destruct (Z.leb_spec 0 r); [|lia].
  destruct (Z.leb_spec r 127); [|lia]. reflexivity.
Qed.

Lemma high_not_base64 (b : byte) : 0x80 <= Z_of_byte b -> isBase64Byte b = false.
Proof. unfold isBase64Byte, isBase64Rune. lia. Qed.

Lemma filter_high (l : list byte) :
  Forall (fun b => 0x80 <= Z_of_byte b) l -> filter isBase64Byte l = [].
Proof.
  induction 1 as [|b l Hb Hl IH]; simpl; [reflexivity|].
  now rewrite high_not_base64.
Qed.

(** ** The alphabet filter keeps exactly the alphabet bytes *)

Lemma removeNonBase64_from (fuel : nat) :
  forall (s : gostring) (i : Z) (acc : Builder),
    (length s <= fuel)%nat ->
    range_from fuel
      (fun _ char result =>
         if isBase64Rune char then WriteRune result char else result)
      i s acc
    = acc ++ filter isBase64Byte s.
Proof.
  induction fuel as [|fuel IH]; intros s i acc Hlen.
  - destruct s; [|simpl in Hlen; lia]. simpl. now rewrite app_nil_r.
  - destruct s as [|b0 t]; [simpl; now rewrite app_nil_r|].
    cbn [range_from].
    destruct (Z.lt_ge_cases (Z_of_byte b0) 0x80) as [Hlo|Hhi].
    + rewrite DecodeRune_ascii by assumption.
      cbn [skipn filter]. rewrite IH by (simpl in Hlen; lia).
      unfold isBase64Byte.
      destruct (isBase64Rune (Z_of_byte b0)) eqn:E.
      * pose proof (Z_of_byte_range b0).
        rewrite WriteRune_ascii by lia.
        rewrite byte_of_Z_of_byte, <- app_assoc. reflexivity.
      * reflexivity.
    + pose proof (DecodeRune_high b0 t Hhi) as H.
      destruct (utf8.DecodeRuneInString (b0 :: t)) as [r size].
      destruct H as (Hsize & Hr & Hall).
      assert (E : isBase64Rune r = false) by (unfold isBase64Rune; lia).
      rewrite E.
      rewrite IH by (rewrite length_skipn; lia).
      rewrite <- (firstn_skipn size (b0 :: t)) at 2.
      rewrite filter_app, (filter_high _ Hall). reflexivity.
Qed.

Lemma removeNonBase64_filter (s : gostring) :
  removeNonBase64 s = filter isBase64Byte s.
Proof.
  unfold removeNonBase64, range. now rewrite removeNonBase64_from.
Qed.

Lemma filter_all (A : Type) (f : A -> bool) (l : list A) :
  Forall (fun x => f x = true) l -> filter f l = l.
Proof.
  induction 1 as [|x l Hx Hl IH]; simpl; [reflexivity|].
  now rewrite Hx, IH.
Qed.

(** ** The cancellation-aware variants refine the pure functions *)

Lemma check_Background w : check Background w = (Ok tt, w ++ [Poll]).
Proof. reflexivity. Qed.

(** A loop whose body only polls a signal that never fires computes what
    the pure loop computes and only lets time pass. *)
Lemma rangeM_pure (A : Type) (bodyM : Z -> Z -> A -> M A) (body : Z -> Z -> A -> A) :
  (forall i r acc w, exists evs,
      polls evs /\ bodyM i r acc w = (Ok (body i r acc), w ++ evs)) ->
  forall fuel i s acc w,
    exists evs, polls evs /\
      rangeM_from fuel bodyM i s acc w
      = (Ok (range_from fuel body i s acc), w ++ evs).
Proof.
  intros Hbody. induction fuel as [|fuel IH]; intros i s acc w.
  - exists []. split; [constructor|]. cbn. unfold ret. now rewrite app_nil_r.
  - destruct s as [|b0 t].
    + exists []. split; [constructor|]. cbn. unfold ret. now rewrite app_nil_r.
    + cbn [rangeM_from range_from].
      destruct (utf8.DecodeRuneInString (b0 :: t)) as [r size].
      unfold bind. destruct (Hbody i r acc w) as (e1 & P1 & ->).
      destruct (IH (i + Z.of_nat size) (skipn size (b0 :: t)) (body i r acc) (w ++ e1))
        as (e2 & P2 & ->).
      exists (e1 ++ e2). split; [now apply Forall_app|].
      now rewrite app_assoc.
Qed.

Lemma poll_Background (i : Z) (w : World) :
  exists evs, polls evs /\
    (if Z.rem i 1000 =? 0 then check Background else ret tt) w
    = (Ok tt, w ++ evs).
Proof.
  destruct (Z.rem i 1000 =? 0).
  - exists [Poll]. split; [repeat constructor|]. apply check_Background.
  - exists []. split; [constructor|]. unfold ret. now rewrite app_nil_r.
Qed.

Lemma wrapStringWithContext_Background (s : gostring) (width : Z) (w : World) :
  exists evs, polls evs /\
    wrapStringWithContext Background s width w
    = (Ok (wrapString s width), w ++ evs).
Proof.
  unfold wrapStringWithContext, wrapString.
  destruct (width <=? 0).
  - exists []. split; [constructor|]. unfold ret. now rewrite app_nil_r.
  - unfold rangeM, range. apply rangeM_pure.
    intros i r acc w0. unfold bind.
    destruct (poll_Background i w0) as (evs & P & ->). exists evs. auto.
Qed.

Lemma removeNonBase64WithContext_Background (s : gostring) (w : World) :
  exists evs, polls evs /\
    removeNonBase64WithContext Background s w
    = (Ok (removeNonBase64 s), w ++ evs).
Proof.
  unfold removeNonBase64WithContext, removeNonBase64, rangeM, range.
  apply rangeM_pure.
  intros i r acc w0. unfold bind.
  destruct (poll_Background i w0) as (evs & P & ->). exists evs. auto.
Qed.

(** ** The line wrapper on single-byte text *)

Lemma wrap_from_singleByte (width : Z) (fuel : nat) :
  forall (s : gostring) (i : Z) (acc : Builder),
    (length s <= fuel)%nat -> singleByte s ->
    range_from fuel
      (fun i char result =>
         let result := if (0 <? i) && (Z.rem i width =? 0)
                       then WriteRune result 10 else result in
         WriteRune result char)
      i s acc
    = acc ++ breaks width i s.
Proof.
  induction fuel as [|fuel IH]; intros s i acc Hlen Hs.
  - destruct s; [|simpl in Hlen; lia]. simpl. now rewrite app_nil_r.
  - destruct s as [|b0 t]; [simpl; now rewrite app_nil_r|].
    inversion Hs as [|? ? Hb Ht]; subst.
    cbn [range_from]. rewrite DecodeRune_ascii by assumption.
    cbn [skipn breaks]. rewrite IH by (simpl in Hlen; auto; lia).
    pose proof (Z_of_byte_range b0).
    destruct ((0 <? i) && (Z.rem i width =? 0)).
    + rewrite (WriteRune_ascii acc 10) by lia.
      rewrite WriteRune_ascii by lia.
      rewrite byte_of_Z_of_byte, <- !app_assoc. reflexivity.
    + rewrite WriteRune_ascii by lia.
      rewrite byte_of_Z_of_byte, <- !app_assoc. reflexivity.
Qed.

Lemma wrapString_singleByte (s : gostring) (width : Z) :
  0 < width -> singleByte s -> wrapString s width = breaks width 0 s.
Proof.
  intros Hw Hs. unfold wrapString.
  destruct (Z.leb_spec width 0); [lia|].
  unfold range. now rewrite wrap_from_singleByte.
Qed.

Lemma rem_col (q c W : Z) :
  0 <= q -> 0 <= c < W -> Z.rem (q * W + c) W = c.
Proof.
  intros Hq Hc. rewrite Z.rem_mod_nonneg by nia.
  rewrite Z.add_comm, Z.mod_add by lia. apply Z.mod_small. lia.
Qed.

(** Inside a line nothing is inserted. *)
Lemma breaks_run (W q : Z) (p : gostring) :
  forall (c : Z) (rest : gostring),
    0 <= q -> 0 < c -> c + Z.of_nat (length p) <= W ->
    breaks W (q * W + c) (p ++ rest)
    = p ++ breaks W (q * W + c + Z.of_nat (length p)) rest.
Proof.
  induction p as [|b p IH]; intros c rest Hq Hc Hlen.
  - cbn [app length Z.of_nat]. now rewrite Z.add_0_r.
  - cbn [app breaks length] in *.
    rewrite rem_col by lia.
    destruct (Z.eqb_spec c 0); [lia|].
    rewrite andb_false_r. cbn [app].
    replace (q * W + c + 1) with (q * W + (c + 1)) by lia.
    rewrite IH by lia.
    replace (q * W + (c + 1) + Z.of_nat (length p))
      with (q * W + c + Z.of_nat (S (length p))) by lia.
    reflexivity.
Qed.

Lemma chunks_cons (fuel n : nat) (b : byte) (t : gostring) :
  chunks (S fuel) n (b :: t) = firstn n (b :: t) :: chunks fuel n (skipn n (b :: t)).
Proof. reflexivity. Qed.

Lemma chunks_fuel (n : nat) :
  (0 < n)%nat ->
  forall fuel1 fuel2 (s : gostring),
    (length s <= fuel1)%nat -> (length s <= fuel2)%nat ->
    chunks fuel1 n s = chunks fuel2 n s.
Proof.
  intros Hn. induction fuel1 as [|fuel1 IH]; intros fuel2 s H1 H2.
  - destruct s; [|simpl in H1; lia]. destruct fuel2; reflexivity.
  - destruct s as [|b t]; [destruct fuel2; reflexivity|].
    destruct fuel2 as [|fuel2]; [simpl in H2; lia|].
    rewrite !chunks_cons. f_equal.
    cbn [length] in *.
    apply IH; rewrite length_skipn; cbn [length]; lia.
Qed.

Lemma segments_nil (n : nat) : segments n [] = [].
Proof. reflexivity. Qed.

Lemma segments_cons (n : nat) (b : byte) (t : gostring) :
  (0 < n)%nat ->
  segments n (b :: t) = firstn n (b :: t) :: segments n (skipn n (b :: t)).
Proof.
  intros Hn. unfold segments. cbn [length]. rewrite chunks_cons. f_equal.
  apply chunks_fuel; [assumption| |lia].
  rewrite length_skipn. cbn [length]. lia.
Qed.

(** An induction principle that follows [segments]. *)
Lemma segments_ind (n : nat) (Hn : (0 < n)%nat) (P : gostring -> Prop) :
  P [] ->
  (forall b t, P (skipn n (b :: t)) -> P (b :: t)) ->
  forall s, P s.
Proof.
  intros Hnil Hcons.
  assert (H : forall k s, (length s <= k)%nat -> P s).
  { induction k as [|k IH]; intros s Hk.
    - destruct s; [assumption|simpl in Hk; lia].
    - destruct s as [|b t]; [assumption|].
      apply Hcons, IH. rewrite length_skipn. cbn [length] in *. lia. }
  intros s. now apply (H (length s)).
Qed.

(** At the start of a line that is not the first, the line feed comes
    first. *)
Lemma breaks_segments (W : Z) (s : gostring) :
  0 < W ->
  forall q, 0 <= q ->
    breaks W (q * W) s
    = if 0 <? q then concat (map (fun x => [NL] ++ x) (segments (Z.to_nat W) s))
      else join [NL] (segments (Z.to_nat W) s).
Proof.
  intros HW.
  assert (Hn : (0 < Z.to_nat W)%nat) by lia.
  induction s as [|b t IH] using (segments_ind (Z.to_nat W) Hn); intros q Hq.
  - rewrite segments_nil. cbn. now destruct (0 <? q).
  - rewrite segments_cons by lia.
    set (n := Z.to_nat W) in *.
    destruct n as [|n'] eqn:En; [lia|].
    cbn [firstn skipn] in *.
    cbn [breaks].
    replace (Z.rem (q * W) W) with 0
      by (symmetry; replace (q * W) with (q * W + 0) by lia; apply rem_col; lia).
    rewrite Z.eqb_refl, andb_true_r.
    replace (0 <? q * W) with (0 <? q)
      by (destruct (Z.ltb_spec 0 q), (Z.ltb_spec 0 (q * W)); auto; nia).
    rewrite <- (firstn_skipn n' t) at 1.
    pose proof (length_firstn n' t) as Hf.
    rewrite (breaks_run W q (firstn n' t) 1) by lia.
    destruct (skipn n' t) as [|b' t'] eqn:Esk.
    + rewrite segments_nil. cbn [breaks map concat join].
      rewrite !app_nil_r. destruct (0 <? q); reflexivity.
    + assert (Hlen : length (firstn n' t) = n').
      { rewrite length_firstn. 
        assert (length (skipn n' t) = S (length t')) by now rewrite Esk.
        rewrite length_skipn in *. lia. }
      replace (q * W + 1 + Z.of_nat (length (firstn n' t))) with ((q + 1) * W) by nia.
      rewrite IH by lia.
      destruct (Z.ltb_spec 0 (q + 1)); [|lia].
      destruct (0 <? q); cbn [join map concat app]; rewrite <- ?app_assoc;
        reflexivity.
Qed.

Lemma concat_segments (n : nat) (s : gostring) :
  (0 < n)%nat -> concat (segments n s) = s.
Proof.
  intros Hn. induction s as [|b t IH] using (segments_ind n Hn).
  - reflexivity.
  - rewrite segments_cons by assumption. cbn [concat].
    rewrite IH. apply firstn_skipn.
Qed.

(** Every segment has between one and [n] bytes. *)
Lemma segments_lengths (n : nat) (s : gostring) :
  (0 < n)%nat ->
  Forall (fun l => (1 <= length l <= n)%nat) (segments n s).
Proof.
  intros Hn. induction s as [|b t IH] using (segments_ind n Hn).
  - constructor.
  - rewrite segments_cons by assumption. constructor; [|exact IH].
    rewrite length_firstn. simpl. lia.
Qed.

(** Every segment but the last has exactly [n] bytes. *)
Lemma segments_full (n : nat) (s : gostring) :
  (0 < n)%nat ->
  Forall (fun l => length l = n) (removelast (segments n s)).
Proof.
  intros Hn. induction s as [|b t IH] using (segments_ind n Hn).
  - constructor.
  - rewrite segments_cons by assumption.
    destruct (skipn n (b :: t)) as [|b' t'] eqn:Esk.
    + rewrite segments_nil. constructor.
    + rewrite segments_cons in * by assumption.
      cbn [removelast] in *. constructor; [|exact IH].
      rewrite length_firstn.
      assert (length (skipn n (b :: t)) = S (length t')) by now rewrite Esk.
      rewrite length_skipn in *. lia.
Qed.

(** ** The base64 alphabet *)

Lemma enum64 (f : Z -> bool) :
  forallb f (map Z.of_nat (seq 0 64)) = true ->
  forall v, 0 <= v < 64 -> f v = true.
Proof.
  rewrite forallb_forall. intros H v Hv. apply H.
  apply in_map_iff. exists (Z.to_nat v). split; [lia|].
  apply in_seq. lia.
Qed.

Lemma decodeMap_encode (v : Z) :
  0 <= v < 64 -> base64.decodeMap (base64.encode v) = v.
Proof.
  intros Hv. apply Z.eqb_eq.
  revert v Hv. apply enum64. vm_compute. reflexivity.
Qed.

Lemma encode_isBase64 (v : Z) :
  0 <= v < 64 -> isBase64Byte (base64.encode v) = true.
Proof. revert v. apply enum64. vm_compute. reflexivity. Qed.

Lemma encode_not_newline (v : Z) :
  0 <= v < 64 -> base64.isNewline (base64.encode v) = false.
Proof.
  intros Hv. apply negb_true_iff. revert v Hv. apply enum64.
  vm_compute. reflexivity.
Qed.

Lemma encode_not_space (v : Z) :
  0 <= v < 64 ->
  Z_of_byte (base64.encode v) < 0x80 /\
  strings.asciiSpace (Z_of_byte (base64.encode v)) = false.
Proof.
  intros Hv.
  assert (H : (Z_of_byte (base64.encode v) <? 0x80)
              && negb (strings.asciiSpace (Z_of_byte (base64.encode v))) = true).
  { revert v Hv. apply enum64. vm_compute. reflexivity. }
  apply andb_true_iff in H. destruct H as [H1 H2].
  apply Z.ltb_lt in H1. apply negb_true_iff in H2. auto.
Qed.

(** ** Three bytes and four six-bit values *)

Lemma lor_mul_add (hi lo k : Z) :
  0 <= k -> 0 <= lo < 2 ^ k -> Z.lor (hi * 2 ^ k) lo = hi * 2 ^ k + lo.
Proof.
  intros Hk Hlo. rewrite <- (lor_shiftl_add hi lo k) by lia.
  now rewrite Z.shiftl_mul_pow2 by lia.
Qed.

Lemma val_of_bytes (B0 B1 B2 : Z) :
  0 <= B0 < 256 -> 0 <= B1 < 256 -> 0 <= B2 < 256 ->
  Z.lor (Z.lor (Z.shiftl B0 16) (Z.shiftl B1 8)) B2
  = B0 * 65536 + B1 * 256 + B2.
Proof.
  intros H0 H1 H2.
  rewrite (Z.shiftl_mul_pow2 B1 8) by lia.
  rewrite (lor_shiftl_add B0 (B1 * 2 ^ 8) 16) by lia.
  replace (B0 * 2 ^ 16 + B1 * 2 ^ 8) with ((B0 * 256 + B1) * 2 ^ 8) by lia.
  rewrite lor_mul_add by lia. lia.
Qed.

Lemma val_of_sextets (a b c d : Z) :
  0 <= a < 64 -> 0 <= b < 64 -> 0 <= c < 64 -> 0 <= d < 64 ->
  Z.lor (Z.lor (Z.lor (Z.shiftl a 18) (Z.shiftl b 12)) (Z.shiftl c 6)) d
  = a * 262144 + b * 4096 + c * 64 + d.
Proof.
  intros Ha Hb Hc Hd.
  rewrite (Z.shiftl_mul_pow2 b 12), (Z.shiftl_mul_pow2 c 6) by lia.
  rewrite (lor_shiftl_add a (b * 2 ^ 12) 18) by lia.
  replace (a * 2 ^ 18 + b * 2 ^ 12) with ((a * 64 + b) * 2 ^ 12) by lia.
  rewrite (lor_mul_add (a * 64 + b) (c * 2 ^ 6) 12) by lia.
  replace ((a * 64 + b) * 2 ^ 12 + c * 2 ^ 6)
    with (((a * 64 + b) * 64 + c) * 2 ^ 6) by lia.
  rewrite lor_mul_add by lia. lia.
Qed.

Lemma sextet (val k : Z) :
  0 <= k -> Z.land (Z.shiftr val k) 0x3F = (val / 2 ^ k) mod 64.
Proof. intros Hk. rewrite land_0x3F, Z.shiftr_div_pow2 by lia. reflexivity. Qed.

Lemma byte_of_Z_eq (x : Z) (b : byte) :
  x mod 256 = Z_of_byte b -> byte_of_Z x = b.
Proof.
  intros H. rewrite <- (byte_of_Z_of_byte b), <- H.
  unfold byte_of_Z. rewrite Z.mod_mod by lia. reflexivity.
Qed.

(** The bytes that a group of characters decodes to. *)
Lemma assemble_val (dbuf : list Z) (dlen : nat) (val : Z) :
  Z.lor (Z.lor (Z.lor (Z.shiftl (nth 0 dbuf 0) 18) (Z.shiftl (nth 1 dbuf 0) 12))
               (Z.shiftl (nth 2 dbuf 0) 6)) (nth 3 dbuf 0) = val ->
  base64.assemble dbuf dlen
  = firstn (dlen - 1)
      [byte_of_Z (Z.shiftr val 16); byte_of_Z (Z.shiftr val 8); byte_of_Z val].
Proof. intros <-. reflexivity. Qed.

Lemma assemble_three (b0 b1 b2 : byte) :
  let val := Z.lor (Z.lor (Z.shiftl (Z_of_byte b0) 16) (Z.shiftl (Z_of_byte b1) 8))
                   (Z_of_byte b2) in
  base64.assemble
    [Z.land (Z.shiftr val 18) 0x3F; Z.land (Z.shiftr val 12) 0x3F;
     Z.land (Z.shiftr val 6) 0x3F; Z.land val 0x3F] 4
  = [b0; b1; b2].
Proof.
  intros val.
  pose proof (Z_of_byte_range b0) as R0.
  pose proof (Z_of_byte_range b1) as R1.
  pose proof (Z_of_byte_range b2) as R2.
  assert (Hval : val = Z_of_byte b0 * 65536 + Z_of_byte b1 * 256 + Z_of_byte b2)
    by (apply val_of_bytes; assumption).
  rewrite (assemble_val _ 4 val).
  - cbn [firstn Nat.sub]. rewrite !Z.shiftr_div_pow2 by lia.
    f_equal; [|f_equal; [|f_equal]]; apply byte_of_Z_eq;
      rewrite Hval; Z.div_mod_to_equations; lia.
  - cbn [nth]. rewrite !sextet by lia. rewrite land_0x3F.
    rewrite val_of_sextets by (try apply Z.mod_pos_bound; lia).
    rewrite Hval. Z.div_mod_to_equations. lia.
Qed.

Lemma assemble_two (b0 b1 : byte) :
  let val := Z.lor (Z.shiftl (Z_of_byte b0) 16) (Z.shiftl (Z_of_byte b1) 8) in
  base64.assemble
    [Z.land (Z.shiftr val 18) 0x3F; Z.land (Z.shiftr val 12) 0x3F;
     Z.land (Z.shiftr val 6) 0x3F] 3
  = [b0; b1].
Proof.
  intros val.
  pose proof (Z_of_byte_range b0) as R0.
  pose proof (Z_of_byte_range b1) as R1.
  assert (Hval : val = Z_of_byte b0 * 65536 + Z_of_byte b1 * 256).
  { unfold val. rewrite (Z.shiftl_mul_pow2 (Z_of_byte b1) 8) by lia.
    rewrite lor_shiftl_add by lia. lia. }
  rewrite (assemble_val _ 3 val).
  - cbn [firstn Nat.sub]. rewrite !Z.shiftr_div_pow2 by lia.
    f_equal; [|f_equal]; apply byte_of_Z_eq;
      rewrite Hval; Z.div_mod_to_equations; lia.
  - cbn [nth]. rewrite !sextet by lia.
    rewrite val_of_sextets by (try apply Z.mod_pos_bound; lia).
    rewrite Hval. Z.div_mod_to_equations. lia.
Qed.

Lemma assemble_one (b0 : byte) :
  let val := Z.shiftl (Z_of_byte b0) 16 in
  base64.assemble
    [Z.land (Z.shiftr val 18) 0x3F; Z.land (Z.shiftr val 12) 0x3F] 2
  = [b0].
Proof.
  intros val.
  pose proof (Z_of_byte_range b0) as R0.
  assert (Hval : val = Z_of_byte b0 * 65536).
  { unfold val. rewrite Z.shiftl_mul_pow2 by lia. lia. }
  rewrite (assemble_val _ 2 val).
  - cbn [firstn Nat.sub]. rewrite !Z.shiftr_div_pow2 by lia.
    f_equal; apply byte_of_Z_eq;
      rewrite Hval; Z.div_mod_to_equations; lia.
  - cbn [nth]. rewrite !sextet by lia.
    rewrite val_of_sextets by (try apply Z.mod_pos_bound; lia).
    rewrite Hval. Z.div_mod_to_equations. lia.
Qed.

(** ** Decoding what the encoder wrote *)

Lemma quantum_done (len : Z) (rest : list byte) (si : Z) (dbuf : list Z) :
  base64.decodeQuantum_from len rest si 4 dbuf
  = {| base64.q_rest := rest; base64.q_nsi := si;
       base64.q_out := base64.assemble dbuf 4; base64.q_err := None |}.
Proof. destruct rest; reflexivity. Qed.

Lemma quantum_char (len : Z) (v : Z) (rest : list byte) (si : Z)
      (j : nat) (dbuf : list Z) :
  (j < 4)%nat -> 0 <= v < 64 ->
  base64.decodeQuantum_from len (base64.encode v :: rest) si j dbuf
  = base64.decodeQuantum_from len rest (si + 1) (S j) (dbuf ++ [v]).
Proof.
  intros Hj Hv. cbn [base64.decodeQuantum_from].
  destruct (Nat.leb_spec 4 j); [lia|].
  rewrite decodeMap_encode by assumption.
  destruct (Z.eqb_spec v 255); [lia|]. reflexivity.
Qed.

Lemma decodeMap_pad : base64.decodeMap base64.StdPadding = 0xFF.
Proof. reflexivity. Qed.

Lemma quantum_full (len : Z) (a b c d : Z) (rest : list byte) (si : Z) :
  0 <= a < 64 -> 0 <= b < 64 -> 0 <= c < 64 -> 0 <= d < 64 ->
  base64.decodeQuantum len
    (base64.encode a :: base64.encode b :: base64.encode c :: base64.encode d :: rest) si
  = {| base64.q_rest := rest; base64.q_nsi := si + 4;
       base64.q_out := base64.assemble [a; b; c; d] 4; base64.q_err := None |}.
Proof.
  intros Ha Hb Hc Hd. unfold base64.decodeQuantum.
  rewrite !quantum_char by (assumption || lia).
  rewrite quantum_done. cbn [app].
  replace (si + 1 + 1 + 1 + 1) with (si + 4) by lia. reflexivity.
Qed.

Lemma quantum_pad1 (a b c : Z) (si : Z) :
  0 <= a < 64 -> 0 <= b < 64 -> 0 <= c < 64 ->
  base64.decodeQuantum (si + 4)
    [base64.encode a; base64.encode b; base64.encode c; base64.StdPadding] si
  = {| base64.q_rest := []; base64.q_nsi := si + 4;
       base64.q_out := base64.assemble [a; b; c] 3; base64.q_err := None |}.
Proof.
  intros Ha Hb Hc. unfold base64.decodeQuantum.
  rewrite !quantum_char by (assumption || lia).
  cbn [app base64.decodeQuantum_from Nat.leb].
  rewrite decodeMap_pad. cbn.
  replace (si + 1 + 1 + 1 + 1) with (si + 4) by lia.
  rewrite Z.ltb_irrefl. reflexivity.
Qed.

Lemma quantum_pad2 (a b : Z) (si : Z) :
  0 <= a < 64 -> 0 <= b < 64 ->
  base64.decodeQuantum (si + 4)
    [base64.encode a; base64.encode b; base64.StdPadding; base64.StdPadding] si
  = {| base64.q_rest := []; base64.q_nsi := si + 4;
       base64.q_out := base64.assemble [a; b] 2; base64.q_err := None |}.
Proof.
  intros Ha Hb. unfold base64.decodeQuantum.
  rewrite !quantum_char by (assumption || lia).
  cbn [app base64.decodeQuantum_from Nat.leb].
  rewrite decodeMap_pad. cbn.
  replace (si + 1 + 1 + 1 + 1) with (si + 4) by lia.
  rewrite Z.ltb_irrefl. reflexivity.
Qed.

Lemma list_ind3 (A : Type) (P : list A -> Prop) :
  P [] ->
  (forall a, P [a]) ->
  (forall a b, P [a; b]) ->
  (forall a b c l, P l -> P (a :: b :: c :: l)) ->
  forall l, P l.
Proof.
  intros H0 H1 H2 H3.
  fix IH 1. intros [|a [|b [|c l]]].
  - exact H0.
  - apply H1.
  - apply H2.
  - apply H3, IH.
Qed.

Lemma sextet_range (val : Z) : 0 <= Z.land val 0x3F < 64.
Proof. rewrite land_0x3F. apply Z.mod_pos_bound. lia. Qed.

Lemma Decode_Encode (B : list byte) :
  forall (fuel : nat) (len si : Z) (dst : list byte),
    (length (base64.EncodeToString B) <= fuel)%nat ->
    si + Z.of_nat (length (base64.EncodeToString B)) = len ->
    base64.Decode_from fuel len (base64.EncodeToString B) si dst = (dst ++ B, None).
Proof.
  induction B as [|b0|b0 b1|b0 b1 b2 B IH] using list_ind3;
    intros fuel len si dst Hfuel Hlen.
  - destruct fuel; cbn; now rewrite app_nil_r.
  - cbn [base64.EncodeToString length] in *.
    destruct fuel as [|fuel]; [lia|].
    cbn [base64.Decode_from].
    replace len with (si + 4) by lia.
    rewrite quantum_pad2 by apply sextet_range.
    cbn [base64.q_err base64.q_out base64.q_rest base64.q_nsi].
    rewrite assemble_one. destruct fuel; reflexivity.
  - cbn [base64.EncodeToString length] in *.
    destruct fuel as [|fuel]; [lia|].
    cbn [base64.Decode_from].
    replace len with (si + 4) by lia.
    rewrite quantum_pad1 by apply sextet_range.
    cbn [base64.q_err base64.q_out base64.q_rest base64.q_nsi].
    rewrite assemble_two. destruct fuel; reflexivity.
  - cbn [base64.EncodeToString length] in *.
    destruct fuel as [|fuel]; [lia|].
    cbn [base64.Decode_from].
    rewrite quantum_full by apply sextet_range.
    cbn [base64.q_err base64.q_out base64.q_rest base64.q_nsi].
    rewrite assemble_three.
    rewrite IH by lia.
    rewrite <- app_assoc. reflexivity.
Qed.

Lemma DecodeString_EncodeToString (B : list byte) :
  base64.DecodeString (base64.EncodeToString B) = (B, None).
Proof.
  unfold base64.DecodeString. now rewrite Decode_Encode.
Qed.

(** ** What the decoder accepts *)

Lemma alphabetChar_not_newline (c : byte) :
  alphabetChar c = true -> base64.isNewline c = false.
Proof. destruct c; vm_compute; congruence. Qed.

Lemma pad_not_newline : base64.isNewline base64.StdPadding = false.
Proof. reflexivity. Qed.

Lemma skipNewlines_spec (rest : list byte) :
  forall si rest' si',
    base64.skipNewlines rest si = (rest', si') ->
    stripNewlines rest = stripNewlines rest'
    /\ si' + Z.of_nat (length rest') = si + Z.of_nat (length rest)
    /\ (length rest' <= length rest)%nat
    /\ match rest' with
       | [] => True
       | c :: _ => base64.isNewline c = false
       end.
Proof.
  induction rest as [|c rest IH]; intros si rest' si' H; cbn in H.
  - inversion H; subst. repeat split; auto.
  - destruct (base64.isNewline c) eqn:E.
    + apply IH in H. destruct H as (H1 & H2 & H3 & H4).
      cbn [stripNewlines filter]. rewrite E. cbn [negb length].
      repeat split; auto; lia.
    + inversion H; subst. repeat split; auto.
Qed.

(** What a call of [decodeQuantum] that reports no error has read, the
    line feeds and carriage returns left out: what was missing of a
    group of four alphabet characters, or nothing at the end of the
    source, or the end of a padded group at the end of the source. *)
Lemma quantum_ok (len : Z) (rest : list byte) :
  forall (si : Z) (j : nat) (dbuf : list Z),
    (j <= 4)%nat ->
    si + Z.of_nat (length rest) = len ->
    let q := base64.decodeQuantum_from len rest si j dbuf in
    base64.q_err q = None ->
    base64.q_nsi q + Z.of_nat (length (base64.q_rest q)) = len
    /\ (length (base64.q_rest q) <= length rest)%nat
    /\ exists cs, forallb alphabetChar cs = true
       /\ ((length cs + j = 4)%nat
           /\ stripNewlines rest = cs ++ stripNewlines (base64.q_rest q)
           /\ ((j < 4)%nat -> (length (base64.q_rest q) < length rest)%nat)
           \/ j = 0%nat /\ cs = [] /\ stripNewlines rest = []
              /\ base64.q_rest q = []
           \/ (length cs + j = 3)%nat
              /\ stripNewlines rest = cs ++ [base64.StdPadding]
              /\ base64.q_rest q = []
           \/ (length cs + j = 2)%nat
              /\ stripNewlines rest = cs ++ [base64.StdPadding; base64.StdPadding]
              /\ base64.q_rest q = []).
Proof.
  induction rest as [|c rest IH]; intros si j dbuf Hj Hlen q Herr; subst q.
  - cbn [base64.decodeQuantum_from length] in *.
    destruct (Nat.leb_spec 4 j).
    + cbn [base64.q_err base64.q_rest base64.q_nsi length] in *.
      split; [assumption|]. split; [lia|].
      exists []. split; [reflexivity|].
      left. split; [cbn [length]; lia|]. split; [reflexivity|lia].
    + destruct (Nat.eqb_spec j 0);
        cbn [base64.q_err base64.q_rest base64.q_nsi length] in *; [|discriminate].
      split; [assumption|]. split; [lia|].
      exists []. split; [reflexivity|]. right. left. auto.
  - cbn [base64.decodeQuantum_from] in *.
    destruct (Nat.leb_spec 4 j).
    { cbn [base64.q_err base64.q_rest base64.q_nsi] in *.
      split; [assumption|]. split; [lia|].
      exists []. split; [reflexivity|].
      left. split; [cbn [length]; lia|]. split; [reflexivity|lia]. }
    destruct (Z.eqb_spec (base64.decodeMap c) 255) as [Ec|Ec]; cbn [negb] in *.
    2:{ (* an alphabet character *)
      assert (Ha : alphabetChar c = true).
      { unfold alphabetChar.
        destruct (Z.eqb_spec (base64.decodeMap c) 255); [contradiction|reflexivity]. }
      assert (Hj' : (S j <= 4)%nat) by lia.
      assert (Hlen' : si + 1 + Z.of_nat (length rest) = len)
        by (cbn [length] in Hlen; lia).
      pose proof (IH (si + 1) (S j) (dbuf ++ [base64.decodeMap c]) Hj' Hlen') as IH'.
      cbv zeta in IH'. specialize (IH' Herr).
      destruct IH' as (I1 & I2 & cs & Hcs & Hcase).
      cbn [length]. split; [assumption|]. split; [lia|].
      exists (c :: cs). split; [cbn [forallb]; now rewrite Ha|].
      cbn [stripNewlines filter]. rewrite (alphabetChar_not_newline c Ha).
      cbn [negb length app]. fold (stripNewlines rest).
      destruct Hcase as [(H1 & H2 & H3)|[(H1 & _)|[(H1 & H2 & H3)|(H1 & H2 & H3)]]].
      - left. repeat split; [lia|now rewrite H2|lia].
      - discriminate.
      - right. right. left. repeat split; [lia|now rewrite H2|assumption].
      - right. right. right. repeat split; [lia|now rewrite H2|assumption]. }
    destruct (base64.isNewline c) eqn:En.
    { (* a line feed or a carriage return *)
      assert (Hlen' : si + 1 + Z.of_nat (length rest) = len)
        by (cbn [length] in Hlen; lia).
      pose proof (IH (si + 1) j dbuf Hj Hlen') as IH'.
      cbv zeta in IH'. specialize (IH' Herr).
      destruct IH' as (I1 & I2 & cs & Hcs & Hcase).
      cbn [length]. split; [assumption|]. split; [lia|].
      exists cs. split; [assumption|].
      cbn [stripNewlines filter]. rewrite En. cbn [negb].
      fold (stripNewlines rest).
      destruct Hcase as [(H1 & H2 & H3)|[H1|[H1|H1]]]; auto.
      left. repeat split; auto. lia. }
    destruct (byte_eqb c base64.StdPadding) eqn:Ep; cbn [negb] in *;
      [|cbn [base64.q_err] in Herr; discriminate].
    apply byte_eqb_eq in Ep. subst c.
    cbn [length] in Hlen.
    destruct j as [|[|[|[|j]]]];
      try (cbn [base64.q_err] in Herr; discriminate); [| |lia].
    + (* j = 2 *)
      cbn [Nat.eqb] in *.
      destruct (base64.skipNewlines rest (si + 1)) as [rest1 si1] eqn:E1.
      apply skipNewlines_spec in E1. destruct E1 as (S1 & L1 & B1 & _).
      destruct rest1 as [|c1 rest2]; [cbn [base64.q_err] in Herr; discriminate|].
      destruct (byte_eqb c1 base64.StdPadding) eqn:Ep1; cbn [negb] in *;
        [|cbn [base64.q_err] in Herr; discriminate].
      apply byte_eqb_eq in Ep1. subst c1.
      destruct (base64.skipNewlines rest2 (si1 + 1)) as [rest3 si3] eqn:E3.
      apply skipNewlines_spec in E3. destruct E3 as (S3 & L3 & B3 & _).
      cbn [base64.q_err base64.q_rest base64.q_nsi] in *.
      cbn [length] in *.
      destruct (Z.ltb_spec si3 len); [discriminate|].
      assert (rest3 = []) by (destruct rest3; [reflexivity|cbn [length] in *; lia]).
      subst rest3. cbn [length] in *.
      split; [lia|]. split; [lia|].
      exists []. split; [reflexivity|]. right. right. right.
      repeat split; auto.
      cbn [stripNewlines filter]. rewrite pad_not_newline. cbn [negb app].
      fold (stripNewlines rest). rewrite S1.
      cbn [stripNewlines filter]. rewrite pad_not_newline. cbn [negb].
      fold (stripNewlines rest2). rewrite S3. reflexivity.
    + (* j = 3 *)
      cbn [Nat.eqb] in *.
      destruct (base64.skipNewlines rest (si + 1)) as [rest3 si3] eqn:E3.
      apply skipNewlines_spec in E3. destruct E3 as (S3 & L3 & B3 & _).
      cbn [base64.q_err base64.q_rest base64.q_nsi] in *.
      destruct (Z.ltb_spec si3 len); [discriminate|].
      assert (rest3 = []) by (destruct rest3; [reflexivity|cbn [length] in *; lia]).
      subst rest3. cbn [length] in *.
      split; [lia|]. split; [lia|].
      exists []. split; [reflexivity|]. right. right. left.
      repeat split; auto.
      cbn [stripNewlines filter]. rewrite pad_not_newline. cbn [negb app].
      fold (stripNewlines rest). rewrite S3. reflexivity.
Qed.

Lemma validPadded_group (a b c d : byte) (t : gostring) :
  forallb alphabetChar [a; b; c; d] = true ->
  validPadded t = true -> validPadded (a :: b :: c :: d :: t) = true.
Proof.
  cbn [forallb validPadded]. intros H Ht. rewrite Ht.
  repeat (apply andb_true_iff in H; destruct H as [? H]).
  repeat match goal with E : alphabetChar _ = true |- _ => rewrite E; clear E end.
  reflexivity.
Qed.

(** The decoder reports no error only on padded base64, line feeds and
    carriage returns left out. *)
Lemma Decode_ok (len : Z) (fuel : nat) :
  forall (rest : list byte) (si : Z) (dst : list byte),
    (length rest <= fuel)%nat ->
    si + Z.of_nat (length rest) = len ->
    snd (base64.Decode_from fuel len rest si dst) = None ->
    validPadded (stripNewlines rest) = true.
Proof.
  induction fuel as [|fuel IH]; intros rest si dst Hfuel Hlen Hok.
  - destruct rest; [reflexivity|cbn [length] in Hfuel; lia].
  - destruct rest as [|c rest]; [reflexivity|].
    cbn [base64.Decode_from] in Hok.
    pose proof (quantum_ok len (c :: rest) si 0 [] ltac:(lia) Hlen) as Hq.
    cbv zeta in Hq. fold (base64.decodeQuantum len (c :: rest) si) in Hq.
    destruct (base64.q_err (base64.decodeQuantum len (c :: rest) si)) eqn:Eerr;
      [cbn in Hok; discriminate|].
    specialize (Hq eq_refl).
    destruct Hq as (I1 & I2 & cs & Hcs & Hcase).
    destruct Hcase as [(H1 & H2 & H3)|[(H1 & H2 & H3 & H4)|[(H1 & H2 & H3)|(H1 & H2 & H3)]]].
    + specialize (H3 ltac:(lia)).
      apply IH in Hok; [|cbn [length] in *; lia|assumption].
      rewrite H2.
      destruct cs as [|a [|b [|c' [|d [|? ?]]]]]; cbn [length] in H1; try lia.
      cbn [app]. now apply validPadded_group.
    + rewrite H3. reflexivity.
    + rewrite H2.
      destruct cs as [|a [|b [|c' [|? ?]]]]; cbn [length] in H1; try lia.
      cbn [app validPadded forallb] in *.
      repeat (apply andb_true_iff in Hcs; destruct Hcs as [? Hcs]).
      repeat match goal with E : alphabetChar _ = true |- _ => rewrite E; clear E end.
      rewrite byte_eqb_refl. reflexivity.
    + rewrite H2.
      destruct cs as [|a [|b [|? ?]]]; cbn [length] in H1; try lia.
      cbn [app validPadded forallb] in *.
      repeat (apply andb_true_iff in Hcs; destruct Hcs as [? Hcs]).
      repeat match goal with E : alphabetChar _ = true |- _ => rewrite E; clear E end.
      rewrite byte_eqb_refl. reflexivity.
Qed.

Lemma DecodeString_ok (s : gostring) :
  snd (base64.DecodeString s) = None -> validPadded (stripNewlines s) = true.
Proof.
  unfold base64.DecodeString. apply Decode_ok; lia.
Qed.

Lemma alphabetChar_pad : alphabetChar base64.StdPadding = false.
Proof. reflexivity. Qed.

Lemma skipNewlines_all (rest : list byte) :
  forall si, stripNewlines rest = [] ->
    base64.skipNewlines rest si = ([], si + Z.of_nat (length rest)).
Proof.
  induction rest as [|c rest IH]; intros si H.
  - cbn. now rewrite Z.add_0_r.
  - cbn [stripNewlines filter] in H. cbn [base64.skipNewlines].
    destruct (base64.isNewline c); cbn [negb] in H; [|discriminate].
    rewrite IH by assumption. cbn [length]. f_equal. lia.
Qed.

(** Conversely: a group of four alphabet characters is read whole. *)
Lemma quantum_group (len : Z) (rest : list byte) :
  forall (si : Z) (j : nat) (dbuf : list Z) (cs tail : list byte),
    (j <= 4)%nat ->
    forallb alphabetChar cs = true ->
    (length cs + j = 4)%nat ->
    stripNewlines rest = cs ++ tail ->
    let q := base64.decodeQuantum_from len rest si j dbuf in
    base64.q_err q = None
    /\ stripNewlines (base64.q_rest q) = tail
    /\ base64.q_nsi q + Z.of_nat (length (base64.q_rest q))
       = si + Z.of_nat (length rest)
    /\ (length (base64.q_rest q) + length cs <= length rest)%nat.
Proof.
  induction rest as [|c rest IH]; intros si j dbuf cs tail Hj Hcs Hn Hs q; subst q.
  - cbn [stripNewlines filter] in Hs.
    destruct cs; [|discriminate]. cbn [app length] in *. subst tail.
    assert (j = 4%nat) by lia. subst j. rewrite quantum_done.
    cbn [base64.q_err base64.q_rest base64.q_nsi length].
    repeat split; auto; lia.
  - cbn [base64.decodeQuantum_from].
    destruct (Nat.leb_spec 4 j).
    { destruct cs; [|cbn [length] in Hn; lia]. cbn [app] in Hs.
      cbn [base64.q_err base64.q_rest base64.q_nsi length].
      repeat split; auto; lia. }
    destruct cs as [|a cs]; [cbn [length] in Hn; lia|].
    cbn [forallb] in Hcs. apply andb_true_iff in Hcs. destruct Hcs as [Ha Hcs].
    cbn [stripNewlines filter] in Hs. fold (stripNewlines rest) in Hs.
    destruct (base64.isNewline c) eqn:En; cbn [negb] in Hs.
    + (* a line feed or a carriage return *)
      assert (Ec : (base64.decodeMap c =? 255) = true).
      { destruct (alphabetChar c) eqn:E.
        - apply alphabetChar_not_newline in E. congruence.
        - unfold alphabetChar in E. now apply negb_false_iff in E. }
      rewrite Ec. cbn [negb].
      pose proof (IH (si + 1) j dbuf (a :: cs) tail Hj) as IH'.
      cbn [forallb] in IH'. rewrite Ha, Hcs in IH'.
      specialize (IH' eq_refl Hn Hs). cbv zeta in IH'.
      destruct IH' as (I1 & I2 & I3 & I4).
      cbn [length] in *. repeat split; auto; lia.
    + (* the first character of the group *)
      cbn [app] in Hs. inversion Hs as [[Hc Hs']]. subst c.
      assert (Ec : (base64.decodeMap a =? 255) = false).
      { unfold alphabetChar in Ha. now apply negb_true_iff in Ha. }
      rewrite Ec. cbn [negb].
      pose proof (IH (si + 1) (S j) (dbuf ++ [base64.decodeMap a]) cs tail
                     ltac:(lia) Hcs ltac:(cbn [length] in Hn; lia) Hs') as IH'.
      cbv zeta in IH'. destruct IH' as (I1 & I2 & I3 & I4).
      cbn [length] in *. repeat split; auto; lia.
Qed.

(** The end of the source, and the padded group at the end. *)
Lemma quantum_end (len : Z) (rest : list byte) :
  forall (si : Z) (j : nat) (dbuf : list Z) (cs pads : list byte),
    si + Z.of_nat (length rest) = len ->
    forallb alphabetChar cs = true ->
    stripNewlines rest = cs ++ pads ->
    (j = 0%nat /\ cs = [] /\ pads = []
     \/ (length cs + j = 3)%nat /\ pads = [base64.StdPadding]
     \/ (length cs + j = 2)%nat /\ pads = [base64.StdPadding; base64.StdPadding]) ->
    let q := base64.decodeQuantum_from len rest si j dbuf in
    base64.q_err q = None /\ base64.q_rest q = [].
Proof.
  induction rest as [|c rest IH]; intros si j dbuf cs pads Hlen Hcs Hs Hcase q; subst q.
  - cbn [stripNewlines filter] in Hs.
    destruct cs; [|discriminate]. cbn [app] in Hs. subst pads.
    destruct Hcase as [(-> & _)|[(_ & H)|(_ & H)]]; try discriminate.
    cbn. auto.
  - cbn [base64.decodeQuantum_from].
    assert (Hj : (j < 4)%nat) by (destruct Hcase as [(-> & _)|[(H & _)|(H & _)]]; lia).
    destruct (Nat.leb_spec 4 j); [lia|].
    cbn [stripNewlines filter] in Hs. fold (stripNewlines rest) in Hs.
    cbn [length] in Hlen.
    destruct (base64.isNewline c) eqn:En; cbn [negb] in Hs.
    + assert (Ec : (base64.decodeMap c =? 255) = true).
      { destruct (alphabetChar c) eqn:E.
        - apply alphabetChar_not_newline in E. congruence.
        - unfold alphabetChar in E. now apply negb_false_iff in E. }
      rewrite Ec. cbn [negb].
      apply (IH (si + 1) j dbuf cs pads); auto. lia.
    + destruct cs as [|a cs].
      * (* the padding *)
        cbn [app] in Hs.
        destruct Hcase as [(_ & _ & ->)|[(Hn & ->)|(Hn & ->)]]; [discriminate| |];
          inversion Hs as [[Hc Hs']]; subst c; cbn [length] in Hn.
        -- assert (j = 3%nat) by lia. subst j.
           rewrite decodeMap_pad. cbn [Z.eqb Pos.eqb negb].
           rewrite byte_eqb_refl. cbn [negb Nat.eqb].
           rewrite skipNewlines_all by assumption.
           cbn [base64.q_err base64.q_rest].
           replace (si + 1 + Z.of_nat (length rest)) with len by lia.
           rewrite Z.ltb_irrefl. auto.
        -- assert (j = 2%nat) by lia. subst j.
           rewrite decodeMap_pad. cbn [Z.eqb Pos.eqb negb].
           rewrite byte_eqb_refl. cbn [negb Nat.eqb].
           destruct (base64.skipNewlines rest (si + 1)) as [rest1 si1] eqn:E1.
           apply skipNewlines_spec in E1. destruct E1 as (S1 & L1 & B1 & N1).
           rewrite Hs' in S1.
           destruct rest1 as [|c1 rest2]; [discriminate|].
           cbn [stripNewlines filter] in S1. rewrite N1 in S1. cbn [negb] in S1.
           fold (stripNewlines rest2) in S1.
           inversion S1 as [[Hc1 S2]]. subst c1.
           rewrite byte_eqb_refl. cbn [negb].
           rewrite skipNewlines_all by auto.
           cbn [base64.q_err base64.q_rest]. cbn [length] in L1.
           replace (si1 + 1 + Z.of_nat (length rest2)) with len by lia.
           rewrite Z.ltb_irrefl. auto.
      * (* an alphabet character *)
        cbn [forallb] in Hcs. apply andb_true_iff in Hcs. destruct Hcs as [Ha Hcs].
        cbn [app] in Hs. inversion Hs as [[Hc Hs']]. subst c.
        assert (Ec : (base64.decodeMap a =? 255) = false).
        { unfold alphabetChar in Ha. now apply negb_true_iff in Ha. }
        rewrite Ec. cbn [negb].
        apply (IH (si + 1) (S j) (dbuf ++ [base64.decodeMap a]) cs pads); auto.
        -- lia.
        -- cbn [length] in Hcase.
           destruct Hcase as [(_ & Hd & _)|[(Hn & ->)|(Hn & ->)]];
             [discriminate|right; left; split; [lia|reflexivity]
             |right; right; split; [lia|reflexivity]].
Qed.

Lemma Decode_from_nil (fuel : nat) (len si : Z) (dst : list byte) :
  base64.Decode_from fuel len [] si dst = (dst, None).
Proof. destruct fuel; reflexivity. Qed.

(** The decoder accepts all padded base64, line feeds and carriage
    returns left out. *)
Lemma Decode_complete (len : Z) (fuel : nat) :
  forall (rest : list byte) (si : Z) (dst : list byte),
    (length rest <= fuel)%nat ->
    si + Z.of_nat (length rest) = len ->
    validPadded (stripNewlines rest) = true ->
    snd (base64.Decode_from fuel len rest si dst) = None.
Proof.
  induction fuel as [|fuel IH]; intros rest si dst Hfuel Hlen Hv.
  - reflexivity.
  - destruct rest as [|c0 rest0]; [reflexivity|].
    set (rest := c0 :: rest0) in *.
    assert (Hrest : base64.Decode_from (S fuel) len rest si dst
              = let q := base64.decodeQuantum len rest si in
                let dst := dst ++ base64.q_out q in
                match base64.q_err q with
                | Some e => (dst, Some e)
                | None => base64.Decode_from fuel len (base64.q_rest q)
                                             (base64.q_nsi q) dst
                end) by reflexivity.
    rewrite Hrest. cbv zeta. clear Hrest.
    unfold base64.decodeQuantum.
    destruct (stripNewlines rest) as [|a [|b [|c [|d t]]]] eqn:Es;
      cbn [validPadded] in Hv; try discriminate.
    + destruct (quantum_end len rest si 0 [] [] [] Hlen eq_refl Es) as (E1 & E2).
      { left. auto. }
      rewrite E1, E2. now rewrite Decode_from_nil.
    + apply andb_true_iff in Hv. destruct Hv as [Hab Hv].
      apply andb_true_iff in Hab. destruct Hab as [Ha Hb].
      apply orb_true_iff in Hv. destruct Hv as [Hv|Hv];
        [apply orb_true_iff in Hv; destruct Hv as [Hv|Hv]|].
      * apply andb_true_iff in Hv. destruct Hv as [Hcd Hv].
        apply andb_true_iff in Hcd. destruct Hcd as [Hc Hd].
        destruct (quantum_group len rest si 0 [] [a; b; c; d] t) as (E1 & E2 & E3 & E4);
          [lia|cbn [forallb]; now rewrite Ha, Hb, Hc, Hd|reflexivity|exact Es|].
        rewrite E1. apply IH.
        -- cbn [length] in *. lia.
        -- lia.
        -- now rewrite E2.
      * apply andb_true_iff in Hv. destruct Hv as [Hcd Hv].
        apply andb_true_iff in Hcd. destruct Hcd as [Hc Hd].
        apply byte_eqb_eq in Hd. subst d.
        destruct t; [|discriminate].
        destruct (quantum_end len rest si 0 [] [a; b; c] [base64.StdPadding] Hlen)
          as (E1 & E2);
          [cbn [forallb]; now rewrite Ha, Hb, Hc|exact Es|right; left; auto|].
        rewrite E1, E2. now rewrite Decode_from_nil.
      * apply andb_true_iff in Hv. destruct Hv as [Hcd Hv].
        apply andb_true_iff in Hcd. destruct Hcd as [Hc Hd].
        apply byte_eqb_eq in Hc. apply byte_eqb_eq in Hd. subst c d.
        destruct t; [|discriminate].
        destruct (quantum_end len rest si 0 [] [a; b]
                    [base64.StdPadding; base64.StdPadding] Hlen)
          as (E1 & E2);
          [cbn [forallb]; now rewrite Ha, Hb|exact Es|right; right; auto|].
        rewrite E1, E2. now rewrite Decode_from_nil.
Qed.

(** [DecodeString] succeeds exactly on padded base64 in which line feeds
    and carriage returns may be strewn. *)
Lemma DecodeString_accepts (s : gostring) :
  snd (base64.DecodeString s) = None <-> validPadded (stripNewlines s) = true.
Proof.
  split.
  - apply DecodeString_ok.
  - unfold base64.DecodeString. apply Decode_complete; lia.
Qed.

(** ** Trimming removes nothing that the alphabet filter keeps *)

Lemma junk_high (l : list byte) :
  Forall (fun b => 0x80 <= Z_of_byte b) l -> Forall junk l.
Proof.
  intros H. eapply Forall_impl; [|exact H].
  intros b Hb. now apply high_not_base64.
Qed.

Lemma filter_junk (l : list byte) : Forall junk l -> filter isBase64Byte l = [].
Proof.
  induction 1 as [|b l Hb Hl IH]; cbn [filter]; [reflexivity|].
  now rewrite Hb.
Qed.

Lemma junk_skipn (n : nat) (l : list byte) : Forall junk l -> Forall junk (skipn n l).
Proof.
  intros H. rewrite <- (firstn_skipn n l) in H.
  now apply Forall_app in H.
Qed.

Lemma space_not_base64 (r : Z) :
  unicode.IsSpace r = true -> isBase64Rune r = false.
Proof.
  unfold unicode.IsSpace, unicode.MaxLatin1, isBase64Rune.
  destruct ((0 <=? r) && (r <=? 255)) eqn:E; lia.
Qed.

Lemma asciiSpace_junk (c : byte) :
  strings.asciiSpace (Z_of_byte c) = true -> junk c.
Proof. unfold strings.asciiSpace, junk, isBase64Byte, isBase64Rune. lia. Qed.

(** The bytes of a space are dropped by the filter. *)
Lemma DecodeRune_space (b0 : byte) (t : gostring) :
  let '(r, size) := utf8.DecodeRuneInString (b0 :: t) in
  unicode.IsSpace r = true -> Forall junk (firstn size (b0 :: t)).
Proof.
  destruct (Z.lt_ge_cases (Z_of_byte b0) 0x80) as [Hlo|Hhi].
  - rewrite DecodeRune_ascii by assumption. intros Hs.
    cbn [firstn]. constructor; [|constructor].
    now apply space_not_base64.
  - pose proof (DecodeRune_high b0 t Hhi) as H.
    destruct (utf8.DecodeRuneInString (b0 :: t)) as [r size].
    destruct H as (_ & _ & H). intros _. now apply junk_high.
Qed.

Lemma indexFunc_space (fuel : nat) :
  forall (s : gostring) (i : Z),
    (length s <= fuel)%nat -> 0 <= i ->
    let k := strings.indexFunc_from fuel unicode.IsSpace false i s in
    (k = -1 /\ Forall junk s)
    \/ (exists pre rest, s = pre ++ rest /\ Forall junk pre
                         /\ k = i + Z.of_nat (length pre)).
Proof.
  induction fuel as [|fuel IH]; intros s i Hlen Hi k; subst k.
  - destruct s; [|cbn [length] in Hlen; lia]. left. split; [reflexivity|constructor].
  - destruct s as [|b0 t]; [left; split; [reflexivity|constructor]|].
    cbn [strings.indexFunc_from].
    pose proof (DecodeRune_space b0 t) as Hsp.
    pose proof (DecodeRune_size b0 t) as Hsz.
    destruct (utf8.DecodeRuneInString (b0 :: t)) as [r size]. cbn [snd] in Hsz.
    destruct (unicode.IsSpace r) eqn:Er; cbn [Bool.eqb].
    + specialize (Hsp eq_refl).
      destruct (IH (skipn size (b0 :: t)) (i + Z.of_nat size)) as [(E & F)|(pre & rest & E & F & G)].
      * rewrite length_skipn. lia.
      * lia.
      * left. split; [assumption|].
        rewrite <- (firstn_skipn size (b0 :: t)). now apply Forall_app.
      * right. exists (firstn size (b0 :: t) ++ pre), rest.
        split; [|split].
        -- rewrite <- app_assoc, <- E. symmetry. apply firstn_skipn.
        -- now apply Forall_app.
        -- rewrite G, length_app, length_firstn. lia.
    + right. exists [], (b0 :: t). split; [reflexivity|].
      split; [constructor|]. cbn [length]. lia.
Qed.

Lemma TrimLeftFunc_parts (s : gostring) :
  exists pre, s = pre ++ strings.TrimLeftFunc s unicode.IsSpace /\ Forall junk pre.
Proof.
  unfold strings.TrimLeftFunc, strings.indexFunc.
  destruct (indexFunc_space (length s) s 0 ltac:(lia) ltac:(lia))
    as [(E & F)|(pre & rest & E & F & G)].
  - rewrite E. cbn. exists s. now rewrite app_nil_r.
  - rewrite G. destruct (Z.eqb_spec (0 + Z.of_nat (length pre)) (-1)); [lia|].
    exists pre. split; [|assumption].
    replace (Z.to_nat (0 + Z.of_nat (length pre))) with (length pre) by lia.
    rewrite E at 2. rewrite skipn_app, skipn_all, Nat.sub_diag. cbn. assumption.
Qed.

Lemma backToStart_le (s : gostring) (lim : Z) (k : nat) :
  forall z, utf8.backToStart s lim k z <= z.
Proof.
  induction k as [|k IH]; intros z; cbn [utf8.backToStart]; [lia|].
  destruct (z <? lim); [lia|].
  destruct (utf8.RuneStart _); [lia|].
  specialize (IH (z - 1)). lia.
Qed.

Lemma skipn_nth (A : Type) (d : A) (n : nat) :
  forall (l : list A) (b : A) (t : list A),
    skipn n l = b :: t -> nth n l d = b.
Proof.
  induction n as [|n IH]; intros l b t H.
  - cbn in H. subst l. reflexivity.
  - destruct l as [|a l]; [discriminate|]. cbn in *. eapply IH, H.
Qed.

Lemma skipn_last (A : Type) (d : A) (l : list A) :
  l <> [] -> skipn (length l - 1) l = [nth (length l - 1) l d].
Proof.
  intros Hl.
  assert (Hlen : length (skipn (length l - 1) l) = 1%nat).
  { rewrite length_skipn. destruct l; [contradiction|]. cbn [length]. lia. }
  destruct (skipn (length l - 1) l) as [|b [|? ?]] eqn:E; try discriminate.
  now rewrite (skipn_nth _ d _ _ _ _ E).
Qed.

Lemma IsSpace_RuneError : unicode.IsSpace utf8.RuneError = false.
Proof. reflexivity. Qed.

(** The last rune: its bytes are dropped by the filter if it is a space,
    and all its bytes but the first are dropped in any case. *)
Lemma DecodeLastRune_space (t : gostring) :
  t <> [] ->
  let '(r, size) := utf8.DecodeLastRuneInString t in
  (1 <= size <= length t)%nat
  /\ (unicode.IsSpace r = true -> Forall junk (skipn (length t - size) t))
  /\ Forall junk (skipn (length t - size + 1) t).
Proof.
  intros Ht.
  assert (Hlen : (0 < length t)%nat) by (destruct t; [contradiction|cbn; lia]).
  unfold utf8.DecodeLastRuneInString.
  destruct (Nat.eqb_spec (length t) 0); [lia|].
  assert (Hone : (1 <= 1 <= length t)%nat) by lia.
  assert (Hend : Forall junk (skipn (length t - 1 + 1) t)).
  { rewrite skipn_all2 by lia. constructor. }
  unfold utf8.RuneSelf.
  destruct (Z.ltb_spec (at_ t (length t - 1)) 128) as [Hlo|Hhi].
  - split; [assumption|]. split; [|assumption].
    intros Hs. rewrite (skipn_last _ x00) by assumption.
    constructor; [|constructor]. now apply space_not_base64.
  - set (lim := if Z.of_nat (length t) - Z.of_nat utf8.UTFMax <? 0 then 0
                else Z.of_nat (length t) - Z.of_nat utf8.UTFMax).
    pose proof (backToStart_le t lim utf8.UTFMax (Z.of_nat (length t) - 2)) as Hb.
    set (z := utf8.backToStart t lim utf8.UTFMax (Z.of_nat (length t) - 2)) in *.
    set (start := Z.to_nat (if z <? 0 then 0 else z)).
    assert (Hstart : (start < length t)%nat).
    { unfold start. destruct (z <? 0); lia. }
    assert (Hu : length (skipn start t) = (length t - start)%nat)
      by apply length_skipn.
    rewrite firstn_all2 by lia.
    destruct (skipn start t) as [|b0 t'] eqn:Eu; [cbn [length] in Hu; lia|].
    pose proof (DecodeRune_size b0 t') as Hsz.
    destruct (utf8.DecodeRuneInString (b0 :: t')) as [r' size'] eqn:Ed.
    cbn [snd] in Hsz.
    destruct (Nat.eqb_spec (start + size') (length t)) as [Hfit|Hfit]; cbn [negb].
    + assert (Hb0 : 0x80 <= Z_of_byte b0).
      { destruct (Z.lt_ge_cases (Z_of_byte b0) 0x80) as [Hl|Hh]; [|assumption].
        rewrite DecodeRune_ascii in Ed by assumption.
        inversion Ed; subst r' size'.
        assert (Hs1 : start = (length t - 1)%nat) by lia.
        pose proof (skipn_nth _ x00 start t b0 t' Eu) as Hn.
        unfold at_ in Hhi. rewrite <- Hs1, Hn in Hhi. lia. }
      pose proof (DecodeRune_high b0 t' Hb0) as Hh. rewrite Ed in Hh.
      destruct Hh as (_ & _ & Hall).
      assert (Hwhole : firstn size' (b0 :: t') = b0 :: t').
      { apply firstn_all2. lia. }
      rewrite Hwhole in Hall. apply junk_high in Hall.
      replace (length t - size')%nat with start by lia.
      split; [lia|]. split.
      * intros _. now rewrite Eu.
      * rewrite Nat.add_comm, <- skipn_skipn, Eu. now apply junk_skipn.
    + split; [assumption|]. split; [|assumption].
      rewrite IsSpace_RuneError. discriminate.
Qed.

Lemma lastIndexFunc_space (s : gostring) (fuel : nat) :
  forall (i : nat),
    (i <= length s)%nat -> (i <= fuel)%nat ->
    Forall junk (skipn i s) ->
    let k := strings.lastIndexFunc_from fuel s unicode.IsSpace false i in
    (k = -1 /\ Forall junk s)
    \/ (0 <= k < Z.of_nat (length s)
        /\ Forall junk (skipn (Z.to_nat k + 1) s)).
Proof.
  induction fuel as [|fuel IH]; intros i Hi Hfuel Hj k; subst k.
  - assert (i = 0%nat) by lia. subst i. left. split; [reflexivity|assumption].
  - cbn [strings.lastIndexFunc_from].
    destruct (Nat.eqb_spec i 0) as [->|Hnz]; [left; split; [reflexivity|assumption]|].
    assert (Ht : firstn i s <> []).
    { intros E. apply (f_equal (@length byte)) in E.
      rewrite length_firstn in E. cbn in E. lia. }
    pose proof (DecodeLastRune_space (firstn i s) Ht) as Hd.
    destruct (utf8.DecodeLastRuneInString (firstn i s)) as [r size].
    rewrite length_firstn in Hd.
    replace (Nat.min i (length s)) with i in Hd by lia.
    destruct Hd as (Hsz & Hsp & Htail).
    assert (Hsplit : forall n, (n <= i)%nat ->
              skipn n s = skipn n (firstn i s) ++ skipn i s).
    { intros n Hn. rewrite <- (firstn_skipn i s) at 1.
      rewrite skipn_app, length_firstn.
      replace (n - Nat.min i (length s))%nat with 0%nat by lia. reflexivity. }
    destruct (unicode.IsSpace r) eqn:Er; cbn [Bool.eqb].
    + apply IH; [lia|lia|].
      rewrite (Hsplit (i - size)%nat) by lia.
      apply Forall_app. split; [now apply Hsp|assumption].
    + right. split; [lia|].
      rewrite Nat2Z.id.
      rewrite (Hsplit (i - size + 1)%nat) by lia.
      apply Forall_app. split; assumption.
Qed.

Lemma TrimRightFunc_parts (s : gostring) :
  exists post, s = strings.TrimRightFunc s unicode.IsSpace ++ post /\ Forall junk post.
Proof.
  unfold strings.TrimRightFunc, strings.lastIndexFunc.
  destruct (lastIndexFunc_space s (length s) (length s) ltac:(lia) ltac:(lia))
    as [(E & F)|(Hk & F)].
  - rewrite skipn_all. constructor.
  - rewrite E. cbn. exists s. auto.
  - set (k := strings.lastIndexFunc_from (length s) s unicode.IsSpace false (length s)) in *.
    set (i := if (0 <=? k) && (utf8.RuneSelf <=? at_ s (Z.to_nat k))
              then let '(_, wid) := utf8.DecodeRuneInString (skipn (Z.to_nat k) s) in
                   k + Z.of_nat wid
              else k + 1).
    assert (Hi : k + 1 <= i).
    { unfold i. destruct ((0 <=? k) && (utf8.RuneSelf <=? at_ s (Z.to_nat k))); [|lia].
      destruct (skipn (Z.to_nat k) s) as [|b0 t'] eqn:Eu.
      - apply (f_equal (@length byte)) in Eu. rewrite length_skipn in Eu.
        cbn [length] in Eu. lia.
      - pose proof (DecodeRune_size b0 t') as Hsz.
        destruct (utf8.DecodeRuneInString (b0 :: t')) as [r wid]. cbn [snd] in Hsz. lia. }
    exists (skipn (Z.to_nat i) s). split; [symmetry; apply firstn_skipn|].
    replace (Z.to_nat i) with ((Z.to_nat i - (Z.to_nat k + 1)) + (Z.to_nat k + 1))%nat by lia.
    rewrite <- skipn_skipn. now apply junk_skipn.
Qed.

Lemma trimStop_parts (rs : list byte) :
  exists post, rev rs = strings.trimStop rs ++ post /\ Forall junk post.
Proof.
  induction rs as [|c rs IH].
  - exists []. split; [reflexivity|constructor].
  - cbn [strings.trimStop].
    destruct (utf8.RuneSelf <=? Z_of_byte c).
    + apply TrimRightFunc_parts.
    + destruct (strings.asciiSpace (Z_of_byte c)) eqn:Es.
      * destruct IH as (post & E & F).
        exists (post ++ [c]). split.
        -- cbn [rev]. rewrite E, app_assoc. reflexivity.
        -- apply Forall_app. split; [assumption|].
           constructor; [now apply asciiSpace_junk|constructor].
      * exists []. split; [now rewrite app_nil_r|constructor].
Qed.

(** [TrimSpace] takes a prefix and a suffix off its argument, and the
    alphabet filter would have dropped every byte of them. *)
Lemma TrimSpace_parts (s : gostring) :
  exists pre post,
    s = pre ++ strings.TrimSpace s ++ post /\ Forall junk pre /\ Forall junk post.
Proof.
  induction s as [|c s IH].
  - exists [], []. repeat split; constructor.
  - cbn [strings.TrimSpace].
    destruct (utf8.RuneSelf <=? Z_of_byte c).
    + unfold strings.TrimFunc.
      destruct (TrimLeftFunc_parts (c :: s)) as (pre & E1 & F1).
      destruct (TrimRightFunc_parts (strings.TrimLeftFunc (c :: s) unicode.IsSpace))
        as (post & E2 & F2).
      exists pre, post. split; [|auto].
      rewrite <- E2. exact E1.
    + destruct (strings.asciiSpace (Z_of_byte c)) eqn:Es.
      * destruct IH as (pre & post & E & F1 & F2).
        exists (c :: pre), post. split; [|split].
        -- cbn [app]. now rewrite <- E.
        -- constructor; [now apply asciiSpace_junk|assumption].
        -- assumption.
      * destruct (trimStop_parts (rev (c :: s))) as (post & E & F).
        rewrite rev_involutive in E.
        exists [], post. split; [exact E|]. split; [constructor|assumption].
Qed.

Lemma removeNonBase64_TrimSpace (s : gostring) :
  removeNonBase64 (strings.TrimSpace s) = removeNonBase64 s.
Proof.
  rewrite !removeNonBase64_filter.
  destruct (TrimSpace_parts s) as (pre & post & E & F1 & F2).
  rewrite E at 2.
  rewrite !filter_app, (filter_junk pre F1), (filter_junk post F2).
  now rewrite app_nil_r.
Qed.

(** A line of visible ASCII characters is left as it is. *)
Lemma trimStop_visible (c : byte) (rs : list byte) :
  visible c -> strings.trimStop (c :: rs) = rev (c :: rs).
Proof.
  intros [H1 H2]. cbn [strings.trimStop]. unfold utf8.RuneSelf.
  destruct (Z.leb_spec 128 (Z_of_byte c)); [lia|]. now rewrite H2.
Qed.

Lemma TrimSpace_visible (s : gostring) :
  Forall visible s -> strings.TrimSpace s = s.
Proof.
  intros H. destruct s as [|c s]; [reflexivity|].
  inversion H as [|? ? [H1 H2] Hs]; subst.
  cbn [strings.TrimSpace]. unfold utf8.RuneSelf.
  destruct (Z.leb_spec 128 (Z_of_byte c)); [lia|]. rewrite H2.
  assert (Hr : Forall visible (rev (c :: s))) by now apply Forall_rev.
  destruct (rev (c :: s)) as [|d rs] eqn:E.
  - apply (f_equal (@length byte)) in E. rewrite length_rev in E. discriminate.
  - inversion Hr; subst. rewrite trimStop_visible by assumption.
    rewrite <- E. apply rev_involutive.
Qed.

(** ** Traces of the engine *)

Lemma written_app (w evs : World) : written (w ++ evs) = written w ++ written evs.
Proof. unfold written. now rewrite flat_map_app. Qed.

Lemma diagnostics_app (w evs : World) :
  diagnostics (w ++ evs) = diagnostics w ++ diagnostics evs.
Proof. unfold diagnostics. now rewrite flat_map_app. Qed.

Lemma quiet_written (evs : list event) : quiet evs -> written evs = [].
Proof.
  induction 1 as [|e evs He Hq IH]; [reflexivity|].
  cbn. unfold written in IH. rewrite IH. destruct e; cbn in *; tauto.
Qed.

Lemma quiet_diagnostics (evs : list event) : quiet evs -> diagnostics evs = [].
Proof.
  induction 1 as [|e evs He Hq IH]; [reflexivity|].
  cbn. unfold diagnostics in IH. rewrite IH. destruct e; cbn in *; tauto.
Qed.

Lemma polls_quiet (evs : list event) : polls evs -> quiet evs.
Proof.
  intros H. eapply Forall_impl; [|exact H]. intros e ->. exact I.
Qed.

Lemma ctx_Err_Canceled (ctx : Context) (n : nat) :
  ctx_Err ctx n <> None -> ctx_Err ctx n = Some Canceled.
Proof.
  destruct ctx as [|t]; cbn; [congruence|]. destruct (t <=? n)%nat; congruence.
Qed.

(** The signal is one-way: what is not cancelled now was not cancelled
    before. *)
Lemma ctx_Err_earlier (ctx : Context) (m n : nat) :
  (m <= n)%nat -> ctx_Err ctx n = None -> ctx_Err ctx m = None.
Proof.
  destruct ctx as [|t]; cbn; [reflexivity|]. intros Hmn.
  destruct (Nat.leb_spec t n); [discriminate|].
  destruct (Nat.leb_spec t m); [lia|reflexivity].
Qed.

Lemma observes_app (ctx : Context) (w : World) (e1 e2 : list event) :
  observes ctx w (e1 ++ e2) -> observes ctx w e1 \/ observes ctx (w ++ e1) e2.
Proof.
  intros (n & Hn & Hc).
  destruct (Nat.lt_ge_cases n (length e1)) as [Hlt|Hge].
  - left. exists n. rewrite nth_error_app1 in Hn by assumption. auto.
  - right. exists (n - length e1)%nat.
    rewrite nth_error_app2 in Hn by assumption. split; [assumption|].
    unfold now in *. rewrite length_app.
    replace (length w + length e1 + (n - length e1))%nat with (length w + n)%nat by lia.
    assumption.
Qed.

Lemma observes_nil (ctx : Context) (w : World) : ~ observes ctx w [].
Proof. intros (n & Hn & _). destruct n; discriminate. Qed.

Lemma observes_quiet1 (ctx : Context) (w : World) (e : event) :
  e <> Poll -> ~ observes ctx w [e].
Proof.
  intros He (n & Hn & _). destruct n as [|n]; cbn in Hn; [congruence|].
  destruct n; discriminate.
Qed.

Lemma strict_ret (ctx : Context) (A : Type) (a : A) : strict ctx (ret a).
Proof.
  intros w. exists []. cbn. rewrite app_nil_r. repeat split; [constructor|].
  intros H. now apply observes_nil in H.
Qed.


Lemma strict_bind (ctx : Context) (A B : Type) (m : M A) (k : A -> M B) :
  strict ctx m -> (forall a, strict ctx (k a)) -> strict ctx (bind m k).
Proof.
  intros Hm Hk w. unfold bind.
  destruct (Hm w) as (e1 & E1 & Q1 & O1).
  destruct (m w) as [[a|e] w1]; cbn [fst snd] in *; subst w1.
  - destruct (Hk a (w ++ e1)) as (e2 & E2 & Q2 & O2).
    exists (e1 ++ e2). split; [now rewrite E2, app_assoc|].
    split; [now apply Forall_app|].
    intros H. apply observes_app in H. destruct H as [H|H].
    + apply O1 in H. discriminate.
    + now apply O2.
  - exists e1. split; [reflexivity|]. split; [assumption|].
    intros H. apply O1 in H. inversion H. reflexivity.
Qed.

Lemma strict_check (ctx : Context) : strict ctx (check ctx).
Proof.
  intros w. exists [Poll].
  unfold check, bind, CheckContextCancellation, fail, ret.
  destruct (ctx_Err ctx (now w)) as [e|] eqn:E; cbn [fst snd].
  - repeat split; [repeat constructor|]. intros _.
    assert (H : ctx_Err ctx (now w) <> None) by congruence.
    apply ctx_Err_Canceled in H. congruence.
  - repeat split; [repeat constructor|].
    intros (n & Hn & Hc). destruct n as [|n]; [|destruct n; discriminate].
    rewrite Nat.add_0_r in Hc. congruence.
Qed.


Lemma strict_if (ctx : Context) (A : Type) (b : bool) (m1 m2 : M A) :
  strict ctx m1 -> strict ctx m2 -> strict ctx (if b then m1 else m2).
Proof. now destruct b. Qed.

Lemma strict_rangeM (ctx : Context) (A : Type) (body : Z -> Z -> A -> M A) :
  (forall i r acc, strict ctx (body i r acc)) ->
  forall fuel i s acc, strict ctx (rangeM_from fuel body i s acc).
Proof.
  intros Hbody. induction fuel as [|fuel IH]; intros i s acc.
  - apply strict_ret.
  - destruct s as [|b0 t]; [apply strict_ret|].
    cbn [rangeM_from].
    destruct (utf8.DecodeRuneInString (b0 :: t)) as [r size].
    apply strict_bind; [apply Hbody|]. intros acc'. apply IH.
Qed.


Lemma strict_removeNonBase64WithContext (ctx : Context) (s : gostring) :
  strict ctx (removeNonBase64WithContext ctx s).
Proof.
  unfold removeNonBase64WithContext.
  apply strict_rangeM. intros i r acc.
  apply strict_bind; [|intros _; apply strict_ret].
  apply strict_if; [apply strict_check|apply strict_ret].
Qed.



















Lemma tame_ret (A : Type) (a : A) : tame (ret a).
Proof.
  intros w. exists []. cbn. rewrite app_nil_r.
  repeat split; [constructor|discriminate].
Qed.

Lemma tame_bind (A B : Type) (m : M A) (k : A -> M B) :
  tame m -> (forall a, tame (k a)) -> tame (bind m k).
Proof.
  intros Hm Hk w. unfold bind.
  destruct (Hm w) as (e1 & E1 & Q1 & O1).
  destruct (m w) as [[a|e] w1]; cbn [fst snd] in *; subst w1.
  - destruct (Hk a (w ++ e1)) as (e2 & E2 & Q2 & O2).
    exists (e1 ++ e2). split; [now rewrite E2, app_assoc|].
    split; [now apply Forall_app|assumption].
  - exists e1. split; [reflexivity|]. split; [assumption|].
    intros e' H. inversion H; subst. now apply O1.
Qed.

Lemma tame_check (ctx : Context) : tame (check ctx).
Proof.
  intros w. exists [Poll].
  cbv [check bind CheckContextCancellation fail ret].
  destruct (ctx_Err ctx (now w)) as [e|] eqn:E; cbn [fst snd].
  - repeat split; [repeat constructor|]. intros e' H. inversion H; subst.
    assert (H' : ctx_Err ctx (now w) <> None) by congruence.
    apply ctx_Err_Canceled in H'. congruence.
  - repeat split; [repeat constructor|discriminate].
Qed.

Lemma tame_if (A : Type) (b : bool) (m1 m2 : M A) :
  tame m1 -> tame m2 -> tame (if b then m1 else m2).
Proof. now destruct b. Qed.

Lemma tame_rangeM (A : Type) (body : Z -> Z -> A -> M A) :
  (forall i r acc, tame (body i r acc)) ->
  forall fuel i s acc, tame (rangeM_from fuel body i s acc).
Proof.
  intros Hbody. induction fuel as [|fuel IH]; intros i s acc.
  - apply tame_ret.
  - destruct s as [|b0 t]; [apply tame_ret|].
    cbn [rangeM_from].
    destruct (utf8.DecodeRuneInString (b0 :: t)) as [r size].
    apply tame_bind; [apply Hbody|]. intros acc'. apply IH.
Qed.

Lemma tame_removeNonBase64WithContext (ctx : Context) (s : gostring) :
  tame (removeNonBase64WithContext ctx s).
Proof.
  unfold removeNonBase64WithContext.
  apply tame_rangeM. intros i r acc.
  apply tame_bind; [|intros _; apply tame_ret].
  apply tame_if; [apply tame_check|apply tame_ret].
Qed.

Lemma tame_ScanWithContext (ctx : Context) (s : Scanner) :
  tame (ScanWithContext ctx s).
Proof.
  intros w. cbv [ScanWithContext bind CheckContextCancellation emit ret].
  destruct (ctx_Err ctx (now w)).
  - exists [Poll]. repeat split; [repeat constructor|discriminate].
  - exists [Poll; ScanCall]. rewrite <- app_assoc.
    repeat split; [repeat constructor|discriminate].
Qed.

Lemma tame_cleanLine (c : command) (ctx : Context) (text : gostring) :
  tame (cleanLine c ctx text).
Proof.
  unfold cleanLine.
  apply tame_if; [apply tame_removeNonBase64WithContext|apply tame_ret].
Qed.

Lemma tame_scanLoop (c : command) (ctx : Context) (fuel : nat) :
  forall scanner encodedData, tame (scanLoop c ctx fuel scanner encodedData).
Proof.
  induction fuel as [|fuel IH]; intros scanner encodedData; cbn [scanLoop].
  - apply tame_ret.
  - apply tame_bind; [apply tame_ScanWithContext|].
    intros [ok scanner']. destruct ok; [|apply tame_ret].
    apply tame_bind; [apply tame_cleanLine|]. intros line. apply IH.
Qed.

(** Among events that write nothing followed by one write, a poll is
    among the former. *)
Lemma observes_before (ctx : Context) (w : World) (evs : list event) (e : event) :
  e <> Poll -> observes ctx w (evs ++ [e]) -> observes ctx w evs.
Proof.
  intros He H. apply observes_app in H. destruct H as [H|H]; [assumption|].
  apply observes_quiet1 in H; [contradiction|assumption].
Qed.

(** If the last of the events is a poll that finds the signal active, no
    poll among them has found it cancelled. *)
Lemma not_observed (ctx : Context) (w : World) (evs : list event) :
  ctx_Err ctx (now (w ++ evs)) = None -> ~ observes ctx w (evs ++ [Poll]).
Proof.
  intros Hlast (n & Hn & Hc). apply Hc.
  apply (ctx_Err_earlier ctx _ (now (w ++ evs))); [|assumption].
  assert (n < length (evs ++ [Poll]))%nat by (apply nth_error_Some; congruence).
  unfold now. rewrite length_app in *. cbn [length] in *. lia.
Qed.

Ltac assoc_app :=
  repeat (rewrite <- app_assoc || (progress cbn [app])); reflexivity.

(** [decodeSource]: the same two facts. *)
Lemma decodeSource_trace (c : command) (ctx : Context) (reader : Reader) (w : World) :
  exists evs,
    snd (decodeSource c ctx reader w) = w ++ evs
    /\ (observes ctx w evs ->
        fst (decodeSource c ctx reader w) = Err Canceled /\ quiet evs)
    /\ (forall e, fst (decodeSource c ctx reader w) = Err e -> written evs = []).
Proof.
  unfold decodeSource.
  cbv [bind check CheckContextCancellation fail ret].
  destruct (ctx_Err ctx (now w)) as [e0|] eqn:E0.
  { exists [Poll].
    assert (H : ctx_Err ctx (now w) <> None) by congruence.
    apply ctx_Err_Canceled in H. rewrite E0 in H. inversion H; subst.
    repeat split; auto; repeat constructor. }
  set (scanner0 := NewScanner reader).
  destruct (tame_scanLoop c ctx (S (S (length (pending scanner0)))) scanner0 []
                          (w ++ [Poll])) as (e1 & E1 & Q1 & O1).
  destruct (scanLoop c ctx (S (S (length (pending scanner0)))) scanner0 [] (w ++ [Poll]))
    as [[[scanner encodedData]|e] w1]; cbn [fst snd] in *; subst w1.
  2:{ exists (Poll :: e1). replace ((w ++ [Poll]) ++ e1) with (w ++ Poll :: e1) by assoc_app.
      rewrite (O1 e eq_refl).
      repeat split; auto.
      - constructor; [exact I|assumption].
      - intros _ _. apply quiet_written. constructor; [exact I|assumption]. }
  destruct (ctx_Err ctx (now ((w ++ [Poll]) ++ e1))) as [e2|] eqn:E2.
  { exists (Poll :: e1 ++ [Poll]).
    assert (H : ctx_Err ctx (now ((w ++ [Poll]) ++ e1)) <> None) by congruence.
    apply ctx_Err_Canceled in H. rewrite E2 in H. inversion H; subst.
    assert (Q : quiet (Poll :: e1 ++ [Poll])).
    { constructor; [exact I|]. apply Forall_app. split; [assumption|repeat constructor]. }
    cbn [fst snd]. split; [assoc_app|].
    split; [auto|]. intros _ _. now apply quiet_written. }
  assert (Hno : forall tail, tail <> Poll ->
            ~ observes ctx w ((Poll :: e1 ++ [Poll]) ++ [tail])).
  { intros tail Ht H. apply observes_before in H; [|assumption].
    change (Poll :: e1 ++ [Poll]) with ((Poll :: e1) ++ [Poll]) in H.
    apply not_observed in H; [assumption|].
    change (w ++ Poll :: e1) with (w ++ [Poll] ++ e1). now rewrite app_assoc. }
  assert (Wq : written (Poll :: e1 ++ [Poll]) = []).
  { apply quiet_written. constructor; [exact I|].
    apply Forall_app. split; [assumption|repeat constructor]. }
  destruct (Scanner_Err scanner) as [err|].
  { exists ((Poll :: e1 ++ [Poll]) ++ [Stderr (str "base64: " ++ Error err ++ [NL])]).
    cbv [Fprintf_stderr emit]. cbn [fst snd].
    split; [assoc_app|]. split.
    - intros H. apply Hno in H; [contradiction|discriminate].
    - intros _ _. rewrite written_app, Wq. reflexivity. }
  destruct (base64.DecodeString encodedData) as [decoded [n|]].
  - exists ((Poll :: e1 ++ [Poll])
            ++ [Stderr (str "base64: " ++ Error (CorruptInput n) ++ [NL])]).
    cbv [Fprintf_stderr emit]. cbn [fst snd].
    split; [assoc_app|]. split.
    + intros H. apply Hno in H; [contradiction|discriminate].
    + intros _ _. rewrite written_app, Wq. reflexivity.
  - exists ((Poll :: e1 ++ [Poll]) ++ [Stdout decoded]).
    cbv [Write emit]. cbn [fst snd].
    split; [assoc_app|]. split.
    + intros H. apply Hno in H; [contradiction|discriminate].
    + discriminate.
Qed.

(** ** The engine when the signal never fires *)

Lemma keep_data (allData data : list byte) :
  (if (0 <? length data)%nat then allData ++ data else allData) = allData ++ data.
Proof.
  destruct data; cbn; [now rewrite app_nil_r|reflexivity].
Qed.

Lemma readAll_Background (reader : Reader) :
  forall (allData : list byte) (w : World),
    exists evs, quiet evs /\
      readAll Background reader allData w
      = (match snd (slurp reader) with
         | None => Ok (allData ++ fst (slurp reader))
         | Some msg => Err (ReadError msg)
         end, w ++ evs).
Proof.
  induction reader as [|[data err] reader IH]; intros allData w; cbn [readAll slurp].
  - exists [Poll; ReadCall]. split; [repeat constructor|].
    cbv [bind check CheckContextCancellation emit ret ctx_Err fst snd].
    now rewrite app_nil_r, <- app_assoc.
  - rewrite keep_data.
    cbv [bind check CheckContextCancellation emit ret fail ctx_Err].
    destruct err.
    + destruct (IH (allData ++ data) ((w ++ [Poll]) ++ [ReadCall])) as (evs & Q & E).
      exists ([Poll; ReadCall] ++ evs). split.
      * apply Forall_app. split; [repeat constructor|assumption].
      * rewrite E. destruct (slurp reader) as [d e]. cbn [fst snd].
        rewrite <- !app_assoc. reflexivity.
    + exists [Poll; ReadCall]. split; [repeat constructor|].
      cbn [fst snd]. now rewrite <- app_assoc.
    + exists [Poll; ReadCall]. split; [repeat constructor|].
      cbn [fst snd]. now rewrite <- app_assoc.
Qed.

Lemma encodeSource_Background (c : command) (reader : Reader) (w : World) :
  exists evs, quiet evs /\
    encodeSource c Background reader w
    = match snd (slurp reader) with
      | None => (Ok tt, w ++ evs ++ [Stdout (encoded c (fst (slurp reader)))])
      | Some msg => (Err (ReadError msg), w ++ evs)
      end.
Proof.
  unfold encodeSource, encoded.
  unfold bind at 1. rewrite check_Background.
  unfold bind at 1.
  destruct (readAll_Background reader [] (w ++ [Poll])) as (e1 & Q1 & ->).
  destruct (slurp reader) as [data [msg|]]; cbn [fst snd app].
  - exists (Poll :: e1). split; [constructor; [exact I|assumption]|].
    now rewrite <- app_assoc.
  - replace ((Wrap (flags c) || (0 <? WrapWidth (flags c)))
             && (0 <? WrapWidth (flags c)))
      with (0 <? WrapWidth (flags c))
      by (destruct (Wrap (flags c)), (0 <? WrapWidth (flags c)); reflexivity).
    unfold bind, Fprintln, emit.
    destruct (0 <? WrapWidth (flags c)).
    + destruct (wrapStringWithContext_Background
                  (base64.EncodeToString data) (WrapWidth (flags c))
                  ((w ++ [Poll]) ++ e1)) as (e2 & P2 & ->).
      exists (Poll :: e1 ++ e2). split.
      * constructor; [exact I|]. apply Forall_app. split; [assumption|].
        now apply polls_quiet.
      * f_equal. repeat (rewrite <- app_assoc || (progress cbn [app])). reflexivity.
    + unfold ret. exists (Poll :: e1). split; [constructor; [exact I|assumption]|].
      f_equal. repeat (rewrite <- app_assoc || (progress cbn [app])). reflexivity.
Qed.

Lemma cleanLine_Background (c : command) (text : gostring) (w : World) :
  exists evs, quiet evs /\
    cleanLine c Background text w = (Ok (cleaned c text), w ++ evs).
Proof.
  unfold cleanLine, cleaned. destruct (IgnoreGarbage (flags c)).
  - destruct (removeNonBase64WithContext_Background (strings.TrimSpace text) w)
      as (evs & P & ->).
    exists evs. split; [now apply polls_quiet|reflexivity].
  - exists []. split; [constructor|]. unfold ret. now rewrite app_nil_r.
Qed.

Lemma scanLoop_Background (c : command) (fuel : nat) :
  forall (scanner : Scanner) (encodedData : Builder) (w : World),
    exists evs, quiet evs /\
      scanLoop c Background fuel scanner encodedData w
      = (Ok (snd (scanAll fuel scanner),
             encodedData ++ concat (map (cleaned c) (fst (scanAll fuel scanner)))),
         w ++ evs).
Proof.
  induction fuel as [|fuel IH]; intros scanner encodedData w; cbn [scanLoop scanAll].
  - exists []. split; [constructor|]. cbn. unfold ret. now rewrite !app_nil_r.
  - cbv [bind ScanWithContext CheckContextCancellation emit ret ctx_Err].
    destruct (Scan scanner) as [ok scanner'].
    destruct ok.
    + destruct (cleanLine_Background c (Text scanner') ((w ++ [Poll]) ++ [ScanCall]))
        as (e1 & Q1 & ->).
      destruct (IH scanner' (WriteString encodedData (cleaned c (Text scanner')))
                   (((w ++ [Poll]) ++ [ScanCall]) ++ e1)) as (e2 & Q2 & ->).
      destruct (scanAll fuel scanner') as [lines s'']. cbn [fst snd map concat].
      exists ([Poll; ScanCall] ++ e1 ++ e2). split.
      * apply Forall_app. split; [repeat constructor|now apply Forall_app].
      * unfold WriteString. rewrite <- !app_assoc. reflexivity.
    + exists [Poll; ScanCall]. split; [repeat constructor|].
      cbn [fst snd map concat]. now rewrite app_nil_r, <- app_assoc.
Qed.

Lemma decodeSource_Background (c : command) (reader : Reader) (w : World) :
  exists evs, quiet evs /\
    decodeSource c Background reader w
    = match scanError reader with
      | Some err =>
        (Err err, w ++ evs ++ [Stderr (str "base64: " ++ Error err ++ [NL])])
      | None =>
        match base64.DecodeString (processedText c reader) with
        | (_, Some n) =>
          (Err (CorruptInput n),
           w ++ evs ++ [Stderr (str "base64: " ++ Error (CorruptInput n) ++ [NL])])
        | (decoded, None) => (Ok tt, w ++ evs ++ [Stdout decoded])
        end
      end.
Proof.
  unfold decodeSource, scanError, processedText, scanned.
  unfold bind at 1. rewrite check_Background.
  unfold bind at 1.
  destruct (scanLoop_Background c (S (S (length (pending (NewScanner reader)))))
              (NewScanner reader) [] (w ++ [Poll])) as (e1 & Q1 & ->).
  cbn [app].
  destruct (scanAll (S (S (length (pending (NewScanner reader))))) (NewScanner reader))
    as [lines scanner]. cbn [fst snd].
  unfold bind at 1. rewrite check_Background.
  exists (Poll :: e1 ++ [Poll]). split.
  { constructor; [exact I|]. apply Forall_app. split; [assumption|repeat constructor]. }
  destruct (Scanner_Err scanner) as [err|].
  - cbv [bind Fprintf_stderr emit fail]. f_equal.
    repeat (rewrite <- app_assoc || (progress cbn [app])). reflexivity.
  - destruct (base64.DecodeString (concat (map (cleaned c) lines))) as [decoded [n|]].
    + cbv [bind Fprintf_stderr emit fail]. f_equal.
      repeat (rewrite <- app_assoc || (progress cbn [app])). reflexivity.
    + cbv [Write emit]. f_equal.
      repeat (rewrite <- app_assoc || (progress cbn [app])). reflexivity.
Qed.

(** ** Scanning what the encoder wrote *)

Lemma encodedChar_encode (v : Z) : 0 <= v < 64 -> encodedChar (base64.encode v) = true.
Proof. revert v. apply enum64. vm_compute. reflexivity. Qed.

Lemma encodedChar_pad : encodedChar base64.StdPadding = true.
Proof. reflexivity. Qed.

Lemma EncodeToString_chars (data : list byte) :
  Forall (fun c => encodedChar c = true) (base64.EncodeToString data).
Proof.
  induction data as [|b0|b0 b1|b0 b1 b2 data IH] using list_ind3;
    cbn [base64.EncodeToString];
    repeat (constructor;
            [first [apply encodedChar_pad | apply encodedChar_encode, sextet_range]|]);
    try assumption; constructor.
Qed.

Lemma encodedChar_facts (c : byte) :
  encodedChar c = true ->
  isBase64Byte c = true /\ visible c /\ c <> NL /\ c <> CR.
Proof.
  unfold encodedChar, visible. intros H.
  repeat (apply andb_true_iff in H; destruct H as [H ?]).
  repeat match goal with
         | E : negb _ = true |- _ => apply negb_true_iff in E
         end.
  repeat split; auto.
  - now apply Z.ltb_lt.
  - now apply byte_eqb_neq.
  - now apply byte_eqb_neq.
Qed.

Lemma cutLine_line (l rest : list byte) :
  Forall (fun c => encodedChar c = true) l ->
  cutLine (l ++ NL :: rest) = Some (l, rest).
Proof.
  induction 1 as [|c l Hc Hl IH]; cbn [app cutLine].
  - now rewrite byte_eqb_refl.
  - apply encodedChar_facts in Hc. destruct Hc as (_ & _ & Hc & _).
    apply byte_eqb_neq in Hc. rewrite Hc, IH. reflexivity.
Qed.

Lemma dropCR_line (l : list byte) :
  Forall (fun c => encodedChar c = true) l -> dropCR l = l.
Proof.
  intros H. unfold dropCR.
  destruct (rev l) as [|c r] eqn:E; [reflexivity|].
  assert (Hc : encodedChar c = true).
  { apply Forall_rev in H. rewrite E in H. now inversion H. }
  apply encodedChar_facts in Hc. destruct Hc as (_ & _ & _ & Hc).
  apply byte_eqb_neq in Hc. now rewrite Hc.
Qed.

Lemma scanAll_lines (lines : list gostring) :
  forall (fuel : nat) (tok : gostring),
    Forall scannable lines ->
    (length lines < fuel)%nat ->
    scanAll fuel {| pending := concat (map (fun l => l ++ [NL]) lines);
                    src_err := None; token := tok; sc_err := None |}
    = (lines, {| pending := []; src_err := None; token := []; sc_err := None |}).
Proof.
  induction lines as [|l lines IH]; intros fuel tok Hl Hfuel.
  - destruct fuel as [|fuel]; [cbn [length] in Hfuel; lia|]. reflexivity.
  - destruct fuel as [|fuel]; [lia|].
    inversion Hl as [|? ? [Hc Hlen] Hls]; subst.
    cbn [scanAll map concat]. unfold Scan. cbn [sc_err pending src_err].
    rewrite <- app_assoc. cbn [app].
    destruct (l ++ NL :: concat (map (fun l0 => l0 ++ [NL]) lines)) as [|x xs] eqn:E.
    { destruct l; discriminate. }
    rewrite <- E. rewrite cutLine_line by assumption.
    destruct (Nat.leb_spec MaxScanTokenSize (length l)); [lia|].
    rewrite dropCR_line by assumption.
    rewrite IH by (cbn [length] in Hfuel; auto; lia).
    reflexivity.
Qed.

Lemma glue_lines (ls : list gostring) :
  concat (map (fun x => [NL] ++ x) ls) ++ [NL]
  = [NL] ++ concat (map (fun x => x ++ [NL]) ls).
Proof.
  induction ls as [|l ls IH]; [reflexivity|].
  cbn [map concat]. rewrite <- !app_assoc. rewrite IH. reflexivity.
Qed.

Lemma join_lines (l : gostring) (ls : list gostring) :
  join [NL] (l :: ls) ++ [NL] = concat (map (fun x => x ++ [NL]) (l :: ls)).
Proof.
  cbn [join map concat]. rewrite <- !app_assoc. now rewrite glue_lines.
Qed.

Lemma segments_chars (P : byte -> Prop) (n : nat) (s : gostring) :
  (0 < n)%nat -> Forall P s -> Forall (Forall P) (segments n s).
Proof.
  intros Hn. induction s as [|b t IH] using (segments_ind n Hn); intros H.
  - constructor.
  - rewrite segments_cons by assumption.
    rewrite <- (firstn_skipn n (b :: t)) in H. apply Forall_app in H.
    destruct H as [H1 H2]. constructor; auto.
Qed.

Lemma outputLines_concat (width : Z) (e : gostring) :
  concat (outputLines width e) = e.
Proof.
  unfold outputLines. destruct (Z.ltb_spec 0 width).
  - pose proof (concat_segments (Z.to_nat width) e ltac:(lia)) as Hcat.
    destruct (segments (Z.to_nat width) e); [|assumption].
    cbn in *. now rewrite <- Hcat.
  - cbn. apply app_nil_r.
Qed.

Lemma encoded_lines (c : command) (data : list byte) :
  encoded c data
  = concat (map (fun l => l ++ [NL])
                (outputLines (WrapWidth (flags c)) (base64.EncodeToString data))).
Proof.
  unfold encoded, outputLines.
  pose proof (EncodeToString_chars data) as Hc.
  destruct (Z.ltb_spec 0 (WrapWidth (flags c))) as [Hw|Hw].
  - rewrite wrapString_singleByte; [|assumption|].
    2:{ eapply Forall_impl; [|exact Hc]. intros b Hb.
        apply encodedChar_facts in Hb. destruct Hb as (_ & [Hb _] & _). exact Hb. }
    pose proof (breaks_segments (WrapWidth (flags c)) (base64.EncodeToString data)
                                Hw 0 ltac:(lia)) as Hb.
    cbn [Z.mul Z.ltb Z.compare] in Hb. rewrite Hb.
    destruct (segments (Z.to_nat (WrapWidth (flags c))) (base64.EncodeToString data))
      as [|l ls].
    + reflexivity.
    + apply join_lines.
  - cbn. now rewrite app_nil_r.
Qed.

Lemma outputLines_scannable (width : Z) (e : gostring) :
  Forall (fun c => encodedChar c = true) e ->
  (0 < width < Z.of_nat MaxScanTokenSize
   \/ width <= 0 /\ (length e < MaxScanTokenSize)%nat) ->
  Forall scannable (outputLines width e).
Proof.
  intros Hc Hw. unfold outputLines.
  destruct (Z.ltb_spec 0 width) as [Hpos|Hneg].
  - destruct Hw as [Hw|[Hw _]]; [|lia].
    pose proof (segments_chars _ (Z.to_nat width) e ltac:(lia) Hc) as H1.
    pose proof (segments_lengths (Z.to_nat width) e ltac:(lia)) as H2.
    destruct (segments (Z.to_nat width) e) as [|l ls].
    + constructor; [|constructor]. split; [constructor|].
      unfold MaxScanTokenSize. cbn [length]. lia.
    + rewrite Forall_forall in *. intros x Hx. split; [now apply H1|].
      specialize (H2 x Hx). cbn beta in H2. lia.
  - destruct Hw as [Hw|[_ Hw]]; [lia|].
    constructor; [split; assumption|constructor].
Qed.

Lemma cleaned_line (c : command) (l : gostring) :
  Forall (fun c => encodedChar c = true) l -> cleaned c l = l.
Proof.
  intros H. unfold cleaned.
  assert (Hv : Forall visible l).
  { eapply Forall_impl; [|exact H]. intros b Hb. now apply encodedChar_facts in Hb. }
  rewrite (TrimSpace_visible l Hv).
  destruct (IgnoreGarbage (flags c)); [|reflexivity].
  rewrite removeNonBase64_filter. apply filter_all.
  eapply Forall_impl; [|exact H]. intros b Hb. now apply encodedChar_facts in Hb.
Qed.

Lemma outputLines_length (width : Z) (e : gostring) :
  (length (outputLines width e)
   <= S (length (concat (map (fun l => l ++ [NL]) (outputLines width e)))))%nat.
Proof.
  generalize (outputLines width e). intros ls.
  induction ls as [|l ls IH]; cbn [map concat length]; [lia|].
  rewrite !length_app. cbn [length]. lia.
Qed.

(** The decoder, fed what the encoder wrote for [data], writes [data]. *)
Lemma decode_encoded (ce cd : command) (data : list byte) (reader : Reader) (w : World) :
  (0 < WrapWidth (flags ce) < Z.of_nat MaxScanTokenSize
   \/ WrapWidth (flags ce) <= 0
      /\ (length (base64.EncodeToString data) < MaxScanTokenSize)%nat) ->
  drain reader 0 = (encoded ce data, None) ->
  exists evs, quiet evs /\
    decodeSource cd Background reader w = (Ok tt, w ++ evs ++ [Stdout data]).
Proof.
  intros Hw Hr.
  destruct (decodeSource_Background cd reader w) as (evs & Q & E).
  exists evs. split; [assumption|]. rewrite E. clear E.
  pose proof (EncodeToString_chars data) as Hc.
  pose proof (outputLines_scannable _ _ Hc Hw) as Hs.
  assert (Hscan : scanned reader
            = (outputLines (WrapWidth (flags ce)) (base64.EncodeToString data),
               {| pending := []; src_err := None; token := []; sc_err := None |})).
  { unfold scanned, NewScanner. rewrite Hr. cbn [pending].
    rewrite encoded_lines. apply scanAll_lines; [assumption|].
    pose proof (outputLines_length (WrapWidth (flags ce)) (base64.EncodeToString data)).
    lia. }
  unfold scanError, processedText. rewrite Hscan. cbn [fst snd Scanner_Err sc_err].
  assert (Htext : concat (map (cleaned cd)
                    (outputLines (WrapWidth (flags ce)) (base64.EncodeToString data)))
                  = base64.EncodeToString data).
  { rewrite <- (outputLines_concat (WrapWidth (flags ce)) (base64.EncodeToString data)) at 2.
    f_equal. rewrite <- (map_id (outputLines _ _)) at 2.
    apply map_ext_in. intros l Hl. apply cleaned_line.
    rewrite Forall_forall in Hs. now apply Hs. }
  rewrite Htext, DecodeString_EncodeToString. reflexivity.
Qed.

(** ** The loops run to their end *)

(** [length s] iterations are enough for [range]: more change nothing. *)
Lemma range_from_enough (A : Type) (body : Z -> Z -> A -> A) (fuel1 : nat) :
  forall (fuel2 : nat) (i : Z) (s : gostring) (acc : A),
    (length s <= fuel1)%nat -> (length s <= fuel2)%nat ->
    range_from fuel1 body i s acc = range_from fuel2 body i s acc.
Proof.
  induction fuel1 as [|fuel1 IH]; intros fuel2 i s acc H1 H2.
  - destruct s; [|cbn [length] in H1; lia]. destruct fuel2; reflexivity.
  - destruct s as [|b0 t]; [destruct fuel2; reflexivity|].
    destruct fuel2 as [|fuel2]; [cbn [length] in H2; lia|].
    cbn [range_from].
    pose proof (DecodeRune_size b0 t) as Hsz.
    destruct (utf8.DecodeRuneInString (b0 :: t)) as [r size]. cbn [snd] in Hsz.
    apply IH; rewrite length_skipn; cbn [length] in *; lia.
Qed.

Lemma rangeM_from_enough (A : Type) (body : Z -> Z -> A -> M A) (fuel1 : nat) :
  forall (fuel2 : nat) (i : Z) (s : gostring) (acc : A) (w : World),
    (length s <= fuel1)%nat -> (length s <= fuel2)%nat ->
    rangeM_from fuel1 body i s acc w = rangeM_from fuel2 body i s acc w.
Proof.
  induction fuel1 as [|fuel1 IH]; intros fuel2 i s acc w H1 H2.
  - destruct s; [|cbn [length] in H1; lia]. destruct fuel2; reflexivity.
  - destruct s as [|b0 t]; [destruct fuel2; reflexivity|].
    destruct fuel2 as [|fuel2]; [cbn [length] in H2; lia|].
    cbn [rangeM_from].
    pose proof (DecodeRune_size b0 t) as Hsz.
    destruct (utf8.DecodeRuneInString (b0 :: t)) as [r size]. cbn [snd] in Hsz.
    unfold bind. destruct (body i r acc w) as [[acc'|e] w']; [|reflexivity].
    apply IH; rewrite length_skipn; cbn [length] in *; lia.
Qed.

(** A call of [decodeQuantum] that reports no error on a source that is
    not exhausted leaves less of it. *)
Lemma quantum_progress (len : Z) (c : byte) (rest : list byte) (si : Z) :
  si + Z.of_nat (length (c :: rest)) = len ->
  base64.q_err (base64.decodeQuantum len (c :: rest) si) = None ->
  (length (base64.q_rest (base64.decodeQuantum len (c :: rest) si))
   < length (c :: rest))%nat
  /\ base64.q_nsi (base64.decodeQuantum len (c :: rest) si)
     + Z.of_nat (length (base64.q_rest (base64.decodeQuantum len (c :: rest) si)))
     = len.
Proof.
  intros Hlen Herr.
  pose proof (quantum_ok len (c :: rest) si 0 [] ltac:(lia) Hlen) as Hq.
  cbv zeta in Hq. fold (base64.decodeQuantum len (c :: rest) si) in Hq.
  destruct (Hq Herr) as (I1 & I2 & cs & _ & Hcase).
  split; [|assumption].
  destruct Hcase as [(_ & _ & H)|[(_ & _ & _ & H)|[(_ & _ & H)|(_ & _ & H)]]].
  - apply H. lia.
  - rewrite H. cbn [length]. lia.
  - rewrite H. cbn [length]. lia.
  - rewrite H. cbn [length]. lia.
Qed.

(** [length src] iterations are enough for [Decode]. *)
Lemma Decode_from_enough (len : Z) (fuel1 : nat) :
  forall (fuel2 : nat) (rest : list byte) (si : Z) (dst : list byte),
    (length rest <= fuel1)%nat -> (length rest <= fuel2)%nat ->
    si + Z.of_nat (length rest) = len ->
    base64.Decode_from fuel1 len rest si dst = base64.Decode_from fuel2 len rest si dst.
Proof.
  induction fuel1 as [|fuel1 IH]; intros fuel2 rest si dst H1 H2 Hlen.
  - destruct rest; [|cbn [length] in H1; lia]. destruct fuel2; reflexivity.
  - destruct rest as [|c rest]; [destruct fuel2; reflexivity|].
    destruct fuel2 as [|fuel2]; [cbn [length] in H2; lia|].
    cbn [base64.Decode_from].
    pose proof (quantum_progress len c rest si Hlen) as Hp.
    destruct (base64.q_err (base64.decodeQuantum len (c :: rest) si)); [reflexivity|].
    destruct (Hp eq_refl) as [Hlt Hinv].
    apply IH; [lia|lia|assumption].
Qed.

(** A scan that succeeds takes at least one byte off the pending input. *)
Lemma cutLine_length (data line rest : list byte) :
  cutLine data = Some (line, rest) -> (length rest < length data)%nat.
Proof.
  revert line rest. induction data as [|c data IH]; intros line rest H;
    cbn [cutLine] in H; [discriminate|].
  destruct (byte_eqb c NL).
  - inversion H; subst. cbn [length]. lia.
  - destruct (cutLine data) as [[l r]|]; [|discriminate].
    inversion H; subst. specialize (IH l rest eq_refl). cbn [length]. lia.
Qed.

Lemma Scan_progress (s s' : Scanner) :
  Scan s = (true, s') -> (length (pending s') < length (pending s))%nat.
Proof.
  unfold Scan. destruct (sc_err s); [discriminate|].
  destruct (pending s) as [|c data] eqn:Ep; [discriminate|].
  destruct (cutLine (c :: data)) as [[line rest]|] eqn:Ec.
  - destruct (MaxScanTokenSize <=? length line)%nat; [discriminate|].
    intros H. inversion H; subst. cbn [pending].
    now apply cutLine_length in Ec.
  - destruct (MaxScanTokenSize <=? length (c :: data))%nat; [discriminate|].
    intros H. inversion H; subst. cbn [pending length]. lia.
Qed.

(** One iteration more than there are pending bytes is enough for the
    scan loop, whatever the signal does. *)
Lemma scanLoop_enough (c : command) (ctx : Context) (fuel1 : nat) :
  forall (fuel2 : nat) (scanner : Scanner) (encodedData : Builder) (w : World),
    (length (pending scanner) < fuel1)%nat ->
    (length (pending scanner) < fuel2)%nat ->
    scanLoop c ctx fuel1 scanner encodedData w
    = scanLoop c ctx fuel2 scanner encodedData w.
Proof.
  induction fuel1 as [|fuel1 IH]; intros fuel2 scanner encodedData w H1 H2; [lia|].
  destruct fuel2 as [|fuel2]; [lia|].
  cbn [scanLoop]. unfold bind at 1. unfold bind at 2.
  cbv [ScanWithContext bind CheckContextCancellation emit ret].
  destruct (ctx_Err ctx (now w)); [reflexivity|].
  destruct (Scan scanner) as [ok scanner'] eqn:Es.
  destruct ok; [|reflexivity].
  apply Scan_progress in Es.
  destruct (cleanLine c ctx (Text scanner') ((w ++ [Poll]) ++ [ScanCall]))
    as [[line|e] w']; [|reflexivity].
  apply IH; lia.
Qed.

Lemma indexFunc_from_enough (f : Z -> bool) (truth : bool) (fuel1 : nat) :
  forall (fuel2 : nat) (i : Z) (s : gostring),
    (length s <= fuel1)%nat -> (length s <= fuel2)%nat ->
    strings.indexFunc_from fuel1 f truth i s = strings.indexFunc_from fuel2 f truth i s.
Proof.
  induction fuel1 as [|fuel1 IH]; intros fuel2 i s H1 H2.
  - destruct s; [|cbn [length] in H1; lia]. destruct fuel2; reflexivity.
  - destruct s as [|b0 t]; [destruct fuel2; reflexivity|].
    destruct fuel2 as [|fuel2]; [cbn [length] in H2; lia|].
    cbn [strings.indexFunc_from].
    pose proof (DecodeRune_size b0 t) as Hsz.
    destruct (utf8.DecodeRuneInString (b0 :: t)) as [r size]. cbn [snd] in Hsz.
    destruct (Bool.eqb (f r) truth); [reflexivity|].
    apply IH; rewrite length_skipn; cbn [length] in *; lia.
Qed.

Lemma DecodeLastRune_size (t : gostring) :
  t <> [] ->
  (1 <= snd (utf8.DecodeLastRuneInString t) <= length t)%nat.
Proof.
  intros Ht. pose proof (DecodeLastRune_space t Ht) as H.
  destruct (utf8.DecodeLastRuneInString t) as [r size]. cbn [snd]. tauto.
Qed.

Lemma lastIndexFunc_from_enough (s : gostring) (f : Z -> bool) (truth : bool)
      (fuel1 : nat) :
  forall (fuel2 i : nat),
    (i <= length s)%nat -> (i <= fuel1)%nat -> (i <= fuel2)%nat ->
    strings.lastIndexFunc_from fuel1 s f truth i
    = strings.lastIndexFunc_from fuel2 s f truth i.
Proof.
  induction fuel1 as [|fuel1 IH]; intros fuel2 i Hi H1 H2.
  - assert (i = 0%nat) by lia. subst i. destruct fuel2; reflexivity.
  - destruct fuel2 as [|fuel2].
    + assert (i = 0%nat) by lia. subst i. reflexivity.
    + cbn [strings.lastIndexFunc_from].
      destruct (Nat.eqb_spec i 0); [reflexivity|].
      assert (Ht : firstn i s <> []).
      { intros E. apply (f_equal (@length byte)) in E.
        rewrite length_firstn in E. cbn [length] in E. lia. }
      pose proof (DecodeLastRune_size (firstn i s) Ht) as Hsz.
      rewrite length_firstn in Hsz.
      destruct (utf8.DecodeLastRuneInString (firstn i s)) as [r size].
      cbn [snd] in Hsz.
      destruct (Bool.eqb (f r) truth); [reflexivity|].
      apply IH; lia.
Qed.

(** With a positive width the wrap loop of [Executor] stops by itself:
    one iteration more than there are bytes left is enough. *)
Lemma wrapLoop_enough (encoded : gostring) (width : Z) (fuel1 : nat) :
  0 < width ->
  forall (fuel2 : nat) (i : Z) (wrapped : Builder),
    0 <= i ->
    Z.of_nat (length encoded) - i < Z.of_nat fuel1 ->
    Z.of_nat (length encoded) - i < Z.of_nat fuel2 ->
    wrapLoop fuel1 encoded width i wrapped = wrapLoop fuel2 encoded width i wrapped.
Proof.
  intros Hw. induction fuel1 as [|fuel1 IH]; intros fuel2 i wrapped Hi H1 H2.
  - destruct fuel2 as [|fuel2]; [reflexivity|].
    cbn [wrapLoop]. destruct (Z.ltb_spec i (Z.of_nat (length encoded))); [lia|].
    reflexivity.
  - destruct fuel2 as [|fuel2].
    + cbn [wrapLoop]. destruct (Z.ltb_spec i (Z.of_nat (length encoded))); [lia|].
      reflexivity.
    + cbn [wrapLoop].
      destruct (Z.ltb_spec i (Z.of_nat (length encoded))); [|reflexivity].
      destruct ((i <? 0)
                || ((if Z.of_nat (length encoded) <? i + width
                     then Z.of_nat (length encoded) else i + width) <? i));
        [reflexivity|].
      apply IH; lia.
Qed.

(** ** The scenarios of the specification and of the tests *)

Example encode_hello_world :
  written (snd (encodeSource (Base64 []) Background (NewReader chunkSize (str "Hello World")) start))
  = str "SGVsbG8gV29ybGQ=" ++ [NL].
Proof. vm_compute. reflexivity. Qed.

Example decode_hello_world :
  decodeSource (Base64 [DecodeFlag true]) Background (NewReader chunkSize (str "SGVsbG8gV29ybGQ=")) start
  = (Ok tt, [Poll; Poll; ScanCall; Poll; ScanCall; Poll; Stdout (str "Hello World")]).
Proof. vm_compute. reflexivity. Qed.

Example encode_wrapped_at_20 :
  written (snd (encodeSource (Base64 [WrapWidthOpt 20]) Background
                        (NewReader chunkSize (str "This is a longer string that will be wrapped"))
                        start))
  = str "VGhpcyBpcyBhIGxvbmdl" ++ [NL]
    ++ str "ciBzdHJpbmcgdGhhdCB3" ++ [NL]
    ++ str "aWxsIGJlIHdyYXBwZWQ=" ++ [NL].
Proof. vm_compute. reflexivity. Qed.

Example decode_invalid_base64 :
  fst (decodeSource (Base64 [DecodeFlag true]) Background
               (NewReader chunkSize (str "invalid base64!")) start)
  = Err (CorruptInput 7).
Proof. vm_compute. reflexivity. Qed.

Example decode_unpadded :
  fst (decodeSource (Base64 [DecodeFlag true]) Background (NewReader chunkSize (str "SGVsbG8")) start)
  = Err (CorruptInput 4)
  /\ diagnostics (snd (decodeSource (Base64 [DecodeFlag true]) Background
                               (NewReader chunkSize (str "SGVsbG8")) start))
     = str "base64: illegal base64 data at input byte 4" ++ [NL].
Proof. vm_compute. split; reflexivity. Qed.

Example decode_with_whitespace :
  written (snd (decodeSource (Base64 [DecodeFlag true]) Background
                        (NewReader chunkSize (str "  aGVsbG8=  ")) start))
  = str "hello".
Proof. vm_compute. reflexivity. Qed.

(** ** A line that the scanner cannot hold *)

Lemma EncodeToString_length (data : list byte) :
  Z.of_nat (length (base64.EncodeToString data))
  = 4 * ((Z.of_nat (length data) + 2) / 3).
Proof.
  induction data as [|b0|b0 b1|b0 b1 b2 data IH] using list_ind3;
    cbn [base64.EncodeToString length]; try reflexivity.
  rewrite !Nat2Z.inj_succ, IH. Z.div_mod_to_equations. lia.
Qed.

(** Without wrapping the encoded text is one line, and 48 KiB of data
    make it too long for the scanner of [decodeSource]: what
    [encodeSource] writes under a width that is not positive, as the
    constructor leaves a negative one, is then not decoded. *)
Lemma unwrapped_line_too_long (ce cd : command) (data : list byte)
      (reader : Reader) (w : World) :
  WrapWidth (flags ce) <= 0 ->
  49152 <= Z.of_nat (length data) ->
  drain reader 0 = (encoded ce data, None) ->
  fst (decodeSource cd Background reader w) = Err ErrTooLong
  /\ written (snd (decodeSource cd Background reader w)) = written w.
Proof.
  intros Hw Hlen Hr.
  assert (Hlong : (MaxScanTokenSize <= length (base64.EncodeToString data))%nat).
  { pose proof (EncodeToString_length data) as Hl. unfold MaxScanTokenSize.
    assert (16384 <= (Z.of_nat (length data) + 2) / 3)
      by (Z.div_mod_to_equations; lia).
    lia. }
  assert (He : encoded ce data = base64.EncodeToString data ++ [NL]).
  { unfold encoded. destruct (Z.ltb_spec 0 (WrapWidth (flags ce))); [lia|reflexivity]. }
  assert (Hscan : scanError reader = Some ErrTooLong).
  { unfold scanError, scanned, NewScanner. rewrite Hr, He.
    cbn [pending scanAll]. unfold Scan. cbn [sc_err pending src_err].
    destruct (base64.EncodeToString data ++ [NL]) as [|x xs] eqn:E.
    { destruct (base64.EncodeToString data); discriminate. }
    rewrite <- E. rewrite cutLine_line by apply EncodeToString_chars.
    destruct (Nat.leb_spec MaxScanTokenSize (length (base64.EncodeToString data)));
      [reflexivity|lia]. }
  destruct (decodeSource_Background cd reader w) as (evs & Q & E).
  rewrite Hscan in E. rewrite E. cbn [fst snd]. split; [reflexivity|].
  rewrite !written_app, (quiet_written evs Q). cbn. now rewrite !app_nil_r.
Qed.

(** ** Decoding a rune, by cases *)









(** ** White space at the two ends of a string *)




Lemma leadingSpace_nil : leadingSpace [] = false.
Proof. reflexivity. Qed.

Lemma trailingSpace_nil : trailingSpace [] = false.
Proof. reflexivity. Qed.















(** ** Beyond the line that the scanner can hold *)


(* ================================================================= *)
(** * The claims *)







(** C3, as it is stated, fails: the decoder of the library skips line
    feeds and carriage returns.  A line with a carriage return inside is
    not padded base64, and yet it is decoded and written. *)
Lemma decode_accepts_interior_CR :
  processedText (Base64 [DecodeFlag true])
                [(str "SGVs" ++ [CR] ++ str "bG8=", rnil)]
  = str "SGVs" ++ [CR] ++ str "bG8="
  /\ validPadded (str "SGVs" ++ [CR] ++ str "bG8=") = false
  /\ fst (decodeSource (Base64 [DecodeFlag true]) Background
                       [(str "SGVs" ++ [CR] ++ str "bG8=", rnil)] start)
     = Ok tt
  /\ written (snd (decodeSource (Base64 [DecodeFlag true]) Background
                                [(str "SGVs" ++ [CR] ++ str "bG8=", rnil)] start))
     = str "Hello".
Proof. vm_compute. repeat split; reflexivity. Qed.

(** C3, amended.  When the text that [decodeSource] has gathered from
    its source, line feeds and carriage returns left out, is not padded
    base64, the invocation writes one message to the error channel,
    returns the error of that message and writes nothing to the output
    sink; the error is the decode error whenever the scanner has read the
    source to its end.  And whatever the signal does, an invocation of
    [decodeSource] that returns an error has written nothing to the
    output sink. *)
Theorem decode_failure_all_or_nothing
        (c : command) (reader : Reader) (w : World) :
  (validPadded (stripNewlines (processedText c reader)) = false ->
   exists err evs,
     quiet evs
     /\ decodeSource c Background reader w
        = (Err err, w ++ evs ++ [Stderr (str "base64: " ++ Error err ++ [NL])])
     /\ written (snd (decodeSource c Background reader w)) = written w
     /\ (scanError reader = None ->
         exists n, err = CorruptInput n
                   /\ Error err = str "illegal base64 data at input byte "
                                  ++ FormatInt n))
  /\ (forall ctx e,
         fst (decodeSource c ctx reader w) = Err e ->
         written (snd (decodeSource c ctx reader w)) = written w).
Proof.
  split.
  - intros Hv.
    destruct (decodeSource_Background c reader w) as (evs & Q & E).
    rewrite E. clear E.
    assert (W : forall msg, written (w ++ evs ++ [Stderr msg]) = written w).
    { intros msg. rewrite !written_app, (quiet_written evs Q). cbn.
      now rewrite !app_nil_r. }
    destruct (scanError reader) as [err|].
    + exists err, evs. cbn [snd]. rewrite W.
      repeat split; auto. discriminate.
    + destruct (base64.DecodeString (processedText c reader)) as [decoded [n|]] eqn:Ed.
      * exists (CorruptInput n), evs. cbn [snd]. rewrite W.
        repeat split; auto. intros _. exists n. split; reflexivity.
      * pose proof (DecodeString_ok (processedText c reader)) as Hok.
        rewrite Ed in Hok. specialize (Hok eq_refl). congruence.
  - intros ctx e He.
    destruct (decodeSource_trace c ctx reader w) as (evs & E & _ & Q).
    rewrite E, written_app, (Q e He). apply app_nil_r.
Qed.

Lemma decode_failure_all_or_nothing_witness :
  exists err evs,
    quiet evs
    /\ decodeSource (Base64 [DecodeFlag true]) Background
                    [(str "SGVsbG8", rnil)] start
       = (Err err, start ++ evs ++ [Stderr (str "base64: " ++ Error err ++ [NL])])
    /\ written (snd (decodeSource (Base64 [DecodeFlag true]) Background
                                  [(str "SGVsbG8", rnil)] start))
       = written start
    /\ (scanError [(str "SGVsbG8", rnil)] = None ->
        exists n, err = CorruptInput n
                  /\ Error err = str "illegal base64 data at input byte "
                                 ++ FormatInt n).
Proof.
  destruct (decode_failure_all_or_nothing
              (Base64 [DecodeFlag true]) [(str "SGVsbG8", rnil)] start) as (H & _).
  apply H. reflexivity.
Defined.

(** C4, as it is stated, fails: filtered, the line is [invalid], seven
    characters, and the decoder rejects it. *)
Lemma ignoreGarbage_invalid_fails :
  fst (decodeSource (Base64 [DecodeFlag true; IgnoreGarbageFlag true]) Background
                    [(str "invalid!!!", rnil)] start)
  <> Ok tt.
Proof. vm_compute. discriminate. Qed.

(** C4, amended.  With [ignoreGarbage] the single line [invalid!!!] is
    filtered to [invalid]; the decoder rejects these seven characters at
    input byte 4, and [decodeSource] reports that on the error channel,
    returns the decode error and writes nothing to the output sink.  (The
    line transform of [command.go] decodes the line as it is, and drops
    it without an error.) *)
Theorem ignoreGarbage_invalid_decode_error (reader : Reader) (w : World) :
  let c := Base64 [DecodeFlag true; IgnoreGarbageFlag true] in
  drain reader 0 = (str "invalid!!!", None)
  \/ drain reader 0 = (str "invalid!!!" ++ [NL], None) ->
  processedText c reader = str "invalid"
  /\ (exists evs,
         quiet evs
         /\ decodeSource c Background reader w
            = (Err (CorruptInput 4),
               w ++ evs ++ [Stderr (str "base64: illegal base64 data at input byte 4"
                                    ++ [NL])]))
  /\ written (snd (decodeSource c Background reader w)) = written w
  /\ Executor c (str "invalid!!!") = Some ([], false).
Proof.
  intros c Hr.
  assert (Hscan : scanned reader
            = ([str "invalid!!!"],
               {| pending := []; src_err := None; token := []; sc_err := None |})).
  { unfold scanned, NewScanner. destruct Hr as [-> | ->]; vm_compute; reflexivity. }
  assert (Htext : processedText c reader = str "invalid").
  { unfold processedText. rewrite Hscan. vm_compute. reflexivity. }
  destruct (decodeSource_Background c reader w) as (evs & Q & E).
  unfold scanError in E. rewrite Htext, Hscan in E.
  cbn [snd Scanner_Err sc_err] in E.
  change (base64.DecodeString (str "invalid"))
    with (List.map byte_of_Z [138; 123; 218], Some 4) in E.
  split; [assumption|]. split; [|split].
  - exists evs. split; [assumption|]. exact E.
  - rewrite E. cbn [snd]. rewrite !written_app, (quiet_written evs Q). cbn.
    now rewrite !app_nil_r.
  - vm_compute. reflexivity.
Qed.

Lemma ignoreGarbage_invalid_decode_error_witness :
  processedText (Base64 [DecodeFlag true; IgnoreGarbageFlag true])
                [(str "invalid!!!", rnil)] = str "invalid"
  /\ (exists evs,
         quiet evs
         /\ decodeSource (Base64 [DecodeFlag true; IgnoreGarbageFlag true])
                         Background [(str "invalid!!!", rnil)] start
            = (Err (CorruptInput 4),
               start ++ evs
               ++ [Stderr (str "base64: illegal base64 data at input byte 4"
                           ++ [NL])]))
  /\ written (snd (decodeSource (Base64 [DecodeFlag true; IgnoreGarbageFlag true])
                                Background [(str "invalid!!!", rnil)] start))
     = written start
  /\ Executor (Base64 [DecodeFlag true; IgnoreGarbageFlag true]) (str "invalid!!!")
     = Some ([], false).
Proof.
  apply (ignoreGarbage_invalid_decode_error [(str "invalid!!!", rnil)] start).
  left. reflexivity.
Defined.

(** C5, as it is stated, fails: the constructor cannot tell a width of
    zero that was set from one that was not, and makes both 76.  With a
    width of zero the sixty bytes below are encoded on two lines. *)
Lemma zero_width_wraps_at_76 :
  WrapWidth (flags (Base64 [WrapWidthOpt 0])) = 76
  /\ written (snd (encodeSource (Base64 [WrapWidthOpt 0]) Background
                                [(repeat x00 60, rnil)] start))
     <> base64.EncodeToString (repeat x00 60) ++ [NL].
Proof.
  split; [reflexivity|]. intros H. vm_compute in H. discriminate.
Qed.

Lemma Args_app (ps qs : list parameter) :
  Args (ps ++ qs)
  = fold_left
      (fun cmd p =>
         {| Positional := match p with
                          | File name => Positional cmd ++ [name]
                          | _ => Positional cmd
                          end;
            flags := Configure p (flags cmd) |})
      qs (Args ps).
Proof. unfold Args. now rewrite fold_left_app. Qed.

(** C5, amended.  The constructor never leaves the wrap width at zero:
    zero, set or not, becomes 76.  [encodeSource] wraps exactly when the
    width of its configuration is positive, so the configurations that
    the constructor makes for a negative width are those under which the
    base64 text is written unwrapped. *)
Theorem wrap_width_default (ps : list parameter) (c : command)
        (reader : Reader) (w : World) :
  (WrapWidth (flags (Base64 ps)) <> 0
   /\ (WrapWidth (flags (Args ps)) = 0 -> WrapWidth (flags (Base64 ps)) = 76)
   /\ (WrapWidth (flags (Args ps)) <> 0 ->
       WrapWidth (flags (Base64 ps)) = WrapWidth (flags (Args ps))))
  /\ WrapWidth (flags (Base64 [])) = 76
  /\ WrapWidth (flags (Base64 (ps ++ [WrapWidthOpt 0]))) = 76
  /\ (WrapWidth (flags c) <= 0 ->
      forall data, encoded c data = base64.EncodeToString data ++ [NL])
  /\ (0 < WrapWidth (flags c) ->
      forall data,
        encoded c data
        = wrapString (base64.EncodeToString data) (WrapWidth (flags c)) ++ [NL])
  /\ (snd (slurp reader) = None ->
      exists evs,
        quiet evs
        /\ encodeSource (Base64 [WrapWidthOpt (-1)]) Background reader w
           = (Ok tt,
              w ++ evs
              ++ [Stdout (base64.EncodeToString (fst (slurp reader)) ++ [NL])])).
Proof.
  split; [|split; [|split; [|split; [|split]]]].
  - unfold Base64.
    destruct (Z.eqb_spec (WrapWidth (flags (Args ps))) 0) as [E|E];
      cbn [flags WrapWidth]; repeat split; intros; try lia; congruence.
  - reflexivity.
  - unfold Base64. rewrite Args_app. cbn [fold_left Configure flags WrapWidth].
    reflexivity.
  - intros Hw data. unfold encoded.
    destruct (Z.ltb_spec 0 (WrapWidth (flags c))); [lia|reflexivity].
  - intros Hw data. unfold encoded.
    destruct (Z.ltb_spec 0 (WrapWidth (flags c))); [reflexivity|lia].
  - intros Hs.
    destruct (encodeSource_Background (Base64 [WrapWidthOpt (-1)]) reader w)
      as (evs & Q & E).
    rewrite Hs in E. exists evs. split; [assumption|exact E].
Qed.

Lemma wrap_width_default_witness :
  (WrapWidth (flags (Args [WrapWidthOpt 0])) = 0 ->
   WrapWidth (flags (Base64 [WrapWidthOpt 0])) = 76)
  /\ (forall data,
         encoded (Base64 [WrapWidthOpt (-1)]) data
         = base64.EncodeToString data ++ [NL])
  /\ (forall data,
         encoded (Base64 [WrapWidthOpt 20]) data
         = wrapString (base64.EncodeToString data) 20 ++ [NL])
  /\ exists evs,
      quiet evs
      /\ encodeSource (Base64 [WrapWidthOpt (-1)]) Background
                      [(str "Hello World", rnil)] start
         = (Ok tt, start ++ evs ++ [Stdout (str "SGVsbG8gV29ybGQ=" ++ [NL])]).
Proof.
  destruct (wrap_width_default [WrapWidthOpt 0] (Base64 [WrapWidthOpt (-1)])
                               [(str "Hello World", rnil)] start)
    as ((_ & H1 & _) & _ & _ & H2 & _ & H3).
  destruct (wrap_width_default [] (Base64 [WrapWidthOpt 20]) [] start)
    as (_ & _ & _ & _ & H4 & _).
  split; [exact H1|]. split; [apply H2; simpl; lia|].
  split; [apply H4; simpl; lia|].
  apply H3. reflexivity.
Defined.

(** C6, as it is stated, fails: the offset that [range] hands to the loop
    counts bytes, not characters.  The three characters below, the
    second of two bytes, are left on one line by a width of two. *)
Lemma wrapString_counts_bytes :
  wrapString (str "a" ++ [byte_of_Z 0xC3; byte_of_Z 0xA9] ++ str "b") 2
  = str "a" ++ [byte_of_Z 0xC3; byte_of_Z 0xA9] ++ str "b"
  /\ wrapByCharacters (str "a" ++ [byte_of_Z 0xC3; byte_of_Z 0xA9] ++ str "b") 2
     = str "a" ++ [byte_of_Z 0xC3; byte_of_Z 0xA9] ++ [NL] ++ str "b"
  /\ wrapString (str "a" ++ [byte_of_Z 0xC3; byte_of_Z 0xA9] ++ str "b") 2
     <> wrapByCharacters (str "a" ++ [byte_of_Z 0xC3; byte_of_Z 0xA9] ++ str "b") 2.
Proof.
  split; [reflexivity|]. split; [reflexivity|].
  intros H. vm_compute in H. discriminate.
Qed.

(** C6, amended.  On text of single-byte characters, as encoded text is,
    and for a positive width, [wrapString] joins with line feeds the
    segments of [width] characters into which the text falls: every
    segment but the last has exactly [width] characters, the last has at
    least one, no line feed follows it, and the segments together are
    the text.  For a width that is not positive, [wrapString] returns
    its argument, whatever it is. *)
Theorem wrapString_singleByte_lines (s : gostring) (width : Z) :
  (0 < width -> singleByte s ->
   wrapString s width = join [NL] (segments (Z.to_nat width) s)
   /\ concat (segments (Z.to_nat width) s) = s
   /\ Forall (fun l => Z.of_nat (length l) = width)
             (removelast (segments (Z.to_nat width) s))
   /\ Forall (fun l => 1 <= Z.of_nat (length l) <= width)
             (segments (Z.to_nat width) s))
  /\ (width <= 0 -> wrapString s width = s).
Proof.
  split.
  - intros Hw Hs.
    assert (Hn : (0 < Z.to_nat width)%nat) by lia.
    split; [|split; [|split]].
    + rewrite wrapString_singleByte by assumption.
      apply (breaks_segments width s Hw 0). lia.
    + now apply concat_segments.
    + eapply Forall_impl; [|apply (segments_full _ s Hn)].
      intros l Hl. cbn beta in Hl. lia.
    + eapply Forall_impl; [|apply (segments_lengths _ s Hn)].
      intros l Hl. cbn beta in Hl. lia.
  - intros Hw. unfold wrapString.
    destruct (Z.leb_spec width 0); [reflexivity|lia].
Qed.

Lemma wrapString_singleByte_lines_witness :
  (wrapString (str "VGhpcyBpcyBhIGxvbmdlciBzdHJpbmc=") 20
   = join [NL] (segments 20 (str "VGhpcyBpcyBhIGxvbmdlciBzdHJpbmc="))
   /\ concat (segments 20 (str "VGhpcyBpcyBhIGxvbmdlciBzdHJpbmc="))
      = str "VGhpcyBpcyBhIGxvbmdlciBzdHJpbmc="
   /\ Forall (fun l => Z.of_nat (length l) = 20)
             (removelast (segments 20 (str "VGhpcyBpcyBhIGxvbmdlciBzdHJpbmc=")))
   /\ Forall (fun l => 1 <= Z.of_nat (length l) <= 20)
             (segments 20 (str "VGhpcyBpcyBhIGxvbmdlciBzdHJpbmc=")))
  /\ wrapString (str "a" ++ [byte_of_Z 0xC3; byte_of_Z 0xA9] ++ str "b") 0
     = str "a" ++ [byte_of_Z 0xC3; byte_of_Z 0xA9] ++ str "b".
Proof.
  split.
  - apply (wrapString_singleByte_lines (str "VGhpcyBpcyBhIGxvbmdlciBzdHJpbmc=") 20).
    + lia.
    + unfold singleByte. repeat constructor.
  - apply (wrapString_singleByte_lines
             (str "a" ++ [byte_of_Z 0xC3; byte_of_Z 0xA9] ++ str "b") 0).
    lia.
Defined.



(** C8.  [removeNonBase64 s] is [s] with exactly the bytes left out that
    are not in [A-Z], [a-z], [0-9], [+], [/], [=]; a string of such
    characters only is returned as it is. *)
Theorem removeNonBase64_spec (s : gostring) :
  removeNonBase64 s = filter isBase64Byte s
  /\ (Forall (fun b => isBase64Byte b = true) s -> removeNonBase64 s = s).
Proof.
  split.
  - apply removeNonBase64_filter.
  - intros H. rewrite removeNonBase64_filter. now apply filter_all.
Qed.

Lemma removeNonBase64_spec_witness :
  removeNonBase64 (str "SGVsbG8gV29ybGQ=") = str "SGVsbG8gV29ybGQ=".
Proof.
  apply (removeNonBase64_spec (str "SGVsbG8gV29ybGQ=")).
  repeat constructor.
Defined.

(** C9.  On the empty source [encodeSource] succeeds and writes the line
    feed that ends the output of every successful invocation, and
    nothing else; [decodeSource] succeeds and writes zero bytes. *)
Theorem empty_sources (c : command) (reader : Reader) (w : World) :
  (slurp reader = ([], None) ->
   exists evs,
     quiet evs
     /\ encodeSource c Background reader w = (Ok tt, w ++ evs ++ [Stdout [NL]])
     /\ written (snd (encodeSource c Background reader w)) = written w ++ [NL]
     /\ diagnostics (snd (encodeSource c Background reader w)) = diagnostics w)
  /\ (drain reader 0 = ([], None) ->
      exists evs,
        quiet evs
        /\ decodeSource c Background reader w = (Ok tt, w ++ evs ++ [Stdout []])
        /\ written (snd (decodeSource c Background reader w)) = written w
        /\ diagnostics (snd (decodeSource c Background reader w)) = diagnostics w)
  /\ (forall data,
         slurp reader = (data, None) ->
         exists evs body,
           quiet evs
           /\ encodeSource c Background reader w
              = (Ok tt, w ++ evs ++ [Stdout (body ++ [NL])])).
Proof.
  split; [|split].
  - intros Hs.
    destruct (encodeSource_Background c reader w) as (evs & Q & E).
    rewrite Hs in E. cbn [fst snd] in E.
    assert (He : encoded c [] = [NL]).
    { unfold encoded, wrapString. cbn [base64.EncodeToString].
      destruct (0 <? WrapWidth (flags c)); [|reflexivity].
      destruct (WrapWidth (flags c) <=? 0); reflexivity. }
    rewrite He in E. exists evs. rewrite E. cbn [snd].
    rewrite !written_app, !diagnostics_app,
      (quiet_written evs Q), (quiet_diagnostics evs Q).
    cbn. rewrite !app_nil_r. auto.
  - intros Hd.
    destruct (decodeSource_Background c reader w) as (evs & Q & E).
    assert (Hscan : scanned reader
              = ([], {| pending := []; src_err := None; token := []; sc_err := None |})).
    { unfold scanned, NewScanner. rewrite Hd. reflexivity. }
    unfold scanError, processedText in E. rewrite Hscan in E.
    cbn [fst snd Scanner_Err sc_err map concat] in E.
    change (base64.DecodeString []) with (@nil byte, @None base64.CorruptInputError) in E.
    cbv iota in E. exists evs. rewrite E. cbn [snd].
    rewrite !written_app, !diagnostics_app,
      (quiet_written evs Q), (quiet_diagnostics evs Q).
    cbn. rewrite !app_nil_r. auto.
  - intros data Hs.
    destruct (encodeSource_Background c reader w) as (evs & Q & E).
    rewrite Hs in E. cbn [fst snd] in E. unfold encoded in E.
    eexists evs, _. split; [assumption|exact E].
Qed.

Lemma empty_sources_witness :
  (exists evs,
      quiet evs
      /\ encodeSource (Base64 []) Background [] start
         = (Ok tt, start ++ evs ++ [Stdout [NL]])
      /\ written (snd (encodeSource (Base64 []) Background [] start))
         = written start ++ [NL]
      /\ diagnostics (snd (encodeSource (Base64 []) Background [] start))
         = diagnostics start)
  /\ (exists evs,
         quiet evs
         /\ decodeSource (Base64 [DecodeFlag true]) Background [([], EOF)] start
            = (Ok tt, start ++ evs ++ [Stdout []])
         /\ written (snd (decodeSource (Base64 [DecodeFlag true]) Background
                                       [([], EOF)] start))
            = written start
         /\ diagnostics (snd (decodeSource (Base64 [DecodeFlag true]) Background
                                           [([], EOF)] start))
            = diagnostics start).
Proof.
  split.
  - apply (empty_sources (Base64 []) [] start). reflexivity.
  - apply (empty_sources (Base64 [DecodeFlag true]) [([], EOF)] start). reflexivity.
Defined.

(** C10.  When the signal never fires, [wrapStringWithContext] returns
    what [wrapString] returns and [removeNonBase64WithContext] what
    [removeNonBase64] returns, both without an error and with no effect
    but their polls. *)
Theorem context_variants_refine (s : gostring) (width : Z) (w : World) :
  (exists evs,
      polls evs
      /\ wrapStringWithContext Background s width w
         = (Ok (wrapString s width), w ++ evs))
  /\ (exists evs,
         polls evs
         /\ removeNonBase64WithContext Background s w
            = (Ok (removeNonBase64 s), w ++ evs)).
Proof.
  split.
  - apply wrapStringWithContext_Background.
  - apply removeNonBase64WithContext_Background.
Qed.

(* ================================================================= *)
(** * Further properties of the code *)

(** ** The line transform *)

Lemma join_cons_nonempty (x y : gostring) (ys : list gostring) :
  join [NL] (x :: y :: ys) = x ++ [NL] ++ join [NL] (y :: ys).
Proof. reflexivity. Qed.

Lemma firstn_min (A : Type) (n m : nat) (l : list A) :
  (length l <= n)%nat -> (length l <= m)%nat -> firstn n l = firstn m l.
Proof. intros. now rewrite !firstn_all2. Qed.

Lemma wrapLoop_segments (encoded : gostring) (width : Z) (fuel : nat) :
  0 < width ->
  forall (i : Z) (wrapped : Builder),
    0 <= i ->
    Z.of_nat (length encoded) - i < Z.of_nat fuel ->
    wrapLoop fuel encoded width i wrapped
    = Some (wrapped
            ++ join [NL] (segments (Z.to_nat width) (skipn (Z.to_nat i) encoded))).
Proof.
  intros Hw. induction fuel as [|fuel IH]; intros i wrapped Hi Hf.
  - cbn [wrapLoop]. rewrite skipn_all2 by lia. now rewrite segments_nil, app_nil_r.
  - cbn [wrapLoop].
    destruct (Z.ltb_spec i (Z.of_nat (length encoded))) as [Hlt|Hge].
    2:{ rewrite skipn_all2 by lia. now rewrite segments_nil, app_nil_r. }
    remember (Z.of_nat (length encoded)) as len eqn:Hlen.
    set (end_ := if len <? i + width then len else i + width).
    assert (Hend : i < end_ <= len /\ end_ <= i + width).
    { unfold end_. destruct (Z.ltb_spec len (i + width)); lia. }
    replace ((i <? 0) || (end_ <? i)) with false.
    2:{ symmetry. apply orb_false_iff. split; apply Z.ltb_ge; lia. }
    rewrite IH by lia.
    f_equal.
    assert (Hs : (length (skipn (Z.to_nat i) encoded) = length encoded - Z.to_nat i)%nat)
      by apply length_skipn.
    destruct (skipn (Z.to_nat i) encoded) as [|b t] eqn:E.
    { cbn [length] in Hs. lia. }
    rewrite segments_cons by lia.
    replace (Z.to_nat (i + width)) with (Z.to_nat width + Z.to_nat i)%nat by lia.
    rewrite <- skipn_skipn, E.
    assert (Hf1 : firstn (Z.to_nat (end_ - i)) (b :: t)
                  = firstn (Z.to_nat width) (b :: t)).
    { unfold end_. destruct (Z.ltb_spec len (i + width)).
      - apply firstn_min; lia.
      - f_equal. lia. }
    unfold WriteString. rewrite Hf1.
    destruct (Z.ltb_spec end_ len) as [Hl|Hl].
    + assert (Hrest : (length (skipn (Z.to_nat width) (b :: t))
                       = length (b :: t) - Z.to_nat width)%nat) by apply length_skipn.
      destruct (skipn (Z.to_nat width) (b :: t)) as [|b' t'] eqn:E'.
      { change (length (@nil byte)) with 0%nat in Hrest. unfold end_ in Hl.
        destruct (Z.ltb_spec len (i + width)); lia. }
      rewrite segments_cons by lia.
      rewrite join_cons_nonempty. now rewrite <- !app_assoc.
    + assert (Hrest : skipn (Z.to_nat width) (b :: t) = []).
      { apply skipn_all2. unfold end_ in Hl.
        destruct (Z.ltb_spec len (i + width)); lia. }
      rewrite Hrest, segments_nil. cbn [join map concat].
      now rewrite !app_nil_r.
Qed.

Lemma EncodeToString_singleByte (data : list byte) :
  singleByte (base64.EncodeToString data).
Proof.
  unfold singleByte. eapply Forall_impl; [|apply EncodeToString_chars].
  intros c Hc. apply encodedChar_facts in Hc. destruct Hc as (_ & (H & _) & _). exact H.
Qed.

Lemma EncodeToString_visible (data : list byte) :
  Forall visible (base64.EncodeToString data).
Proof.
  eapply Forall_impl; [|apply EncodeToString_chars].
  intros c Hc. apply encodedChar_facts in Hc. tauto.
Qed.

Lemma wrapString_segments (s : gostring) (width : Z) :
  0 < width -> singleByte s ->
  wrapString s width = join [NL] (segments (Z.to_nat width) s).
Proof.
  intros Hw Hs. rewrite wrapString_singleByte by assumption.
  pose proof (breaks_segments width s Hw 0 (Z.le_refl 0)) as H.
  cbn [Z.mul Z.ltb Z.compare] in H. exact H.
Qed.

Lemma validPadded_chars (n : nat) :
  forall t, (length t <= n)%nat -> validPadded t = true ->
    Forall (fun c => alphabetChar c = true \/ c = base64.StdPadding) t.
Proof.
  induction n as [|n IH]; intros t Hn Hv.
  - destruct t; [constructor|cbn in Hn; lia].
  - destruct t as [|a [|b [|c [|d rest]]]]; try discriminate; [constructor|].
    cbn [validPadded] in Hv.
    apply andb_true_iff in Hv. destruct Hv as [Hab Hv].
    apply andb_true_iff in Hab. destruct Hab as [Ha Hb].
    constructor; [now left|]. constructor; [now left|].
    apply orb_true_iff in Hv. destruct Hv as [Hv|Hv];
      [apply orb_true_iff in Hv; destruct Hv as [Hv|Hv]|].
    + apply andb_true_iff in Hv. destruct Hv as [Hcd Hr].
      apply andb_true_iff in Hcd. destruct Hcd as [Hc Hd].
      constructor; [now left|]. constructor; [now left|].
      apply IH; [cbn [length] in Hn; lia|exact Hr].
    + apply andb_true_iff in Hv. destruct Hv as [Hcd Hr].
      apply andb_true_iff in Hcd. destruct Hcd as [Hc Hd].
      apply byte_eqb_eq in Hd. destruct rest; [|discriminate].
      constructor; [now left|]. constructor; [now right|]. constructor.
    + apply andb_true_iff in Hv. destruct Hv as [Hcd Hr].
      apply andb_true_iff in Hcd. destruct Hcd as [Hc Hd].
      apply byte_eqb_eq in Hc. apply byte_eqb_eq in Hd.
      destruct rest; [|discriminate].
      constructor; [now right|]. constructor; [now right|]. constructor.
Qed.

Lemma alphabetChar_isBase64 (c : byte) :
  alphabetChar c = true -> isBase64Byte c = true.
Proof. destruct c; vm_compute; intros H; first [reflexivity | discriminate H]. Qed.

Lemma pad_isBase64 : isBase64Byte base64.StdPadding = true.
Proof. reflexivity. Qed.

Lemma validPadded_no_junk (t : gostring) (b : byte) :
  In b t -> isBase64Byte b = false -> base64.isNewline b = false ->
  validPadded (stripNewlines t) = false.
Proof.
  intros Hin Hj Hn.
  destruct (validPadded (stripNewlines t)) eqn:E; [|reflexivity].
  pose proof (validPadded_chars (length (stripNewlines t)) (stripNewlines t)
                                (Nat.le_refl _) E) as HF.
  rewrite Forall_forall in HF.
  assert (Hb : In b (stripNewlines t)).
  { unfold stripNewlines. apply filter_In. split; [exact Hin|now rewrite Hn]. }
  destruct (HF b Hb) as [Ha|Hp].
  - apply alphabetChar_isBase64 in Ha. congruence.
  - subst b. rewrite pad_isBase64 in Hj. discriminate.
Qed.

(** X1 (line transform, round trip).  Without the wrap flag the line
    transform of [command.go] encodes every line to its standard base64
    text, and in decode mode, with either setting of [IgnoreGarbage], it
    returns the line for that text. *)
Theorem Executor_roundtrip (pe pd : command) (line : gostring) :
  Decode (flags pe) = false -> Wrap (flags pe) = false ->
  Decode (flags pd) = true ->
  Executor pe line = Some (base64.EncodeToString line, true)
  /\ Executor pd (base64.EncodeToString line) = Some (line, true).
Proof.
  intros He Hw Hd. unfold Executor. rewrite He, Hw, Hd. split; [reflexivity|].
  rewrite (TrimSpace_visible _ (EncodeToString_visible line)).
  destruct (negb (IgnoreGarbage (flags pd)));
    now rewrite DecodeString_EncodeToString.
Qed.

Lemma Executor_roundtrip_witness :
  Executor (Base64 []) (str "hello") = Some (str "aGVsbG8=", true)
  /\ Executor (Base64 [DecodeFlag true]) (str "aGVsbG8=") = Some (str "hello", true).
Proof.
  exact (Executor_roundtrip (Base64 []) (Base64 [DecodeFlag true]) (str "hello")
           eq_refl eq_refl eq_refl).
Defined.

(** X2 (line transform, wrapping).  With the wrap flag and a width that
    is not negative, zero counting as 76, the wrap loop of [Executor]
    cuts the encoded text into segments of [width] bytes joined by line
    feeds, with no line feed at the end: the text that [wrapString]
    returns for it. *)
Theorem Executor_wraps_like_wrapString (p : command) (line : gostring) :
  Decode (flags p) = false -> Wrap (flags p) = true ->
  0 <= WrapWidth (flags p) ->
  let width := if WrapWidth (flags p) =? 0 then 76 else WrapWidth (flags p) in
  Executor p line
  = Some (join [NL] (segments (Z.to_nat width) (base64.EncodeToString line)), true)
  /\ Executor p line = Some (wrapString (base64.EncodeToString line) width, true).
Proof.
  intros Hd Hw Hp width.
  assert (Hpos : 0 < width).
  { unfold width. destruct (Z.eqb_spec (WrapWidth (flags p)) 0); lia. }
  assert (E : Executor p line
              = Some (join [NL] (segments (Z.to_nat width)
                                          (base64.EncodeToString line)), true)).
  { unfold Executor. rewrite Hd, Hw. fold width.
    rewrite (wrapLoop_segments (base64.EncodeToString line) width
               (S (length (base64.EncodeToString line))) Hpos 0 [])
      by lia.
    reflexivity. }
  split; [exact E|].
  rewrite E, wrapString_segments; [reflexivity|exact Hpos|].
  apply EncodeToString_singleByte.
Qed.

Lemma Executor_wraps_like_wrapString_witness :
  Executor (Base64 [WrapFlag true; WrapWidthOpt 4]) (str "hello")
  = Some (str "aGVs" ++ [NL] ++ str "bG8=", true).
Proof.
  destruct (Executor_wraps_like_wrapString
              (Base64 [WrapFlag true; WrapWidthOpt 4]) (str "hello")
              eq_refl eq_refl ltac:(vm_compute; discriminate)) as [E _].
  exact E.
Defined.

(** X3 (line transform, negative width).  With the wrap flag and a
    negative width the first slice [encoded[i:end]] of the wrap loop has
    a negative upper bound: the transform panics on every line that is
    not empty, and returns the empty line for the empty line. *)
Theorem Executor_negative_width_panics (p : command) (line : gostring) :
  Decode (flags p) = false -> Wrap (flags p) = true ->
  WrapWidth (flags p) < 0 ->
  (line <> [] -> Executor p line = None)
  /\ Executor p [] = Some ([], true).
Proof.
  intros Hd Hw Hn. unfold Executor. rewrite Hd, Hw.
  destruct (Z.eqb_spec (WrapWidth (flags p)) 0) as [E|_]; [lia|].
  split; [|reflexivity].
  intros Hl.
  assert (Hlen : 0 < Z.of_nat (length (base64.EncodeToString line))).
  { pose proof (EncodeToString_length line) as H.
    destruct line; [congruence|]. cbn [length] in H.
    assert (1 <= (Z.of_nat (S (length line)) + 2) / 3)
      by (Z.div_mod_to_equations; lia).
    lia. }
  cbn [wrapLoop].
  destruct (Z.ltb_spec 0 (Z.of_nat (length (base64.EncodeToString line)))); [|lia].
  destruct (Z.ltb_spec (Z.of_nat (length (base64.EncodeToString line)))
                       (0 + WrapWidth (flags p))); [lia|].
  destruct (Z.ltb_spec (0 + WrapWidth (flags p)) 0); [|lia].
  reflexivity.
Qed.

Lemma Executor_negative_width_panics_witness :
  Executor (Base64 [WrapFlag true; WrapWidthOpt (-1)]) (str "hello") = None.
Proof.
  destruct (Executor_negative_width_panics
              (Base64 [WrapFlag true; WrapWidthOpt (-1)]) (str "hello")
              eq_refl eq_refl ltac:(vm_compute; reflexivity)) as [E _].
  apply E. discriminate.
Defined.

(** X4 (line transform, decoding).  In decode mode the transform never
    fails: it returns the decoded bytes when its input, the line trimmed
    unless [IgnoreGarbage] is set, is padded base64 once carriage returns
    and line feeds are disregarded, and drops the line otherwise.  Under
    [IgnoreGarbage] nothing is filtered: a line that holds a byte outside
    the alphabet, other than a carriage return or a line feed, is
    dropped. *)
Theorem Executor_decode_drops_invalid (p : command) (line : gostring) :
  Decode (flags p) = true ->
  let input := if IgnoreGarbage (flags p) then line else strings.TrimSpace line in
  (validPadded (stripNewlines input) = true ->
   exists decoded,
     base64.DecodeString input = (decoded, None)
     /\ Executor p line = Some (decoded, true))
  /\ (validPadded (stripNewlines input) = false ->
      Executor p line = Some ([], false))
  /\ (IgnoreGarbage (flags p) = true ->
      forall b, In b line -> isBase64Byte b = false ->
                base64.isNewline b = false ->
                Executor p line = Some ([], false)).
Proof.
  intros Hd input.
  assert (HE : Executor p line
               = match snd (base64.DecodeString input) with
                 | Some _ => Some ([], false)
                 | None => Some (fst (base64.DecodeString input), true)
                 end).
  { unfold Executor, input. rewrite Hd.
    destruct (IgnoreGarbage (flags p)); cbn [negb];
      match goal with |- context [base64.DecodeString ?x] =>
        destruct (base64.DecodeString x) as [d [n|]] end; reflexivity. }
  assert (Hbad : validPadded (stripNewlines input) = false ->
                 Executor p line = Some ([], false)).
  { intros Hv. rewrite HE.
    destruct (snd (base64.DecodeString input)) eqn:E; [reflexivity|].
    apply DecodeString_accepts in E. congruence. }
  split; [|split].
  - intros Hv. apply DecodeString_accepts in Hv.
    exists (fst (base64.DecodeString input)). rewrite HE, Hv.
    split; [|reflexivity].
    destruct (base64.DecodeString input) as [d e]. cbn [fst snd] in *. now subst e.
  - exact Hbad.
  - intros Hi b Hin Hj Hn. apply Hbad. unfold input. rewrite Hi.
    exact (validPadded_no_junk line b Hin Hj Hn).
Qed.

Lemma Executor_decode_drops_invalid_witness :
  Executor (Base64 [DecodeFlag true; IgnoreGarbageFlag true]) (str "aGVsbG8=!")
  = Some ([], false).
Proof.
  destruct (Executor_decode_drops_invalid
              (Base64 [DecodeFlag true; IgnoreGarbageFlag true]) (str "aGVsbG8=!")
              eq_refl) as (_ & _ & H).
  apply (H eq_refl "!"%byte); [|reflexivity|reflexivity].
  vm_compute. tauto.
Defined.

(** ** Stopping at the first poll that finds the signal cancelled *)

Lemma unobserved_app (ctx : Context) (w : World) (e1 e2 : list event) :
  ~ observes ctx w e1 -> ~ observes ctx (w ++ e1) e2 -> ~ observes ctx w (e1 ++ e2).
Proof. intros H1 H2 H. apply observes_app in H. tauto. Qed.

Lemma stoppedAt_app (ctx : Context) (w : World) (e1 e2 : list event) :
  ~ observes ctx w e1 -> stoppedAt ctx (w ++ e1) e2 -> stoppedAt ctx w (e1 ++ e2).
Proof.
  intros H1 (pre & -> & Hp & Hc). exists (e1 ++ pre).
  split; [now rewrite app_assoc|]. split; [now apply unobserved_app|].
  unfold now in *. rewrite length_app in *. now rewrite Nat.add_assoc.
Qed.

Lemma stoppedAt_one (ctx : Context) (w : World) :
  ctx_Err ctx (now w) <> None -> stoppedAt ctx w [Poll].
Proof.
  intros H. exists []. split; [reflexivity|]. split; [apply observes_nil|].
  cbn [length]. rewrite Nat.add_0_r. now apply ctx_Err_Canceled.
Qed.

Lemma unobserved_poll (ctx : Context) (w : World) :
  ctx_Err ctx (now w) = None -> ~ observes ctx w [Poll].
Proof.
  intros H (n & Hn & Hc). destruct n as [|n]; [|destruct n; discriminate].
  rewrite Nat.add_0_r in Hc. congruence.
Qed.

Lemma stoppedAt_observes (ctx : Context) (w : World) (evs : list event) :
  stoppedAt ctx w evs -> observes ctx w evs.
Proof.
  intros (pre & -> & _ & Hc). exists (length pre). split.
  - rewrite nth_error_app2 by lia. now rewrite Nat.sub_diag.
  - congruence.
Qed.

Lemma halts_ret (ctx : Context) (A : Type) (a : A) : halts ctx (ret a) (Ok a).
Proof.
  intros w. exists []. cbn. rewrite app_nil_r.
  split; [reflexivity|]. split; [constructor|]. left. split; [reflexivity|].
  apply observes_nil.
Qed.

Lemma halts_fail (ctx : Context) (A : Type) (e : error) :
  halts ctx (@fail A e) (Err e).
Proof.
  intros w. exists []. cbn. rewrite app_nil_r.
  split; [reflexivity|]. split; [constructor|]. left. split; [reflexivity|].
  apply observes_nil.
Qed.

Lemma halts_check (ctx : Context) : halts ctx (check ctx) (Ok tt).
Proof.
  intros w. exists [Poll].
  unfold check, bind, CheckContextCancellation, fail, ret.
  destruct (ctx_Err ctx (now w)) as [e|] eqn:E; cbn [fst snd].
  - split; [reflexivity|]. split; [repeat constructor|]. right.
    assert (H : ctx_Err ctx (now w) <> None) by congruence.
    split; [|now apply stoppedAt_one].
    apply ctx_Err_Canceled in H. congruence.
  - split; [reflexivity|]. split; [repeat constructor|]. left.
    split; [reflexivity|now apply unobserved_poll].
Qed.

Lemma halts_emit (ctx : Context) (e : event) :
  quietEvent e -> e <> Poll -> halts ctx (emit e) (Ok tt).
Proof.
  intros Hq He w. exists [e]. cbn.
  split; [reflexivity|]. split; [repeat constructor; assumption|]. left.
  split; [reflexivity|]. now apply observes_quiet1.
Qed.

Lemma halts_bind (ctx : Context) (A B : Type) (m : M A) (k : A -> M B)
      (a : A) (r : result B) :
  halts ctx m (Ok a) -> halts ctx (k a) r -> halts ctx (bind m k) r.
Proof.
  intros Hm Hk w. unfold bind.
  destruct (Hm w) as (e1 & E1 & Q1 & [[R1 O1]|[R1 S1]]).
  - destruct (m w) as [[a'|e] w1]; cbn [fst snd] in *; [|discriminate].
    inversion R1; subst a' w1.
    destruct (Hk (w ++ e1)) as (e2 & E2 & Q2 & [[R2 O2]|[R2 S2]]).
    + exists (e1 ++ e2). split; [now rewrite E2, app_assoc|].
      split; [now apply Forall_app|]. left. split; [assumption|].
      now apply unobserved_app.
    + exists (e1 ++ e2). split; [now rewrite E2, app_assoc|].
      split; [now apply Forall_app|]. right. split; [assumption|].
      now apply stoppedAt_app.
  - destruct (m w) as [[a'|e] w1]; cbn [fst snd] in *; [discriminate|].
    inversion R1; subst e w1.
    exists e1. split; [reflexivity|]. split; [assumption|]. right. now split.
Qed.

Lemma halts_bind_err (ctx : Context) (A B : Type) (m : M A) (k : A -> M B)
      (e : error) :
  halts ctx m (Err e) -> halts ctx (bind m k) (Err e).
Proof.
  intros Hm w. unfold bind.
  destruct (Hm w) as (e1 & E1 & Q1 & [[R1 O1]|[R1 S1]]).
  - destruct (m w) as [[a'|e'] w1]; cbn [fst snd] in *; [discriminate|].
    inversion R1; subst e' w1.
    exists e1. split; [reflexivity|]. split; [assumption|]. left. now split.
  - destruct (m w) as [[a'|e'] w1]; cbn [fst snd] in *; [discriminate|].
    inversion R1; subst e' w1.
    exists e1. split; [reflexivity|]. split; [assumption|]. right. now split.
Qed.

Lemma halts_poll (ctx : Context) (i : Z) :
  halts ctx (if Z.rem i 1000 =? 0 then check ctx else ret tt) (Ok tt).
Proof. destruct (Z.rem i 1000 =? 0); [apply halts_check|apply halts_ret]. Qed.

Lemma halts_rangeM (ctx : Context) (A : Type) (bodyM : Z -> Z -> A -> M A)
      (body : Z -> Z -> A -> A) :
  (forall i r acc, halts ctx (bodyM i r acc) (Ok (body i r acc))) ->
  forall fuel i s acc,
    halts ctx (rangeM_from fuel bodyM i s acc) (Ok (range_from fuel body i s acc)).
Proof.
  intros Hbody. induction fuel as [|fuel IH]; intros i s acc.
  - apply halts_ret.
  - destruct s as [|b0 t]; [apply halts_ret|].
    cbn [rangeM_from range_from].
    destruct (utf8.DecodeRuneInString (b0 :: t)) as [r size].
    eapply halts_bind; [apply Hbody|apply IH].
Qed.

Lemma halts_wrapStringWithContext (ctx : Context) (s : gostring) (width : Z) :
  halts ctx (wrapStringWithContext ctx s width) (Ok (wrapString s width)).
Proof.
  unfold wrapStringWithContext, wrapString.
  destruct (width <=? 0); [apply halts_ret|].
  apply halts_rangeM. intros i r acc.
  eapply halts_bind; [apply halts_poll|apply halts_ret].
Qed.

Lemma halts_removeNonBase64WithContext (ctx : Context) (s : gostring) :
  halts ctx (removeNonBase64WithContext ctx s) (Ok (removeNonBase64 s)).
Proof.
  unfold removeNonBase64WithContext, removeNonBase64.
  apply halts_rangeM. intros i r acc.
  eapply halts_bind; [apply halts_poll|apply halts_ret].
Qed.

Lemma halts_readAll (ctx : Context) (reader : Reader) :
  forall allData,
    halts ctx (readAll ctx reader allData)
          (match snd (slurp reader) with
           | None => Ok (allData ++ fst (slurp reader))
           | Some msg => Err (ReadError msg)
           end).
Proof.
  induction reader as [|[data err] reader IH]; intros allData; cbn [readAll slurp].
  - eapply halts_bind; [apply halts_check|].
    eapply halts_bind; [apply halts_emit; [exact I|discriminate]|].
    cbn [fst snd]. rewrite app_nil_r. apply halts_ret.
  - rewrite keep_data.
    eapply halts_bind; [apply halts_check|].
    eapply halts_bind; [apply halts_emit; [exact I|discriminate]|].
    destruct err; cbn [fst snd].
    + specialize (IH (allData ++ data)).
      destruct (slurp reader) as [d [msg|]]; cbn [fst snd] in *.
      * exact IH.
      * now rewrite app_assoc.
    + apply halts_ret.
    + apply halts_fail.
Qed.

Lemma halts_cleanLine (c : command) (ctx : Context) (text : gostring) :
  halts ctx (cleanLine c ctx text) (Ok (cleaned c text)).
Proof.
  unfold cleanLine, cleaned. destruct (IgnoreGarbage (flags c)).
  - apply halts_removeNonBase64WithContext.
  - apply halts_ret.
Qed.

Lemma wrap_condition (wrap : bool) (width : Z) :
  (wrap || (0 <? width)) && (0 <? width) = (0 <? width).
Proof. destruct wrap, (0 <? width); reflexivity. Qed.

(** What precedes the write of [encodeSource]. *)
Lemma halts_encoding (c : command) (ctx : Context) (reader : Reader) :
  halts ctx
    (bind (check ctx) (fun _ =>
     bind (readAll ctx reader []) (fun allData =>
       if (Wrap (flags c) || (0 <? WrapWidth (flags c))) && (0 <? WrapWidth (flags c))
       then wrapStringWithContext ctx (base64.EncodeToString allData)
                                  (WrapWidth (flags c))
       else ret (base64.EncodeToString allData))))
    (match snd (slurp reader) with
     | None =>
       Ok (if 0 <? WrapWidth (flags c)
           then wrapString (base64.EncodeToString (fst (slurp reader)))
                           (WrapWidth (flags c))
           else base64.EncodeToString (fst (slurp reader)))
     | Some msg => Err (ReadError msg)
     end).
Proof.
  eapply halts_bind; [apply halts_check|].
  pose proof (halts_readAll ctx reader []) as Hr.
  destruct (snd (slurp reader)) as [msg|].
  - now apply halts_bind_err.
  - eapply halts_bind; [exact Hr|]. cbn [app].
    rewrite wrap_condition.
    destruct (0 <? WrapWidth (flags c));
      [apply halts_wrapStringWithContext|apply halts_ret].
Qed.

(** X5 (outcomes of [encodeSource]).  Under every cancellation signal
    [encodeSource] writes nothing to the error channel and ends in one of
    three ways.  Either no poll finds the signal cancelled, and then it
    returns the error of the read that failed, having written nothing, or
    it returns no error after one write of the encoded text and its line
    feed; or it stops at the first poll that finds the signal cancelled,
    which is its last event, with the cancellation error and nothing
    written. *)
Theorem encodeSource_outcomes (c : command) (ctx : Context) (reader : Reader)
        (w : World) :
  exists evs,
    quiet evs
    /\ ((~ observes ctx w evs
         /\ encodeSource c ctx reader w
            = match snd (slurp reader) with
              | None => (Ok tt, w ++ evs ++ [Stdout (encoded c (fst (slurp reader)))])
              | Some msg => (Err (ReadError msg), w ++ evs)
              end)
        \/ (stoppedAt ctx w evs
            /\ encodeSource c ctx reader w = (Err Canceled, w ++ evs))).
Proof.
  pose proof (halts_encoding c ctx reader w) as H.
  match type of H with
  | exists evs, snd (?m w) = _ /\ _ =>
    assert (E : encodeSource c ctx reader w
                = match m w with
                  | (Ok a, w') => (Ok tt, w' ++ [Stdout (a ++ [NL])])
                  | (Err e, w') => (Err e, w')
                  end);
      [|destruct (m w) as [res w1]]
  end.
  { unfold encodeSource, Fprintln, emit, bind.
    destruct (check ctx w) as [[[]|e] w1]; [|reflexivity].
    destruct (readAll ctx reader [] w1) as [[allData|e] w2]; reflexivity. }
  rewrite E. clear E. cbn [fst snd] in H.
  destruct H as (evs & -> & Q & [[-> O]|[-> S]]); exists evs; (split; [exact Q|]).
  - left. split; [exact O|].
    destruct (snd (slurp reader)) as [msg|]; [reflexivity|].
    unfold encoded. now rewrite <- (app_assoc w evs).
  - right. now split.
Qed.

Lemma ctx_Err_later (ctx : Context) (m n : nat) :
  (m <= n)%nat -> ctx_Err ctx m <> None -> ctx_Err ctx n <> None.
Proof.
  intros Hle Hm Hn. apply Hm. now apply (ctx_Err_earlier ctx m n).
Qed.

(** The scan loop: it delivers what the scanner holds as long as no poll
    finds the signal cancelled, and stops at the first poll that does. *)
Lemma scanLoop_halts (c : command) (ctx : Context) (fuel : nat) :
  forall (scanner : Scanner) (encodedData : Builder) (w : World),
    exists evs,
      snd (scanLoop c ctx fuel scanner encodedData w) = w ++ evs /\ quiet evs
      /\ ((fst (scanLoop c ctx fuel scanner encodedData w)
           = Ok (snd (scanAll fuel scanner),
                 encodedData ++ concat (map (cleaned c) (fst (scanAll fuel scanner))))
           /\ ~ observes ctx w evs)
          \/ ((fst (scanLoop c ctx fuel scanner encodedData w) = Err Canceled
               \/ exists x, fst (scanLoop c ctx fuel scanner encodedData w) = Ok x)
              /\ stoppedAt ctx w evs)).
Proof.
  induction fuel as [|fuel IH]; intros scanner encodedData w; cbn [scanLoop scanAll].
  - exists []. cbn. rewrite !app_nil_r. split; [reflexivity|]. split; [constructor|].
    left. split; [reflexivity|apply observes_nil].
  - cbv [bind ScanWithContext CheckContextCancellation emit ret].
    destruct (ctx_Err ctx (now w)) as [e0|] eqn:E0.
    { exists [Poll]. cbn [fst snd]. split; [reflexivity|].
      split; [repeat constructor|]. right. split; [right; eauto|].
      apply stoppedAt_one. congruence. }
    assert (U0 : ~ observes ctx w [Poll; ScanCall]).
    { change [Poll; ScanCall] with ([Poll] ++ [ScanCall]).
      apply unobserved_app; [now apply unobserved_poll|].
      apply observes_quiet1. discriminate. }
    destruct (Scan scanner) as [ok scanner'].
    destruct ok.
    2:{ exists [Poll; ScanCall]. cbn [fst snd map concat].
        split; [now rewrite <- app_assoc|]. split; [repeat constructor|].
        left. split; [now rewrite app_nil_r|exact U0]. }
    destruct (halts_cleanLine c ctx (Text scanner') ((w ++ [Poll]) ++ [ScanCall]))
      as (e1 & E1 & Q1 & [[R1 O1]|[R1 S1]]);
      destruct (cleanLine c ctx (Text scanner') ((w ++ [Poll]) ++ [ScanCall]))
        as [res w1]; cbn [fst snd] in *; subst res w1.
    2:{ exists ([Poll; ScanCall] ++ e1). split; [now rewrite <- !app_assoc|].
        split; [apply Forall_app; split; [repeat constructor|assumption]|].
        right. split; [now left|].
        apply stoppedAt_app; [exact U0|]. now rewrite <- app_assoc in S1. }
    assert (U1 : ~ observes ctx w ([Poll; ScanCall] ++ e1)).
    { apply unobserved_app; [exact U0|]. now rewrite <- app_assoc in O1. }
    destruct (IH scanner' (WriteString encodedData (cleaned c (Text scanner')))
                 (((w ++ [Poll]) ++ [ScanCall]) ++ e1))
      as (e2 & E2 & Q2 & H2).
    exists (([Poll; ScanCall] ++ e1) ++ e2).
    replace (w ++ ([Poll; ScanCall] ++ e1) ++ e2)
      with ((((w ++ [Poll]) ++ [ScanCall]) ++ e1) ++ e2)
      by (now rewrite <- !app_assoc).
    split; [exact E2|].
    split; [apply Forall_app; split;
            [apply Forall_app; split; [repeat constructor|assumption]|assumption]|].
    replace (((w ++ [Poll]) ++ [ScanCall]) ++ e1)
      with (w ++ [Poll; ScanCall] ++ e1) in H2
      by (now rewrite <- !app_assoc).
    destruct H2 as [[R2 O2]|[R2 S2]].
    + left. split; [|now apply unobserved_app].
      replace (w ++ [Poll; ScanCall] ++ e1)
        with (((w ++ [Poll]) ++ [ScanCall]) ++ e1) in R2
        by (now rewrite <- !app_assoc).
      rewrite R2.
      destruct (scanAll fuel scanner') as [lines s'']. cbn [fst snd map concat].
      unfold WriteString. now rewrite <- app_assoc.
    + right. split; [|now apply stoppedAt_app].
      replace (w ++ [Poll; ScanCall] ++ e1)
        with (((w ++ [Poll]) ++ [ScanCall]) ++ e1) in R2
        by (now rewrite <- !app_assoc).
      exact R2.
Qed.

(** X6 (outcomes of [decodeSource]).  Under every cancellation signal
    [decodeSource] either meets no poll that finds the signal cancelled,
    and then ends as it does when the signal never fires (the error of
    the scanner or the decode error, reported on the error channel with
    nothing written to the output sink, or one write of the decoded
    bytes); or it returns the cancellation error with nothing written,
    its last event being the first poll that finds the signal cancelled
    or the poll after it. *)
Theorem decodeSource_outcomes (c : command) (ctx : Context) (reader : Reader)
        (w : World) :
  exists evs,
    quiet evs
    /\ ((~ observes ctx w evs
         /\ decodeSource c ctx reader w
            = match scanError reader with
              | Some err =>
                (Err err, w ++ evs ++ [Stderr (str "base64: " ++ Error err ++ [NL])])
              | None =>
                match base64.DecodeString (processedText c reader) with
                | (_, Some n) =>
                  (Err (CorruptInput n),
                   w ++ evs
                   ++ [Stderr (str "base64: " ++ Error (CorruptInput n) ++ [NL])])
                | (decoded, None) => (Ok tt, w ++ evs ++ [Stdout decoded])
                end
              end)
        \/ ((stoppedAt ctx w evs
             \/ exists pre, evs = pre ++ [Poll] /\ stoppedAt ctx w pre)
            /\ decodeSource c ctx reader w = (Err Canceled, w ++ evs))).
Proof.
  unfold decodeSource, scanError, processedText, scanned.
  cbv [bind check CheckContextCancellation fail ret].
  destruct (ctx_Err ctx (now w)) as [e0|] eqn:E0.
  { exists [Poll]. split; [repeat constructor|]. right.
    assert (H : ctx_Err ctx (now w) <> None) by congruence.
    split; [left; now apply stoppedAt_one|].
    apply ctx_Err_Canceled in H. rewrite E0 in H. now inversion H. }
  pose proof (unobserved_poll ctx w E0) as U0.
  set (scanner0 := NewScanner reader).
  destruct (scanLoop_halts c ctx (S (S (length (pending scanner0)))) scanner0 []
                           (w ++ [Poll])) as (e1 & E1 & Q1 & H1).
  destruct (scanLoop c ctx (S (S (length (pending scanner0)))) scanner0 [] (w ++ [Poll]))
    as [res w1]; cbn [fst snd] in *; subst w1.
  assert (Q01 : quiet (Poll :: e1)) by (constructor; [exact I|assumption]).
  destruct H1 as [[-> O1]|[R1 S1]].
  - (* the loop met no cancelled poll *)
    cbn [app].
    assert (U1 : ~ observes ctx w ([Poll] ++ e1)) by now apply unobserved_app.
    destruct (scanAll (S (S (length (pending scanner0)))) scanner0)
      as [lines scanner]. cbn [fst snd].
    destruct (ctx_Err ctx (now ((w ++ [Poll]) ++ e1))) as [e2|] eqn:E2.
    { exists (([Poll] ++ e1) ++ [Poll]). split.
      { apply Forall_app. split; [exact Q01|repeat constructor]. }
      right.
      assert (H : ctx_Err ctx (now ((w ++ [Poll]) ++ e1)) <> None) by congruence.
      split.
      - left. apply stoppedAt_app; [exact U1|].
        apply stoppedAt_one. now rewrite app_assoc.
      - apply ctx_Err_Canceled in H. rewrite E2 in H. inversion H.
        now rewrite <- !app_assoc. }
    exists (([Poll] ++ e1) ++ [Poll]). split.
    { apply Forall_app. split; [exact Q01|repeat constructor]. }
    left. split.
    { apply unobserved_app; [exact U1|]. apply unobserved_poll.
      now rewrite app_assoc. }
    destruct (Scanner_Err scanner) as [err|].
    + cbv [Fprintf_stderr emit]. f_equal. now rewrite <- !app_assoc.
    + destruct (base64.DecodeString (concat (map (cleaned c) lines)))
        as [decoded [n|]].
      * cbv [Fprintf_stderr emit]. f_equal. now rewrite <- !app_assoc.
      * cbv [Write emit]. f_equal. now rewrite <- !app_assoc.
  - (* the loop stopped at a cancelled poll *)
    assert (S01 : stoppedAt ctx w ([Poll] ++ e1)) by now apply stoppedAt_app.
    destruct R1 as [->|[[scanner encodedData] ->]].
    + exists ([Poll] ++ e1). split; [exact Q01|]. right.
      split; [now left|]. now rewrite <- app_assoc.
    + assert (H : ctx_Err ctx (now ((w ++ [Poll]) ++ e1)) <> None).
      { destruct S1 as (pre & -> & _ & Hc).
        apply (ctx_Err_later ctx (now (w ++ [Poll]) + length pre)).
        - unfold now. rewrite !length_app. lia.
        - congruence. }
      apply ctx_Err_Canceled in H. rewrite H.
      exists (([Poll] ++ e1) ++ [Poll]). split.
      { apply Forall_app. split; [exact Q01|repeat constructor]. }
      right. split; [right; eauto|]. now rewrite <- !app_assoc.
Qed.

(** ** What the scanner makes of its input *)

Lemma cutLine_split (data line rest : list byte) :
  cutLine data = Some (line, rest) -> data = line ++ NL :: rest.
Proof.
  revert line rest. induction data as [|c data IH]; intros line rest H;
    cbn [cutLine] in H; [discriminate|].
  destruct (byte_eqb c NL) eqn:E.
  - apply byte_eqb_eq in E. inversion H; subst. reflexivity.
  - destruct (cutLine data) as [[l r]|]; [|discriminate].
    inversion H; subst. cbn [app]. f_equal. now apply IH.
Qed.

Lemma NL_junk : isBase64Byte NL = false.
Proof. reflexivity. Qed.

Lemma CR_junk : isBase64Byte CR = false.
Proof. reflexivity. Qed.

Lemma filter_dropCR (l : list byte) :
  filter isBase64Byte (dropCR l) = filter isBase64Byte l.
Proof.
  unfold dropCR. destruct (rev l) as [|c r] eqn:E; [reflexivity|].
  destruct (byte_eqb c CR) eqn:Ec; [|reflexivity].
  apply byte_eqb_eq in Ec. subst c.
  assert (Hl : l = rev r ++ [CR]).
  { rewrite <- (rev_involutive l), E. reflexivity. }
  rewrite Hl, filter_app. cbn [filter]. rewrite CR_junk. now rewrite app_nil_r.
Qed.

Lemma cleaned_filter (c : command) (l : gostring) :
  IgnoreGarbage (flags c) = true -> cleaned c l = filter isBase64Byte l.
Proof.
  intros H. unfold cleaned. rewrite H.
  now rewrite removeNonBase64_TrimSpace, removeNonBase64_filter.
Qed.

(** A scanner that ends without an error has delivered all its input, and
    the alphabet bytes of its lines are those of the input. *)
Lemma scanAll_filter (fuel : nat) :
  forall s : Scanner,
    sc_err s = None ->
    (length (pending s) < fuel)%nat ->
    sc_err (snd (scanAll fuel s)) = None ->
    concat (map (filter isBase64Byte) (fst (scanAll fuel s)))
    = filter isBase64Byte (pending s).
Proof.
  induction fuel as [|fuel IH]; intros s Hs Hf He; [lia|].
  cbn [scanAll] in *. unfold Scan in *. rewrite Hs in *.
  destruct (pending s) as [|b t] eqn:Ep; [reflexivity|].
  destruct (cutLine (b :: t)) as [[line rest]|] eqn:Ec.
  - destruct (MaxScanTokenSize <=? length line)%nat; [discriminate He|].
    pose proof (cutLine_length _ _ _ Ec) as Hl.
    apply cutLine_split in Ec.
    set (s' := {| pending := rest; src_err := src_err s;
                  token := dropCR line; sc_err := None |}) in *.
    specialize (IH s' eq_refl).
    destruct (scanAll fuel s') as [lines s''] eqn:Es. cbn [fst snd] in *.
    cbn [map concat]. unfold Text. cbn [token s'].
    rewrite IH; [|cbn [pending s']; lia|exact He].
    cbn [pending s']. rewrite Ec, filter_app, filter_dropCR. cbn [filter].
    now rewrite NL_junk.
  - destruct (MaxScanTokenSize <=? length (b :: t))%nat; [discriminate He|].
    set (s' := {| pending := []; src_err := src_err s;
                  token := dropCR (b :: t); sc_err := None |}) in *.
    specialize (IH s' eq_refl).
    destruct (scanAll fuel s') as [lines s''] eqn:Es. cbn [fst snd] in *.
    cbn [map concat]. unfold Text. cbn [token s'].
    rewrite IH; [|cbn [pending s' length] in *; lia|exact He].
    cbn [pending s' filter]. now rewrite app_nil_r, filter_dropCR.
Qed.

Lemma pending_NewScanner (reader : Reader) :
  pending (NewScanner reader) = fst (drain reader 0)
  /\ src_err (NewScanner reader) = snd (drain reader 0)
  /\ sc_err (NewScanner reader) = None.
Proof. unfold NewScanner. now destruct (drain reader 0). Qed.

Lemma processedText_filter (c : command) (reader : Reader) :
  IgnoreGarbage (flags c) = true -> scanError reader = None ->
  processedText c reader = filter isBase64Byte (fst (drain reader 0)).
Proof.
  intros Hi He. unfold processedText, scanError, scanned, Scanner_Err in *.
  destruct (pending_NewScanner reader) as (Hp & _ & Hs).
  rewrite <- Hp.
  rewrite <- (scanAll_filter (S (S (length (pending (NewScanner reader)))))
                (NewScanner reader) Hs (Nat.lt_lt_succ_r _ _ (Nat.lt_succ_diag_r _)) He).
  f_equal. apply map_ext. intros l. now apply cleaned_filter.
Qed.

(** A scanner whose source has failed ends with an error. *)
Lemma scanAll_src_err (err : error) (fuel : nat) :
  forall s : Scanner,
    sc_err s = None -> src_err s = Some err ->
    (length (pending s) < fuel)%nat ->
    sc_err (snd (scanAll fuel s)) = Some err
    \/ sc_err (snd (scanAll fuel s)) = Some ErrTooLong.
Proof.
  induction fuel as [|fuel IH]; intros s Hs Hsrc Hf; [lia|].
  cbn [scanAll]. unfold Scan. rewrite Hs.
  destruct (pending s) as [|b t] eqn:Ep.
  { cbn [snd sc_err]. now left. }
  destruct (cutLine (b :: t)) as [[line rest]|] eqn:Ec.
  - destruct (MaxScanTokenSize <=? length line)%nat; [cbn [snd sc_err]; now right|].
    pose proof (cutLine_length _ _ _ Ec) as Hl.
    set (s' := {| pending := rest; src_err := src_err s;
                  token := dropCR line; sc_err := None |}).
    specialize (IH s' eq_refl Hsrc).
    destruct (scanAll fuel s') as [lines s'']. cbn [fst snd] in *.
    apply IH. cbn [pending s']. lia.
  - destruct (MaxScanTokenSize <=? length (b :: t))%nat; [cbn [snd sc_err]; now right|].
    set (s' := {| pending := []; src_err := src_err s;
                  token := dropCR (b :: t); sc_err := None |}).
    specialize (IH s' eq_refl Hsrc).
    destruct (scanAll fuel s') as [lines s'']. cbn [fst snd] in *.
    apply IH. cbn [pending s' length] in *. lia.
Qed.

Lemma scanError_failed (reader : Reader) (err : error) :
  snd (drain reader 0) = Some err ->
  scanError reader = Some err \/ scanError reader = Some ErrTooLong.
Proof.
  intros H. unfold scanError, scanned, Scanner_Err.
  destruct (pending_NewScanner reader) as (_ & Hsrc & Hs).
  apply scanAll_src_err; [exact Hs|congruence|lia].
Qed.

(** X7 (read failure while decoding).  When the source fails,
    [decodeSource] reports an error on the error channel as
    ["base64: <error>"], returns it and writes nothing to the output
    sink, whatever was read before the failure: the error is that of the
    source, or [bufio.ErrTooLong] when a line of 64 KiB came first. *)
Theorem decodeSource_read_failure (c : command) (reader : Reader) (err : error)
        (w : World) :
  snd (drain reader 0) = Some err ->
  exists err' evs,
    (err' = err \/ err' = ErrTooLong)
    /\ quiet evs
    /\ decodeSource c Background reader w
       = (Err err', w ++ evs ++ [Stderr (str "base64: " ++ Error err' ++ [NL])])
    /\ written (snd (decodeSource c Background reader w)) = written w.
Proof.
  intros H.
  destruct (decodeSource_Background c reader w) as (evs & Q & E).
  assert (Hs : exists err', (err' = err \/ err' = ErrTooLong)
                            /\ scanError reader = Some err').
  { destruct (scanError_failed reader err H) as [Hs|Hs]; eauto. }
  destruct Hs as (err' & Hor & Hs). rewrite Hs in E.
  exists err', evs. split; [exact Hor|]. split; [exact Q|]. split; [exact E|].
  rewrite E. cbn [snd]. rewrite !written_app, (quiet_written evs Q).
  cbn. now rewrite !app_nil_r.
Qed.

Lemma decodeSource_read_failure_witness :
  exists err' evs,
    (err' = ReadError (str "unexpected EOF") \/ err' = ErrTooLong)
    /\ quiet evs
    /\ decodeSource (Base64 [DecodeFlag true]) Background
                    [(str "SGVsbG8=", rfail (str "unexpected EOF"))] start
       = (Err err', start ++ evs ++ [Stderr (str "base64: " ++ Error err' ++ [NL])])
    /\ written (snd (decodeSource (Base64 [DecodeFlag true]) Background
                                  [(str "SGVsbG8=", rfail (str "unexpected EOF"))]
                                  start))
       = written start.
Proof.
  exact (decodeSource_read_failure (Base64 [DecodeFlag true])
           [(str "SGVsbG8=", rfail (str "unexpected EOF"))]
           (ReadError (str "unexpected EOF")) start eq_refl).
Defined.

(** X8 (decoding under [IgnoreGarbage]).  When the scanner ends without
    an error, the text that [decodeSource] hands to the decoder under
    [IgnoreGarbage] is the sequence of the alphabet bytes of the whole
    input: the division into lines, and every other byte, play no
    part. *)
Theorem decodeSource_ignoreGarbage_filters (c : command) (reader : Reader)
        (w : World) :
  IgnoreGarbage (flags c) = true ->
  scanError reader = None ->
  processedText c reader = filter isBase64Byte (fst (drain reader 0))
  /\ exists evs,
      quiet evs
      /\ decodeSource c Background reader w
         = match base64.DecodeString (filter isBase64Byte (fst (drain reader 0))) with
           | (_, Some n) =>
             (Err (CorruptInput n),
              w ++ evs ++ [Stderr (str "base64: " ++ Error (CorruptInput n) ++ [NL])])
           | (decoded, None) => (Ok tt, w ++ evs ++ [Stdout decoded])
           end.
Proof.
  intros Hi He.
  pose proof (processedText_filter c reader Hi He) as Hp.
  split; [exact Hp|].
  destruct (decodeSource_Background c reader w) as (evs & Q & E).
  rewrite He, Hp in E. exists evs. now split.
Qed.

Lemma decodeSource_ignoreGarbage_filters_witness :
  processedText (Base64 [DecodeFlag true; IgnoreGarbageFlag true])
                [(str "SGVs*bG8=", rnil)]
  = str "SGVsbG8=".
Proof.
  destruct (decodeSource_ignoreGarbage_filters
              (Base64 [DecodeFlag true; IgnoreGarbageFlag true])
              [(str "SGVs*bG8=", rnil)] start eq_refl
              ltac:(vm_compute; reflexivity)) as [H _].
  exact H.
Defined.

(** X9 (round trip through garbage).  Under [IgnoreGarbage] every input
    that the scanner reads without an error and whose alphabet bytes are
    the standard encoding of [data] is decoded to [data]. *)
Theorem decodeSource_garbage_tolerant (c : command) (reader : Reader)
        (data : list byte) (w : World) :
  IgnoreGarbage (flags c) = true ->
  scanError reader = None ->
  filter isBase64Byte (fst (drain reader 0)) = base64.EncodeToString data ->
  exists evs,
    quiet evs
    /\ decodeSource c Background reader w = (Ok tt, w ++ evs ++ [Stdout data]).
Proof.
  intros Hi He Hf.
  pose proof (processedText_filter c reader Hi He) as Hp.
  destruct (decodeSource_Background c reader w) as (evs & Q & E).
  rewrite He, Hp, Hf, DecodeString_EncodeToString in E.
  exists evs. now split.
Qed.

Lemma decodeSource_garbage_tolerant_witness :
  exists evs,
    quiet evs
    /\ decodeSource (Base64 [DecodeFlag true; IgnoreGarbageFlag true]) Background
                    [(str "SG Vs" ++ [NL] ++ str "-- bG8= !", rnil)] start
       = (Ok tt, start ++ evs ++ [Stdout (str "Hello")]).
Proof.
  exact (decodeSource_garbage_tolerant
           (Base64 [DecodeFlag true; IgnoreGarbageFlag true])
           [(str "SG Vs" ++ [NL] ++ str "-- bG8= !", rnil)] (str "Hello") start
           eq_refl ltac:(vm_compute; reflexivity) ltac:(vm_compute; reflexivity)).
Defined.

(** ** Lines that the scanner cannot hold *)

Lemma cutLine_app (l rest : list byte) :
  forallb (fun b => negb (byte_eqb b NL)) l = true ->
  cutLine (l ++ NL :: rest) = Some (l, rest).
Proof.
  induction l as [|b l IH]; intros H; cbn [app cutLine].
  - now rewrite byte_eqb_refl.
  - cbn [forallb] in H. apply andb_true_iff in H. destruct H as [Hb Hl].
    apply negb_true_iff in Hb. rewrite Hb, (IH Hl). reflexivity.
Qed.

Lemma cutLine_none (l : list byte) :
  forallb (fun b => negb (byte_eqb b NL)) l = true -> cutLine l = None.
Proof.
  induction l as [|b l IH]; intros H; cbn [cutLine]; [reflexivity|].
  cbn [forallb] in H. apply andb_true_iff in H. destruct H as [Hb Hl].
  apply negb_true_iff in Hb. now rewrite Hb, (IH Hl).
Qed.

Lemma scanAll_too_long (long rest : list byte) (e : option error) :
  forallb (fun b => negb (byte_eqb b NL)) long = true ->
  (MaxScanTokenSize <=? length long)%nat = true ->
  (rest = [] \/ exists rest', rest = NL :: rest') ->
  forall (lines : list gostring) (fuel : nat) (tok : gostring),
    forallb (fun l => forallb (fun b => negb (byte_eqb b NL)) l
                      && (length l <? MaxScanTokenSize)%nat) lines = true ->
    (length lines < fuel)%nat ->
    sc_err (snd (scanAll fuel
                   {| pending := concat (map (fun l => l ++ [NL]) lines)
                                 ++ long ++ rest;
                      src_err := e; token := tok; sc_err := None |}))
    = Some ErrTooLong.
Proof.
  intros Hlong Hsize Hrest.
  induction lines as [|l lines IH]; intros fuel tok Hl Hf.
  - destruct fuel as [|fuel]; [cbn [length] in Hf; lia|].
    cbn [map concat app scanAll]. unfold Scan. cbn [sc_err pending src_err].
    destruct (long ++ rest) as [|b t] eqn:E.
    { apply app_eq_nil in E. destruct E as [-> _].
      apply Nat.leb_le in Hsize. unfold MaxScanTokenSize in Hsize.
      cbn [length] in Hsize. lia. }
    rewrite <- E.
    destruct Hrest as [->|[rest' ->]].
    + rewrite app_nil_r. rewrite (cutLine_none long Hlong), Hsize. reflexivity.
    + rewrite (cutLine_app long rest' Hlong), Hsize. reflexivity.
  - destruct fuel as [|fuel]; [cbn [length] in Hf; lia|].
    cbn [forallb] in Hl. apply andb_true_iff in Hl. destruct Hl as [Hl0 Hl].
    apply andb_true_iff in Hl0. destruct Hl0 as [Hnl Hshort].
    cbn [map concat scanAll]. unfold Scan. cbn [sc_err pending src_err].
    rewrite <- !app_assoc. cbn [app].
    destruct (l ++ NL :: concat (map (fun l0 => l0 ++ [NL]) lines) ++ long ++ rest)
      as [|b t] eqn:E.
    { destruct l; discriminate E. }
    rewrite <- E. rewrite (cutLine_app l _ Hnl).
    apply Nat.ltb_lt in Hshort.
    destruct (Nat.leb_spec MaxScanTokenSize (length l)) as [Hle|_]; [lia|].
    specialize (IH fuel (dropCR l) Hl ltac:(cbn [length] in Hf; lia)).
    destruct (scanAll fuel _) as [ls s'']. exact IH.
Qed.

Lemma segments_count (n : nat) (s : gostring) :
  (0 < n)%nat ->
  Z.of_nat (length (segments n s))
  = (Z.of_nat (length s) + Z.of_nat n - 1) / Z.of_nat n.
Proof.
  intros Hn. induction s as [|b t IH] using (segments_ind n Hn).
  - rewrite segments_nil. cbn [length]. symmetry. apply Z.div_small. lia.
  - rewrite segments_cons by assumption. cbn [length] in *.
    rewrite Nat2Z.inj_succ, IH, length_skipn.
    destruct (Nat.le_gt_cases (length (b :: t)) n) as [Hle|Hgt].
    + replace (length (b :: t) - n)%nat with 0%nat by lia.
      cbn [length] in Hle.
      rewrite (Z.div_small (Z.of_nat 0 + Z.of_nat n - 1)) by lia.
      apply Z.div_unique with (r := Z.of_nat (length t)); lia.
    + rewrite Nat2Z.inj_sub by lia. cbn [length] in *.
      rewrite Nat2Z.inj_succ.
      replace (Z.succ (Z.of_nat (length t)) + Z.of_nat n - 1)
        with (Z.succ (Z.of_nat (length t)) - Z.of_nat n + Z.of_nat n - 1
              + 1 * Z.of_nat n) by lia.
      rewrite Z.div_add by lia. lia.
Qed.

Lemma filter_join_NL (ls : list gostring) :
  filter isBase64Byte (join [NL] ls) = concat (map (filter isBase64Byte) ls).
Proof.
  destruct ls as [|l ls]; [reflexivity|].
  cbn [join map concat]. rewrite filter_app. f_equal.
  induction ls as [|x ls IH]; [reflexivity|].
  cbn [map concat]. rewrite filter_app, IH. cbn [app filter].
  now rewrite NL_junk.
Qed.

Lemma base64_singleByte (s : gostring) :
  Forall (fun b => isBase64Byte b = true) s -> singleByte s.
Proof.
  apply Forall_impl. intros b Hb. apply isBase64Rune_ascii in Hb. lia.
Qed.

Lemma concat_map_id_filter (ls : list gostring) :
  Forall (Forall (fun b => isBase64Byte b = true)) ls ->
  concat (map (filter isBase64Byte) ls) = concat ls.
Proof.
  induction 1 as [|l ls Hl _ IH]; [reflexivity|].
  cbn [map concat]. now rewrite IH, (filter_all _ _ _ Hl).
Qed.

(** X10 (a line that the scanner cannot hold).  When the input holds,
    after any number of shorter lines, a line of 64 KiB or more before
    its line feed, or a last line of more than 64 KiB without one,
    [decodeSource] fails with [bufio.ErrTooLong], reports
    ["base64: bufio.Scanner: token too long"] and writes nothing to the
    output sink. *)
Theorem decodeSource_line_too_long (c : command) (reader : Reader)
        (lines : list gostring) (long rest : list byte) (e : option error)
        (w : World) :
  drain reader 0 = (concat (map (fun l => l ++ [NL]) lines) ++ long ++ rest, e) ->
  forallb (fun l => forallb (fun b => negb (byte_eqb b NL)) l
                    && (length l <? MaxScanTokenSize)%nat) lines = true ->
  forallb (fun b => negb (byte_eqb b NL)) long = true ->
  (MaxScanTokenSize <=? length long)%nat = true ->
  (rest = [] /\ (MaxScanTokenSize <? length long)%nat = true
   \/ exists rest', rest = NL :: rest') ->
  exists evs,
    quiet evs
    /\ decodeSource c Background reader w
       = (Err ErrTooLong,
          w ++ evs ++ [Stderr (str "base64: bufio.Scanner: token too long" ++ [NL])])
    /\ written (snd (decodeSource c Background reader w)) = written w.
Proof.
  intros Hd Hlines Hlong Hsize Hrest.
  assert (Hrest' : rest = [] \/ exists rest', rest = NL :: rest')
    by (destruct Hrest as [[H _]|H]; [now left|now right]).
  assert (Hs : scanError reader = Some ErrTooLong).
  { unfold scanError, scanned, Scanner_Err, NewScanner. rewrite Hd.
    cbn [pending].
    apply (scanAll_too_long long rest e Hlong Hsize Hrest' lines _ [] Hlines).
    rewrite !length_app, length_concat, map_map. unfold list_sum.
    assert (H : (length lines
                 <= fold_right Nat.add 0%nat
                      (map (fun x => length (x ++ [NL])) lines))%nat).
    { clear. induction lines as [|l ls IH]; [apply Nat.le_refl|].
      cbn [map fold_right length].
      rewrite length_app. cbn [length]. lia. }
    lia. }
  destruct (decodeSource_Background c reader w) as (evs & Q & E).
  rewrite Hs in E. exists evs. split; [exact Q|]. split; [exact E|].
  rewrite E. cbn [snd]. rewrite !written_app, (quiet_written evs Q).
  cbn. now rewrite !app_nil_r.
Qed.

Lemma decodeSource_line_too_long_witness :
  exists evs,
    quiet evs
    /\ decodeSource (Base64 [DecodeFlag true]) Background
                    [(str "SGVs" ++ [NL] ++ repeat "A"%byte (64 * 1024) ++ [NL], EOF)]
                    start
       = (Err ErrTooLong,
          start ++ evs
          ++ [Stderr (str "base64: bufio.Scanner: token too long" ++ [NL])])
    /\ written (snd (decodeSource (Base64 [DecodeFlag true]) Background
                       [(str "SGVs" ++ [NL] ++ repeat "A"%byte (64 * 1024) ++ [NL],
                         EOF)]
                       start))
       = written start.
Proof.
  apply (decodeSource_line_too_long (Base64 [DecodeFlag true])
           [(str "SGVs" ++ [NL] ++ repeat "A"%byte (64 * 1024) ++ [NL], EOF)]
           [str "SGVs"] (repeat "A"%byte (64 * 1024)) [NL] None start).
  - cbn [drain map concat]. now rewrite !app_nil_r, <- app_assoc.
  - vm_compute. reflexivity.
  - vm_compute. reflexivity.
  - vm_compute. reflexivity.
  - right. exists []. reflexivity.
Defined.

Lemma cleanLine_flags (c c' : command) (ctx : Context) (text : gostring) :
  IgnoreGarbage (flags c) = IgnoreGarbage (flags c') ->
  cleanLine c ctx text = cleanLine c' ctx text.
Proof. intros H. unfold cleanLine. now rewrite H. Qed.

Lemma scanLoop_flags (c c' : command) (ctx : Context) (fuel : nat) :
  IgnoreGarbage (flags c) = IgnoreGarbage (flags c') ->
  forall scanner encodedData w,
    scanLoop c ctx fuel scanner encodedData w
    = scanLoop c' ctx fuel scanner encodedData w.
Proof.
  intros H. induction fuel as [|fuel IH]; intros scanner encodedData w;
    cbn [scanLoop]; [reflexivity|].
  unfold bind. destruct (ScanWithContext ctx scanner w) as [[[ok s']|e] w1];
    [|reflexivity].
  destruct ok; [|reflexivity].
  rewrite (cleanLine_flags c c' ctx (Text s') H).
  destruct (cleanLine c' ctx (Text s') w1) as [[line|e] w2]; [apply IH|reflexivity].
Qed.

Lemma bind_ext_r (A B : Type) (m : M A) (k k' : A -> M B) (w : World) :
  (forall a w', k a w' = k' a w') -> bind m k w = bind m k' w.
Proof.
  intros H. unfold bind. destruct (m w) as [[a|e] w1]; [apply H|reflexivity].
Qed.

Lemma bind_ext_l (A B : Type) (m m' : M A) (k : A -> M B) (w : World) :
  m w = m' w -> bind m k w = bind m' k w.
Proof. intros H. unfold bind. now rewrite H. Qed.

(** X11 (the flags that are consulted).  [encodeSource] depends on the
    command through its wrap width only, so the [Wrap] flag changes
    nothing, and [decodeSource] through [IgnoreGarbage] only. *)
Theorem flags_consulted (c c' : command) (ctx : Context) (reader : Reader)
        (w : World) :
  (WrapWidth (flags c) = WrapWidth (flags c') ->
   encodeSource c ctx reader w = encodeSource c' ctx reader w)
  /\ (IgnoreGarbage (flags c) = IgnoreGarbage (flags c') ->
      decodeSource c ctx reader w = decodeSource c' ctx reader w).
Proof.
  split; intros H.
  - unfold encodeSource. rewrite !wrap_condition, H. reflexivity.
  - unfold decodeSource. apply bind_ext_r. intros _ w1.
    apply bind_ext_l. now apply scanLoop_flags.
Qed.

Lemma flags_consulted_witness :
  encodeSource (Base64 [WrapFlag false; WrapWidthOpt 4]) Background
               [(str "hello", rnil)] start
  = encodeSource (Base64 [WrapFlag true; WrapWidthOpt 4; DecodeFlag true]) Background
                 [(str "hello", rnil)] start.
Proof.
  destruct (flags_consulted (Base64 [WrapFlag false; WrapWidthOpt 4])
              (Base64 [WrapFlag true; WrapWidthOpt 4; DecodeFlag true])
              Background [(str "hello", rnil)] start) as [H _].
  apply H. reflexivity.
Defined.

(** ** How often the wrapper and the filter poll *)

Lemma repeat_poll_step (i n : Z) :
  0 <= i -> 0 <= n ->
  (if Z.rem i 1000 =? 0 then [Poll] else [])
    ++ repeat Poll (Z.to_nat ((i + 1 + n + 999) / 1000 - (i + 1 + 999) / 1000))
  = repeat Poll (Z.to_nat ((i + (n + 1) + 999) / 1000 - (i + 999) / 1000)).
Proof.
  intros Hi Hn. rewrite Z.rem_mod_nonneg by lia.
  destruct (Z.eqb_spec (i mod 1000) 0) as [E|E].
  - replace (Z.to_nat ((i + (n + 1) + 999) / 1000 - (i + 999) / 1000))
      with (S (Z.to_nat ((i + 1 + n + 999) / 1000 - (i + 1 + 999) / 1000)));
      [reflexivity|].
    Z.div_mod_to_equations. lia.
  - cbn [app]. f_equal. f_equal. Z.div_mod_to_equations. lia.
Qed.

Lemma rangeM_poll_count (A : Type) (bodyM : Z -> Z -> A -> M A)
      (body : Z -> Z -> A -> A) :
  (forall i r acc w,
      bodyM i r acc w
      = (Ok (body i r acc), w ++ (if Z.rem i 1000 =? 0 then [Poll] else []))) ->
  forall (fuel : nat) (s : gostring) (i : Z) (acc : A) (w : World),
    singleByte s -> (length s <= fuel)%nat -> 0 <= i ->
    rangeM_from fuel bodyM i s acc w
    = (Ok (range_from fuel body i s acc),
       w ++ repeat Poll (Z.to_nat ((i + Z.of_nat (length s) + 999) / 1000
                                   - (i + 999) / 1000))).
Proof.
  intros Hbody. induction fuel as [|fuel IH]; intros s i acc w Hs Hf Hi.
  - destruct s; [|cbn [length] in Hf; lia].
    cbn [rangeM_from range_from length]. unfold ret.
    rewrite Z.add_0_r, Z.sub_diag. cbn [Z.to_nat repeat]. now rewrite app_nil_r.
  - destruct s as [|b t].
    { cbn [rangeM_from range_from length]. unfold ret.
      rewrite Z.add_0_r, Z.sub_diag. cbn [Z.to_nat repeat]. now rewrite app_nil_r. }
    cbn [rangeM_from range_from].
    inversion Hs as [|? ? Hb Ht]; subst.
    rewrite (DecodeRune_ascii b t Hb). cbn [skipn].
    unfold bind. rewrite Hbody.
    rewrite (IH t (i + Z.of_nat 1) _ _ Ht) by (cbn [length] in Hf; lia).
    f_equal. rewrite <- app_assoc. f_equal.
    cbn [length].
    replace (i + Z.of_nat (S (length t)) + 999)
      with (i + (Z.of_nat (length t) + 1) + 999) by lia.
    replace (i + Z.of_nat 1 + Z.of_nat (length t) + 999)
      with (i + 1 + Z.of_nat (length t) + 999) by lia.
    replace (i + Z.of_nat 1 + 999) with (i + 1 + 999) by lia.
    apply repeat_poll_step; lia.
Qed.

Lemma poll_step_Background (i : Z) (A : Type) (a : A) (w : World) :
  bind (if Z.rem i 1000 =? 0 then check Background else ret tt) (fun _ => ret a) w
  = (Ok a, w ++ (if Z.rem i 1000 =? 0 then [Poll] else [])).
Proof.
  destruct (Z.rem i 1000 =? 0).
  - reflexivity.
  - cbv [bind ret]. now rewrite app_nil_r.
Qed.

Lemma poll_count_0 (n : Z) :
  Z.to_nat ((0 + n + 999) / 1000 - (0 + 999) / 1000) = Z.to_nat ((n + 999) / 1000).
Proof.
  rewrite Z.add_0_l. change ((0 + 999) / 1000) with 0. now rewrite Z.sub_0_r.
Qed.

(** X12 (polls of the two passes).  On text of single-byte characters,
    as base64 text is, and with a signal that never fires, the wrap pass
    and the filter pass poll the signal once for every 1000 bytes begun,
    [ceil (len / 1000)] times, and have no other effect. *)
Theorem passes_poll_every_1000 (s : gostring) (width : Z) (w : World) :
  singleByte s ->
  (0 < width ->
   wrapStringWithContext Background s width w
   = (Ok (wrapString s width),
      w ++ repeat Poll (Z.to_nat ((Z.of_nat (length s) + 999) / 1000))))
  /\ removeNonBase64WithContext Background s w
     = (Ok (removeNonBase64 s),
        w ++ repeat Poll (Z.to_nat ((Z.of_nat (length s) + 999) / 1000))).
Proof.
  intros Hs. split.
  - intros Hw. unfold wrapStringWithContext, wrapString.
    destruct (Z.leb_spec width 0); [lia|].
    unfold rangeM, range.
    rewrite (rangeM_poll_count _ _
               (fun i char result =>
                  WriteRune (if (0 <? i) && (Z.rem i width =? 0)
                             then WriteRune result 10 else result) char));
      [now rewrite poll_count_0| |exact Hs|apply Nat.le_refl|lia].
    intros i r acc w'. apply poll_step_Background.
  - unfold removeNonBase64WithContext, removeNonBase64, rangeM, range.
    rewrite (rangeM_poll_count _ _
               (fun _ char result =>
                  if isBase64Rune char then WriteRune result char else result));
      [now rewrite poll_count_0| |exact Hs|apply Nat.le_refl|lia].
    intros i r acc w'. apply poll_step_Background.
Qed.

Lemma passes_poll_every_1000_witness :
  wrapStringWithContext Background (repeat "A"%byte 2500) 76 start
  = (Ok (wrapString (repeat "A"%byte 2500) 76), start ++ [Poll; Poll; Poll]).
Proof.
  destruct (passes_poll_every_1000 (repeat "A"%byte 2500) 76 start) as [H _].
  - apply Forall_forall. intros b Hb. apply repeat_spec in Hb. subst b.
    vm_compute. reflexivity.
  - apply H. reflexivity.
Defined.

(** X13 (the filter undoes the wrapper).  For every text of alphabet
    characters and every width, [removeNonBase64] returns the text from
    what [wrapString] made of it. *)
Theorem removeNonBase64_undoes_wrapString (s : gostring) (width : Z) :
  Forall (fun b => isBase64Byte b = true) s ->
  removeNonBase64 (wrapString s width) = s.
Proof.
  intros Hs. rewrite removeNonBase64_filter.
  destruct (Z.leb_spec width 0) as [Hw|Hw].
  - unfold wrapString. destruct (Z.leb_spec width 0); [|lia].
    now apply filter_all.
  - rewrite wrapString_segments by (try apply base64_singleByte; assumption).
    rewrite filter_join_NL, concat_map_id_filter.
    + apply concat_segments. lia.
    + apply segments_chars; [lia|exact Hs].
Qed.

Lemma removeNonBase64_undoes_wrapString_witness :
  removeNonBase64 (wrapString (str "SGVsbG8gV29ybGQ=") 5) = str "SGVsbG8gV29ybGQ=".
Proof.
  apply (removeNonBase64_undoes_wrapString (str "SGVsbG8gV29ybGQ=") 5).
  vm_compute. repeat constructor.
Defined.

Lemma encodedChar_isBase64 (b : byte) : encodedChar b = true -> isBase64Byte b = true.
Proof. intros H. now apply encodedChar_facts in H. Qed.

(** X14 (the lines of the encoder's output).  With a positive wrap width
    [W] and a source that delivers [data], [encodeSource] writes the
    lines of the encoded text, each followed by a line feed: there are
    [max 1 (ceil (L / W))] lines for the [L = 4 * ceil (n / 3)] characters
    that encode the [n] bytes, every line holds alphabet characters only,
    at most [W] of them, and every line but the last exactly [W]. *)
Theorem encodeSource_output_lines (c : command) (reader : Reader)
        (data : list byte) (w : World) :
  slurp reader = (data, None) ->
  0 < WrapWidth (flags c) ->
  let width := WrapWidth (flags c) in
  let text := base64.EncodeToString data in
  let lines := outputLines width text in
  (exists evs,
      quiet evs
      /\ encodeSource c Background reader w
         = (Ok tt, w ++ evs ++ [Stdout (concat (map (fun l => l ++ [NL]) lines))]))
  /\ concat lines = text
  /\ Forall (fun l => Forall (fun b => isBase64Byte b = true) l
                      /\ Z.of_nat (length l) <= width) lines
  /\ Forall (fun l => Z.of_nat (length l) = width) (removelast lines)
  /\ Z.of_nat (length lines)
     = Z.max 1 ((Z.of_nat (length text) + width - 1) / width)
  /\ Z.of_nat (length text) = 4 * ((Z.of_nat (length data) + 2) / 3).
Proof.
  intros Hr Hw width text lines.
  assert (Hn : (0 < Z.to_nat width)%nat) by (unfold width; lia).
  assert (Hchars : Forall (fun b => isBase64Byte b = true) text).
  { eapply Forall_impl; [|apply EncodeToString_chars].
    intros b. apply encodedChar_isBase64. }
  split; [|split; [|split; [|split; [|split]]]].
  - destruct (encodeSource_Background c reader w) as (evs & Q & E).
    rewrite Hr in E. cbn [fst snd] in E. rewrite encoded_lines in E.
    exists evs. now split.
  - apply outputLines_concat.
  - unfold lines, outputLines. fold width.
    destruct (Z.ltb_spec 0 width) as [_|]; [|lia].
    pose proof (segments_chars _ (Z.to_nat width) text Hn Hchars) as H1.
    pose proof (segments_lengths (Z.to_nat width) text Hn) as H2.
    destruct (segments (Z.to_nat width) text) as [|l ls].
    + repeat constructor. cbn [length]. lia.
    + rewrite Forall_forall in *. intros x Hx. split; [now apply H1|].
      specialize (H2 x Hx). lia.
  - unfold lines, outputLines. fold width.
    destruct (Z.ltb_spec 0 width) as [_|]; [|lia].
    pose proof (segments_full (Z.to_nat width) text Hn) as H1.
    destruct (segments (Z.to_nat width) text) as [|l ls].
    + constructor.
    + eapply Forall_impl; [|exact H1]. intros x Hx. cbv beta in Hx. lia.
  - unfold lines, outputLines. fold width.
    destruct (Z.ltb_spec 0 width) as [_|]; [|lia].
    pose proof (segments_count (Z.to_nat width) text Hn) as H1.
    rewrite Z2Nat.id in H1 by lia.
    destruct (segments (Z.to_nat width) text) as [|l ls] eqn:E.
    + cbn [length] in *. lia.
    + rewrite H1.
      assert (0 < Z.of_nat (length (l :: ls))) by (cbn [length]; lia).
      lia.
  - apply EncodeToString_length.
Qed.

Lemma encodeSource_output_lines_witness :
  Z.of_nat (length (outputLines (WrapWidth (flags (Base64 [WrapWidthOpt 10])))
                                (base64.EncodeToString (str "Hello World Test Data"))))
  = Z.max 1 ((Z.of_nat (length (base64.EncodeToString (str "Hello World Test Data")))
              + WrapWidth (flags (Base64 [WrapWidthOpt 10])) - 1)
             / WrapWidth (flags (Base64 [WrapWidthOpt 10]))).
Proof.
  destruct (encodeSource_output_lines (Base64 [WrapWidthOpt 10])
              [(str "Hello World Test Data", rnil)]
              (str "Hello World Test Data") start eq_refl eq_refl)
    as (_ & _ & _ & _ & H & _).
  exact H.
Defined.

(** ** The two implementations on one line *)

Lemma dropCR_no_newline (l : list byte) :
  forallb (fun b => negb (base64.isNewline b)) l = true -> dropCR l = l.
Proof.
  intros H. unfold dropCR. destruct (rev l) as [|c r] eqn:E; [reflexivity|].
  destruct (byte_eqb c CR) eqn:Ec; [|reflexivity].
  rewrite forallb_forall in H.
  assert (Hin : In c l) by (apply in_rev; rewrite E; now left).
  specialize (H c Hin). unfold base64.isNewline in H. rewrite Ec in H.
  rewrite orb_true_r in H. discriminate H.
Qed.

Lemma no_newline_no_NL (l : list byte) :
  forallb (fun b => negb (base64.isNewline b)) l = true ->
  forallb (fun b => negb (byte_eqb b NL)) l = true.
Proof.
  intros H. rewrite forallb_forall in *. intros b Hb. specialize (H b Hb).
  unfold base64.isNewline in H. destruct (byte_eqb b NL); [discriminate H|reflexivity].
Qed.

(** The scanner delivers a source that holds one line without a line
    break as that line. *)
Lemma scanned_one_line (reader : Reader) (line : gostring) :
  drain reader 0 = (line, None) ->
  forallb (fun b => negb (base64.isNewline b)) line = true ->
  (length line <? MaxScanTokenSize)%nat = true ->
  scanError reader = None
  /\ fst (scanned reader) = match line with [] => [] | _ :: _ => [line] end.
Proof.
  intros Hd Hn Hs. unfold scanError, scanned, Scanner_Err, NewScanner.
  rewrite Hd. cbn [pending].
  destruct line as [|b t]; [split; reflexivity|].
  assert (E1 : Scan {| pending := b :: t; src_err := None; token := [];
                       sc_err := None |}
               = (true, {| pending := []; src_err := None; token := b :: t;
                           sc_err := None |})).
  { unfold Scan. cbn [sc_err pending src_err].
    rewrite (cutLine_none (b :: t) (no_newline_no_NL _ Hn)).
    apply Nat.ltb_lt in Hs.
    destruct (Nat.leb_spec MaxScanTokenSize (length (b :: t))) as [Hle|_]; [lia|].
    now rewrite (dropCR_no_newline (b :: t) Hn). }
  cbn [scanAll]. rewrite E1. unfold Scan. cbn [sc_err pending src_err fst snd Text token].
  split; reflexivity.
Qed.

(** X15 (the two implementations on one line).  With the wrap flag and a
    positive width, [encodeSource] writes for a source that delivers
    [line] what [Executor] returns for [line], and a line feed.  Without
    [IgnoreGarbage], for a source that holds the one line [line], without
    a line break and shorter than 64 KiB, [decodeSource] writes the bytes
    that [Executor] returns for [line], and fails with a decode error
    when [Executor] drops the line. *)
Theorem engines_agree_on_one_line (c : command) (reader : Reader)
        (line : gostring) (w : World) :
  (Decode (flags c) = false -> Wrap (flags c) = true -> 0 < WrapWidth (flags c) ->
   slurp reader = (line, None) ->
   exists out evs,
     Executor c line = Some (out, true)
     /\ quiet evs
     /\ encodeSource c Background reader w = (Ok tt, w ++ evs ++ [Stdout (out ++ [NL])]))
  /\ (Decode (flags c) = true -> IgnoreGarbage (flags c) = false ->
      drain reader 0 = (line, None) ->
      forallb (fun b => negb (base64.isNewline b)) line = true ->
      (length line <? MaxScanTokenSize)%nat = true ->
      exists evs,
        quiet evs
        /\ ((exists decoded,
                Executor c line = Some (decoded, true)
                /\ decodeSource c Background reader w
                   = (Ok tt, w ++ evs ++ [Stdout decoded]))
            \/ (exists n,
                   Executor c line = Some ([], false)
                   /\ decodeSource c Background reader w
                      = (Err (CorruptInput n),
                         w ++ evs
                         ++ [Stderr (str "base64: " ++ Error (CorruptInput n)
                                     ++ [NL])])))).
Proof.
  split.
  - intros Hd Hwrap Hw Hr.
    exists (wrapString (base64.EncodeToString line) (WrapWidth (flags c))).
    destruct (encodeSource_Background c reader w) as (evs & Q & E).
    rewrite Hr in E. cbn [fst snd] in E. exists evs.
    split; [|split; [exact Q|]].
    + unfold Executor. rewrite Hd, Hwrap.
      destruct (Z.eqb_spec (WrapWidth (flags c)) 0) as [E0|_]; [lia|].
      rewrite (wrapLoop_segments (base64.EncodeToString line) (WrapWidth (flags c))
                 (S (length (base64.EncodeToString line))) Hw 0 []) by lia.
      rewrite wrapString_segments;
        [reflexivity|exact Hw|apply EncodeToString_singleByte].
    + rewrite E. unfold encoded.
      destruct (Z.ltb_spec 0 (WrapWidth (flags c))); [reflexivity|lia].
  - intros Hd Hi Hr Hn Hs.
    destruct (scanned_one_line reader line Hr Hn Hs) as [He Hl].
    destruct (decodeSource_Background c reader w) as (evs & Q & E).
    rewrite He in E. unfold processedText in E. rewrite Hl in E.
    assert (Ht : concat (map (cleaned c)
                            match line with [] => [] | _ :: _ => [line] end)
                 = strings.TrimSpace line).
    { unfold cleaned. rewrite Hi. destruct line; [reflexivity|].
      cbn [map concat]. now rewrite app_nil_r. }
    rewrite Ht in E. exists evs. split; [exact Q|].
    unfold Executor. rewrite Hd, Hi. cbn [negb].
    destruct (base64.DecodeString (strings.TrimSpace line)) as [decoded [n|]].
    + right. exists n. now split.
    + left. exists decoded. now split.
Qed.

Lemma engines_agree_on_one_line_witness :
  exists evs,
    quiet evs
    /\ ((exists decoded,
            Executor (Base64 [DecodeFlag true]) (str "  aGVsbG8=  ")
            = Some (decoded, true)
            /\ decodeSource (Base64 [DecodeFlag true]) Background
                            [(str "  aGVsbG8=  ", rnil)] start
               = (Ok tt, start ++ evs ++ [Stdout decoded]))
        \/ (exists n,
               Executor (Base64 [DecodeFlag true]) (str "  aGVsbG8=  ")
               = Some ([], false)
               /\ decodeSource (Base64 [DecodeFlag true]) Background
                               [(str "  aGVsbG8=  ", rnil)] start
                  = (Err (CorruptInput n),
                     start ++ evs
                     ++ [Stderr (str "base64: " ++ Error (CorruptInput n)
                                 ++ [NL])]))).
Proof.
  destruct (engines_agree_on_one_line (Base64 [DecodeFlag true])
              [(str "  aGVsbG8=  ", rnil)] (str "  aGVsbG8=  ") start) as [_ H].
  apply H.
  - reflexivity.
  - reflexivity.
  - reflexivity.
  - vm_compute. reflexivity.
  - vm_compute. reflexivity.
Defined.

(** X16 (round trip for every width).  For every wrap width between 1
    and 65535, and without wrapping for data of at most 49149 bytes,
    whose encoded text stays below 64 KiB: what [encodeSource] writes
    for a source that delivers [data] is decoded by [decodeSource], with
    any flags, to exactly [data]. *)
Theorem roundtrip_any_width (ce cd : command) (data : list byte)
        (source : Reader) (w : World) :
  slurp source = (data, None) ->
  (0 < WrapWidth (flags ce) < Z.of_nat MaxScanTokenSize
   \/ WrapWidth (flags ce) <= 0 /\ Z.of_nat (length data) <= 49149) ->
  exists evs out,
    quiet evs
    /\ encodeSource ce Background source w = (Ok tt, w ++ evs ++ [Stdout out])
    /\ forall (text : Reader) (w' : World),
        drain text 0 = (out, None) ->
        exists evs',
          quiet evs'
          /\ decodeSource cd Background text w' = (Ok tt, w' ++ evs' ++ [Stdout data]).
Proof.
  intros Hs Hw.
  destruct (encodeSource_Background ce source w) as (evs & Q & E).
  rewrite Hs in E. cbn [fst snd] in E.
  exists evs, (encoded ce data). split; [exact Q|]. split; [exact E|].
  intros text w' Ht.
  apply (decode_encoded ce cd data text w'); [|exact Ht].
  destruct Hw as [Hw|[Hw Hn]]; [now left|right].
  split; [exact Hw|].
  pose proof (EncodeToString_length data) as Hl. unfold MaxScanTokenSize.
  assert ((Z.of_nat (length data) + 2) / 3 <= 16383)
    by (Z.div_mod_to_equations; lia).
  lia.
Qed.

Lemma roundtrip_any_width_witness :
  exists evs out,
    quiet evs
    /\ encodeSource (Base64 [WrapWidthOpt 7]) Background
                    [(str "Hello World", rnil)] start
       = (Ok tt, start ++ evs ++ [Stdout out])
    /\ forall (text : Reader) (w' : World),
        drain text 0 = (out, None) ->
        exists evs',
          quiet evs'
          /\ decodeSource (Base64 [DecodeFlag true]) Background text w'
             = (Ok tt, w' ++ evs' ++ [Stdout (str "Hello World")]).
Proof.
  apply (roundtrip_any_width (Base64 [WrapWidthOpt 7]) (Base64 [DecodeFlag true])
           (str "Hello World") [(str "Hello World", rnil)] start).
  - reflexivity.
  - left. vm_compute. split; reflexivity.
Defined.
